(** * A 2D rigid-circle physics core: bouncing balls

    Shallow embedding of the physics found in [ballcollisiongemini.py]
    (module [Plain] below) and [ballcollisiongeminiwithui.py] (module
    [WithUI]): the [Ball] class, the per-ball force / integration / wall
    handling of the frame loop, and the ball-ball collision block.

    Number model.  Python [float] and [int] quantities are modelled by the
    real numbers [R]; every arithmetic operation is the exact one.  Rounding,
    infinities and NaN are outside the model, so an equation proved here is
    the exact identity that the floating-point program satisfies up to
    rounding.  Division is guarded where Python would raise: a division whose
    divisor can be zero is modelled with an explicit [ZeroDivisionError].
    The range of a double is modelled where the code converts: [float(n)] of
    an [int] too large for a double raises, and [DBL_MAX] bounds the numbers
    that [float] reads from a text without giving [inf]. *)

From Stdlib Require Import Reals Lra Lia ZArith Bool List.
From Stdlib Require String Ascii.
Import ListNotations.
Open Scope bool_scope.
Open Scope R_scope.

(** ** Exceptions and commands *)

(** [Vector2Error] stands for whatever pygame's [Vector2] constructor raises
    on arguments it cannot take. *)
Inductive exn : Type :=
| TypeError
| ValueError
| ZeroDivisionError
| OverflowError
| Vector2Error.

(** A command runs on a mutable state [S]: it returns the state it leaves
    behind together with the exception that interrupted it, if any. *)
Definition Cmd (S : Type) : Type := S -> S * option exn.

Definition ret {S : Type} : Cmd S := fun s => (s, None).

Definition raise {S : Type} (e : exn) : Cmd S := fun s => (s, Some e).

Definition modify {S : Type} (f : S -> S) : Cmd S := fun s => (f s, None).

Definition and_then {S : Type} (c1 c2 : Cmd S) : Cmd S :=
  fun s =>
    match c1 s with
    | (s1, None) => c2 s1
    | (s1, Some e) => (s1, Some e)
    end.

Notation "c1 ;; c2" := (and_then c1 c2) (at level 61, right associativity).

(** ** pygame.math.Vector2 *)

Record Vector2 : Type := vector2 { vx : R; vy : R }.

Definition vzero : Vector2 := vector2 0 0.
Definition vadd (u v : Vector2) : Vector2 := vector2 (vx u + vx v) (vy u + vy v).
Definition vsub (u v : Vector2) : Vector2 := vector2 (vx u - vx v) (vy u - vy v).
Definition vneg (u : Vector2) : Vector2 := vector2 (- vx u) (- vy u).
Definition vscale (u : Vector2) (k : R) : Vector2 := vector2 (vx u * k) (vy u * k).
Definition vdiv (u : Vector2) (k : R) : Vector2 := vector2 (vx u / k) (vy u / k).
Definition dot (u v : Vector2) : R := vx u * vx v + vy u * vy v.
Definition length_squared (u : Vector2) : R := vx u * vx u + vy u * vy u.
Definition length (u : Vector2) : R := sqrt (length_squared u).

(** [normalize] is only called on vectors whose squared length was tested
    positive, where pygame does not raise. *)
Definition normalize (u : Vector2) : Vector2 := vdiv u (length u).

Declare Scope vec_scope.
Delimit Scope vec_scope with vec.
Bind Scope vec_scope with Vector2.
Infix "+" := vadd : vec_scope.
Infix "-" := vsub : vec_scope.
Notation "- u" := (vneg u) : vec_scope.
Infix "*:" := vscale (at level 40, left associativity).
Infix "/:" := vdiv (at level 40, left associativity).

(** ** The Ball class *)

Definition Color : Type := (Z * Z * Z)%type.

Record Ball : Type := mkBall {
  position : Vector2;
  velocity : Vector2;
  acceleration : Vector2;
  radius : R;
  mass : R;
  inv_mass : R;
  color : Color
}.

Definition set_position (p : Vector2) (b : Ball) : Ball :=
  mkBall p (velocity b) (acceleration b) (radius b) (mass b) (inv_mass b) (color b).

Definition set_velocity (v : Vector2) (b : Ball) : Ball :=
  mkBall (position b) v (acceleration b) (radius b) (mass b) (inv_mass b) (color b).

Definition set_acceleration (a : Vector2) (b : Ball) : Ball :=
  mkBall (position b) (velocity b) a (radius b) (mass b) (inv_mass b) (color b).

Definition set_position_x (x : R) (b : Ball) : Ball :=
  set_position (vector2 x (vy (position b))) b.

Definition set_position_y (y : R) (b : Ball) : Ball :=
  set_position (vector2 (vx (position b)) y) b.

Definition set_velocity_x (x : R) (b : Ball) : Ball :=
  set_velocity (vector2 x (vy (velocity b))) b.

Definition set_velocity_y (y : R) (b : Ball) : Ball :=
  set_velocity (vector2 (vx (velocity b)) y) b.

(** Arguments of the constructor as Python objects: [isinstance(v, (int,
    float))] holds for [PyInt] (which also covers [bool]) and [PyFloat], and
    fails for anything else ([str], [None], a tuple, ...). *)
Inductive pyobj : Type :=
| PyInt (n : Z)
| PyFloat (x : R)
| PyOther.

Definition is_numeric (v : pyobj) : bool :=
  match v with
  | PyInt _ | PyFloat _ => true
  | PyOther => false
  end.

(** The numeric value of a numeric object: what the comparisons of the
    constructor see, and what [float(v)] gives where it does not raise. *)
Definition to_float (v : pyobj) : R :=
  match v with
  | PyInt n => IZR n
  | PyFloat x => x
  | PyOther => 0
  end.


Definition FLOAT_LIMIT : Z := (2 ^ 1024 - 2 ^ 970)%Z.

(** The conversion of a numeric object to a double succeeds: always for a
    [float], for an [int] within the range. *)
Definition fits_double (v : pyobj) : bool :=
  match v with
  | PyInt n => (Z.abs n <? FLOAT_LIMIT)%Z
  | PyFloat _ => true
  | PyOther => true
  end.

(** An argument handed to [vector2(...)], by what pygame's constructor makes
    of it: the vector it is read as (for a [Vector2], a pair of floats, a
    pair of small ints such as the default [(0, 0)]), or an object on which
    the constructor raises. *)
Inductive pyvec : Type :=
| AsVector (v : Vector2)
| NoVector.

(** [self.inv_mass = 1.0 / self.mass if self.mass > 0 else 0] *)
Definition inverse_of_mass (m : R) : R :=
  if Rlt_dec 0 m then 1 / m else 0.

(** The ball that [Ball.__init__] leaves behind when its assignments go
    through (the same in both files): [self.position = vector2(x, y)], ...,
    [self.radius = float(radius)], [self.mass = float(mass)],
    [self.inv_mass = 1.0 / self.mass if self.mass > 0 else 0]. *)
Definition new_ball (x y radius : pyobj) (color : Color) (mass : pyobj)
    (velocity acceleration : Vector2) : Ball :=
  mkBall (vector2 (to_float x) (to_float y)) velocity acceleration
    (to_float radius) (to_float mass) (inverse_of_mass (to_float mass)) color.

(** The assignments of [Ball.__init__] after its three checks, in the order
    of the code, with the conversions that can still raise:
    [vector2(x, y)] on a coordinate beyond the range of a double,
    [vector2(velocity)] and [vector2(acceleration)] on an argument that is
    no vector, [float(radius)] and [float(mass)] on an [int] beyond the
    range of a double. *)
Definition init_fields (x y radius : pyobj) (color : Color) (mass : pyobj)
    (velocity acceleration : pyvec) : Ball + exn :=
  if negb (fits_double x && fits_double y) then inr Vector2Error
  else
    match velocity with
    | NoVector => inr Vector2Error
    | AsVector v =>
        match acceleration with
        | NoVector => inr Vector2Error
        | AsVector a =>
            if negb (fits_double radius) then inr OverflowError
            else if negb (fits_double mass) then inr OverflowError
            else inl (new_ball x y radius color mass v a)
        end
    end.

(** [Ball.update(dt)]: the same text in both files. *)
Definition update (dt : R) : Cmd Ball :=
  fun self =>
    if Rlt_dec dt 0 then raise ValueError self
    else
      let self1 := set_velocity (velocity self + acceleration self *: dt)%vec self in
      let self2 := set_position (position self1 + velocity self1 *: dt)%vec self1 in
      (self2, None).

(** [Ball.apply_force(force)]: the same text in both files. *)
Definition apply_force (force : Vector2) (self : Ball) : Ball :=
  if Rlt_dec 0 (inv_mass self)
  then set_acceleration (acceleration self + force *: inv_mass self)%vec self
  else self.


(** Comparisons of the source as booleans. *)
Definition Rltb (x y : R) : bool := if Rlt_dec x y then true else false.
Definition Rleb (x y : R) : bool := if Rle_dec x y then true else false.

(** ** Geometry of a pair, as computed at detection time

    Both collision blocks start with the same four assignments and, once a
    collision is detected, compute the same [distance], [normal] and
    [overlap]; the relative velocity along the normal is read from the
    velocities, which the separation step does not touch. *)

Definition dist_vec (ball_a ball_b : Ball) : Vector2 :=
  (position ball_b - position ball_a)%vec.

Definition dist_sq (ball_a ball_b : Ball) : R :=
  length_squared (dist_vec ball_a ball_b).

Definition min_dist (ball_a ball_b : Ball) : R :=
  radius ball_a + radius ball_b.

Definition distance (ball_a ball_b : Ball) : R :=
  sqrt (dist_sq ball_a ball_b).

Definition normal (ball_a ball_b : Ball) : Vector2 :=
  dist_vec ball_a ball_b /: distance ball_a ball_b.

Definition overlap (ball_a ball_b : Ball) : R :=
  min_dist ball_a ball_b - distance ball_a ball_b.

Definition total_inv_mass (ball_a ball_b : Ball) : R :=
  inv_mass ball_a + inv_mass ball_b.

Definition relative_velocity (ball_a ball_b : Ball) : Vector2 :=
  (velocity ball_b - velocity ball_a)%vec.

(** [vel_along_normal = relative_velocity.dot(normal)], for a given contact
    normal [n]. *)
Definition vel_along (n : Vector2) (ball_a ball_b : Ball) : R :=
  dot (relative_velocity ball_a ball_b) n.

(** The "Resolve Overlap" assignments, for a pair whose total inverse mass is
    not zero. *)
Definition separate (n : Vector2) (ovl total : R) (ab : Ball * Ball) : Ball * Ball :=
  let (ball_a, ball_b) := ab in
  let separation_a := n *: (ovl * inv_mass ball_a / total) in
  let separation_b := n *: (ovl * inv_mass ball_b / total) in
  (set_position (position ball_a - separation_a)%vec ball_a,
   set_position (position ball_b + separation_b)%vec ball_b).

(** The impulse assignments, inside [if vel_along_normal < 0], for a total
    inverse mass that is not zero. *)
Definition apply_impulse (restitution : R) (n : Vector2) (vel_along_normal total : R)
    (ab : Ball * Ball) : Ball * Ball :=
  let (ball_a, ball_b) := ab in
  let impulse_scalar := - (1 + restitution) * vel_along_normal in
  let impulse_scalar := impulse_scalar / total in
  let impulse_vec := n *: impulse_scalar in
  (set_velocity (velocity ball_a - impulse_vec *: inv_mass ball_a)%vec ball_a,
   set_velocity (velocity ball_b + impulse_vec *: inv_mass ball_b)%vec ball_b).

(** Total momentum and mass-weighted position of a pair. *)
Definition momentum (ab : Ball * Ball) : Vector2 :=
  (velocity (fst ab) *: mass (fst ab) + velocity (snd ab) *: mass (snd ab))%vec.

Definition weighted_centroid (ab : Ball * Ball) : Vector2 :=
  (position (fst ab) *: mass (fst ab) + position (snd ab) *: mass (snd ab))%vec.

(** A ball of finite mass, as the constructor leaves it. *)
Definition finite_mass (b : Ball) : Prop :=
  0 < mass b /\ inv_mass b = 1 / mass b.

(** A ball lies within the world bounds on all four edges. *)
Definition within_bounds (width height : R) (b : Ball) : Prop :=
  0 <= vx (position b) - radius b /\ vx (position b) + radius b <= width /\
  0 <= vy (position b) - radius b /\ vy (position b) + radius b <= height.

(** An immovable ball that stands still inside the world. *)
Definition resting (width height : R) (b : Ball) : Prop :=
  inv_mass b = 0 /\ velocity b = vzero /\ within_bounds width height b.

(** What a frame may do to a ball: radius and inverse mass stay, and a
    resting ball keeps its position and velocity. *)
Definition stays_put (width height : R) (b b' : Ball) : Prop :=
  radius b' = radius b /\ inv_mass b' = inv_mass b /\
  (resting width height b ->
   position b' = position b /\ velocity b' = velocity b).

(** The same for a list of balls, index by index. *)
Definition all_stay_put (width height : R) (balls balls' : list Ball) : Prop :=
  Forall2 (stays_put width height) balls balls'.

(** The same for the two balls of the UI simulation. *)
Definition both_stay_put (width height : R) (ab ab' : Ball * Ball) : Prop :=
  stays_put width height (fst ab) (fst ab') /\
  stays_put width height (snd ab) (snd ab').

(** [balls[i] = v] on the list of balls (no effect out of range; the loops
    only use indices in range). *)
Fixpoint list_set {A : Type} (i : nat) (v : A) (l : list A) : list A :=
  match l, i with
  | [], _ => []
  | _ :: t, O => v :: t
  | h :: t, S i' => h :: list_set i' v t
  end.

(** ** ballcollisiongemini.py *)

Module Plain.

Definition WIDTH : R := 800.
Definition HEIGHT : R := 600.
Definition GRAVITY : Vector2 := vector2 0 250.
Definition RESTITUTION : R := 0.85.
Definition FRICTION : R := 0.005.

(** [Ball.__init__]: the three checks, then the assignments. *)
Definition Ball_init (x y radius : pyobj) (color : Color) (mass : pyobj)
    (velocity acceleration : pyvec) : Ball + exn :=
  if negb (is_numeric x) || negb (is_numeric y) then inr TypeError
  else if negb (is_numeric radius) || Rleb (to_float radius) 0 then inr ValueError
  else if negb (is_numeric mass) || Rleb (to_float mass) 0 then inr ValueError
  else init_fields x y radius color mass velocity acceleration.

(** Step 1 of the physics loop: reset the acceleration, apply gravity and
    friction. *)
Definition apply_forces (ball : Ball) : Ball :=
  let ball := set_acceleration vzero ball in
  let ball := apply_force (GRAVITY *: mass ball) ball in
  if Rltb 0 (length_squared (velocity ball)) then
    let friction_force :=
      (- normalize (velocity ball))%vec *: length_squared (velocity ball) *: FRICTION in
    apply_force friction_force ball
  else ball.

(** Step 3 of the physics loop: the four walls, [RESTITUTION] as a
    parameter. *)
Definition wall_x (restitution : R) (ball : Ball) : Ball :=
  if Rltb (vx (position ball) - radius ball) 0 then
    let ball := set_position_x (radius ball) ball in
    set_velocity_x (vx (velocity ball) * - restitution) ball
  else if Rltb WIDTH (vx (position ball) + radius ball) then
    let ball := set_position_x (WIDTH - radius ball) ball in
    set_velocity_x (vx (velocity ball) * - restitution) ball
  else ball.

Definition wall_y (restitution : R) (ball : Ball) : Ball :=
  if Rltb (vy (position ball) - radius ball) 0 then
    let ball := set_position_y (radius ball) ball in
    set_velocity_y (vy (velocity ball) * - restitution) ball
  else if Rltb HEIGHT (vy (position ball) + radius ball) then
    let ball := set_position_y (HEIGHT - radius ball) ball in
    set_velocity_y (vy (velocity ball) * - restitution) ball
  else ball.

Definition handle_walls (restitution : R) (ball : Ball) : Ball :=
  wall_y restitution (wall_x restitution ball).

(** The body of the physics loop for a ball that is not dragged. *)
Definition physics_update (restitution dt : R) : Cmd Ball :=
  modify apply_forces ;; update dt ;; modify (handle_walls restitution).

(** [dist_sq < min_dist_sq and dist_sq > 1e-6] *)
Definition colliding (ball_a ball_b : Ball) : bool :=
  Rltb (dist_sq ball_a ball_b) (min_dist ball_a ball_b * min_dist ball_a ball_b)
  && Rltb 1e-6 (dist_sq ball_a ball_b).

(** The body of the pair loop.  [continue] leaves the pair as it is. *)
Definition resolve_pair (restitution : R) (ab : Ball * Ball) : Ball * Ball :=
  let (ball_a, ball_b) := ab in
  if colliding ball_a ball_b then
    let n := normal ball_a ball_b in
    let ovl := overlap ball_a ball_b in
    let total := total_inv_mass ball_a ball_b in
    if Req_dec_T total 0 then ab
    else
      let ab1 := separate n ovl total ab in
      let vel_along_normal := vel_along n (fst ab1) (snd ab1) in
      if Rltb vel_along_normal 0 then
        apply_impulse restitution n vel_along_normal total ab1
      else ab1
  else ab.

(** The physics loop over [enumerate(balls)]; [dragging] is the index of
    the dragged ball, which is skipped.  An exception stops the loop and
    leaves the remaining balls untouched. *)
Fixpoint physics_loop (restitution dt : R) (dragging : option nat) (i : nat)
    (balls : list Ball) : list Ball * option exn :=
  match balls with
  | [] => ([], None)
  | ball :: rest =>
      if match dragging with Some d => Nat.eqb d i | None => false end then
        let (rest', e) := physics_loop restitution dt dragging (S i) rest in
        (ball :: rest', e)
      else
        match physics_update restitution dt ball with
        | (ball', None) =>
            let (rest', e) := physics_loop restitution dt dragging (S i) rest in
            (ball' :: rest', e)
        | (ball', Some e) => (ball' :: rest, Some e)
        end
  end.

(** One iteration of the inner pair loop, on [balls[i]] and [balls[j]]. *)
Definition collide_at (restitution : R) (i j : nat) (balls : list Ball) : list Ball :=
  match nth_error balls i, nth_error balls j with
  | Some ball_a, Some ball_b =>
      let (ball_a', ball_b') := resolve_pair restitution (ball_a, ball_b) in
      list_set j ball_b' (list_set i ball_a' balls)
  | _, _ => balls
  end.

(** [for i in range(len(balls)): for j in range(i + 1, len(balls)): ...] *)
Definition collision_loop (restitution : R) (balls : list Ball) : list Ball :=
  let n := List.length balls in
  fold_left
    (fun bs i =>
       fold_left (fun bs' j => collide_at restitution i j bs')
         (List.seq (S i) (n - S i)) bs)
    (List.seq 0 n) balls.

(** The physics of one frame: the physics loop, then the pair loop. *)
Definition frame (restitution dt : R) (dragging : option nat) : Cmd (list Ball) :=
  (fun balls => physics_loop restitution dt dragging 0 balls) ;;
  modify (collision_loop restitution).

(** Frames run one after the other until one of them raises; each frame
    comes with its time step and the index of the ball dragged during it, if
    any. *)
Fixpoint run (restitution : R) (steps : list (R * option nat)) : Cmd (list Ball) :=
  match steps with
  | [] => ret
  | (dt, dragging) :: rest => frame restitution dt dragging ;; run restitution rest
  end.

End Plain.

(** ** ballcollisiongeminiwithui.py *)

Module WithUI.

Definition WIDTH : R := 800.
Definition HEIGHT : R := 600.
Definition GRAVITY : Vector2 := vector2 0 250.
Definition RESTITUTION : R := 1.0.
Definition FRICTION : R := 0.001.

(** [Ball.__init__]: as in the other file, except that a zero mass is let
    through. *)
Definition Ball_init (x y radius : pyobj) (color : Color) (mass : pyobj)
    (velocity acceleration : pyvec) : Ball + exn :=
  if negb (is_numeric x) || negb (is_numeric y) then inr TypeError
  else if negb (is_numeric radius) || Rleb (to_float radius) 0 then inr ValueError
  else if negb (is_numeric mass) || Rltb (to_float mass) 0 then inr ValueError
  else init_fields x y radius color mass velocity acceleration.

(** Forces of the physics loop: gravity, and friction above a speed
    threshold, here scaled by the radius. *)
Definition apply_forces (ball : Ball) : Ball :=
  let ball := set_acceleration vzero ball in
  let ball := apply_force (GRAVITY *: mass ball) ball in
  if Rltb 1e-6 (length_squared (velocity ball)) then
    let friction_force :=
      (- normalize (velocity ball))%vec *: length_squared (velocity ball)
        *: FRICTION *: radius ball in
    apply_force friction_force ball
  else ball.

(** Wall collisions: horizontal bounds first. *)
Definition wall_x (restitution : R) (ball : Ball) : Ball :=
  if Rltb (vx (position ball) - radius ball) 0 then
    let ball := set_position_x (radius ball) ball in
    set_velocity_x (vx (velocity ball) * - restitution) ball
  else if Rltb WIDTH (vx (position ball) + radius ball) then
    let ball := set_position_x (WIDTH - radius ball) ball in
    set_velocity_x (vx (velocity ball) * - restitution) ball
  else ball.

(** Vertical bounds: the top wall puts the ball one unit below the wall, the
    ground reverses the velocity only if the ball moves downwards. *)
Definition wall_y (restitution : R) (ball : Ball) : Ball :=
  if Rltb (vy (position ball) - radius ball) 0 then
    let ball := set_position_y (radius ball + 1) ball in
    set_velocity_y (vy (velocity ball) * - restitution) ball
  else if Rltb HEIGHT (vy (position ball) + radius ball) then
    let ball := set_position_y (HEIGHT - radius ball) ball in
    if Rltb 0 (vy (velocity ball)) then
      set_velocity_y (vy (velocity ball) * - restitution) ball
    else ball
  else ball.

Definition handle_walls (restitution : R) (ball : Ball) : Ball :=
  wall_y restitution (wall_x restitution ball).

Definition physics_update (restitution dt : R) : Cmd Ball :=
  modify apply_forces ;; update dt ;; modify (handle_walls restitution).

(** The state of the simulation loop: [balls = [ball1, ball2]] and the
    collision counter. *)
Record World : Type := mkWorld {
  balls : Ball * Ball;
  collision_count : nat
}.

(** A command on one of the two balls, run on the world. *)
Definition on_ball_a (c : Cmd Ball) : Cmd World :=
  fun w =>
    let (a', e) := c (fst (balls w)) in
    (mkWorld (a', snd (balls w)) (collision_count w), e).

Definition on_ball_b (c : Cmd Ball) : Cmd World :=
  fun w =>
    let (b', e) := c (snd (balls w)) in
    (mkWorld (fst (balls w), b') (collision_count w), e).

(** [0 < dist_sq < min_dist_sq] *)
Definition colliding (ball_a ball_b : Ball) : bool :=
  Rltb 0 (dist_sq ball_a ball_b)
  && Rltb (dist_sq ball_a ball_b) (min_dist ball_a ball_b * min_dist ball_a ball_b).

(** The ball-ball collision block.  The overlap is resolved only under
    [if total_inv_mass > 0]; the collision response is not under that test,
    and [impulse_scalar /= total_inv_mass] raises [ZeroDivisionError] for a
    zero divisor, after the counter was incremented. *)
Definition resolve_collision (restitution : R) : Cmd World :=
  fun w =>
    let (ball_a, ball_b) := balls w in
    if colliding ball_a ball_b then
      let n := normal ball_a ball_b in
      let ovl := overlap ball_a ball_b in
      let total := total_inv_mass ball_a ball_b in
      let ab1 :=
        if Rltb 0 total then separate n ovl total (ball_a, ball_b)
        else (ball_a, ball_b) in
      let vel_along_normal := vel_along n (fst ab1) (snd ab1) in
      if Rltb vel_along_normal 0 then
        let count := S (collision_count w) in
        if Req_dec_T total 0 then (mkWorld ab1 count, Some ZeroDivisionError)
        else
          (mkWorld (apply_impulse restitution n vel_along_normal total ab1) count, None)
      else (mkWorld ab1 (collision_count w), None)
    else (w, None).

(** The physics of one frame of the simulation loop. *)
Definition frame (restitution dt : R) : Cmd World :=
  on_ball_a (physics_update restitution dt) ;;
  on_ball_b (physics_update restitution dt) ;;
  resolve_collision restitution.

(** Frames run one after the other until one of them raises. *)
Fixpoint run (restitution : R) (dts : list R) : Cmd World :=
  match dts with
  | [] => ret
  | dt :: rest => frame restitution dt ;; run restitution rest
  end.

End WithUI.

(** The two balls left behind by the collision block, and by a run of
    frames, of the UI simulation (whether or not an exception stopped it). *)
Definition after_collision (restitution : R) (ab : Ball * Ball) (count : nat)
    : Ball * Ball :=
  WithUI.balls (fst (WithUI.resolve_collision restitution (WithUI.mkWorld ab count))).

Definition after_run (restitution : R) (dts : list R) (ab : Ball * Ball) (count : nat)
    : Ball * Ball :=
  WithUI.balls (fst (WithUI.run restitution dts (WithUI.mkWorld ab count))).

(** What frames of the UI simulation may do to its world. *)
Definition world_stays_put (w w' : WithUI.World) : Prop :=
  both_stay_put WithUI.WIDTH WithUI.HEIGHT (WithUI.balls w) (WithUI.balls w').

(** ** Further observables of the physics *)

(** Kinetic energy of a pair, [m1*|v1|^2/2 + m2*|v2|^2/2]. *)
Definition kinetic_energy (ab : Ball * Ball) : R :=
  1 / 2 * mass (fst ab) * length_squared (velocity (fst ab))
  + 1 / 2 * mass (snd ab) * length_squared (velocity (snd ab)).

(** [tangent = vector2(-normal.y, normal.x)] of the plain collision block
    (commented out in the UI one). *)
Definition tangent (n : Vector2) : Vector2 := vector2 (- vy n) (vx n).

(** The pair taken in the other order. *)
Definition swap_pair (ab : Ball * Ball) : Ball * Ball := (snd ab, fst ab).

(** Calls of [update] in a row, with nothing in between. *)
Fixpoint integrate (dts : list R) : Cmd Ball :=
  match dts with
  | [] => ret
  | dt :: rest => update dt ;; integrate rest
  end.

Definition total_time (dts : list R) : R := fold_right Rplus 0 dts.

(** The faces of a ball that the physics never assigns. *)
Definition same_body (b b' : Ball) : Prop :=
  radius b' = radius b /\ mass b' = mass b /\ inv_mass b' = inv_mass b /\
  color b' = color b.

(** ** The time step of both simulation loops

    [dt = min(clock.tick(60) / 1000.0, 0.05)], where [clock.tick] returns
    the milliseconds since the previous frame, a number that is not
    negative. *)
Definition time_step (ms : nat) : R := Rmin (INR ms / 1000) 0.05.

(** The frames of a run of the plain simulation, as the loop computes them
    from the clock. *)
Definition clocked (ticks : list (nat * option nat)) : list (R * option nat) :=
  map (fun t => (time_step (fst t), snd t)) ticks.

(** ** Sample inputs *)

Definition RED : Color := (255, 0, 0)%Z.
Definition BLUE : Color := (0, 0, 255)%Z.

(** A falling ball of mass 10. *)
Definition falling_ball : Ball :=
  mkBall (vector2 100 100) (vector2 10 0) (vector2 0 250) 25 10 (1 / 10) RED.

(** A ball left of the left wall (and above the top wall), moving back
    inward. *)
Definition returning_ball : Ball :=
  mkBall (vector2 (-5) (-5)) (vector2 3 4) vzero 10 1 1 RED.


(** A ball sunk into the ground of the UI simulation, once moving downward
    and once moving upward. *)
Definition sinking_ball : Ball :=
  mkBall (vector2 200 590) (vector2 0 30) vzero 25 10 (1 / 10) RED.

Definition rising_ball : Ball :=
  mkBall (vector2 200 590) (vector2 0 (-30)) vzero 25 10 (1 / 10) RED.

(** Two unit balls of mass 1 meeting head-on, overlapping. *)
Definition head_on_a : Ball :=
  new_ball (PyInt 0) (PyInt 0) (PyInt 1) RED (PyInt 1) (vector2 10 0) vzero.

Definition head_on_b : Ball :=
  new_ball (PyFloat 1.5) (PyInt 0) (PyInt 1) BLUE (PyInt 1) (vector2 (-10) 0) vzero.

(** Two overlapping balls that already move apart. *)
Definition parting_a : Ball :=
  new_ball (PyInt 0) (PyInt 0) (PyInt 2) RED (PyInt 1) vzero vzero.

Definition parting_b : Ball :=
  new_ball (PyInt 3) (PyInt 0) (PyInt 2) BLUE (PyInt 1) (vector2 1 0) vzero.

(** Two overlapping balls of mass 0, the first moving towards the second. *)
Definition anvil_a : Ball :=
  new_ball (PyInt 100) (PyInt 100) (PyInt 25) RED (PyInt 0) (vector2 10 0) vzero.

Definition anvil_b : Ball :=
  new_ball (PyInt 130) (PyInt 100) (PyInt 25) BLUE (PyInt 0) vzero vzero.

(** A ball of mass 0 with a velocity. *)
Definition drifting_ball : Ball :=
  new_ball (PyInt 100) (PyInt 100) (PyInt 25) RED (PyInt 0) (vector2 10 0) vzero.

(** A ball of mass 0 standing still in the middle of the world. *)
Definition pillar : Ball :=
  new_ball (PyInt 400) (PyInt 300) (PyInt 25) RED (PyInt 0) vzero vzero.

(** A ball of mass 1 lying on the ground. *)
Definition grounded_ball : Ball :=
  new_ball (PyInt 400) (PyInt 590) (PyInt 10) RED (PyInt 1) vzero vzero.

(** ** Start of the UI simulation

    The values of the six input boxes after [float(val)], as
    [parsed_values] holds them when the input screen is left, and the set-up
    of the two balls on the ground line. *)
Module Start.




End Start.




(** ** Set-up and event handling of the plain simulation *)

Module Spawn.

Definition NUM_BALLS : nat := 15.
Definition MIN_RADIUS : R := 10.
Definition MAX_RADIUS : R := 25.
Definition MAX_INITIAL_SPEED : R := 150.

Definition GREEN : Color := (0, 255, 0)%Z.
Definition YELLOW : Color := (255, 255, 0)%Z.
Definition COLORS : list Color :=
  [RED; GREEN; BLUE; YELLOW; (255, 165, 0)%Z; (128, 0, 128)%Z].

(** [random.uniform(a, b)] is [a + (b - a) * random()]; the value [u] of
    [random()] lies in [[0, 1)]. *)
Definition uniform (a b u : R) : R := a + (b - a) * u.

(** The random values that one pass of the set-up loop draws, in the order
    of the calls; [choice] is the index that [random.choice] picks. *)
Record Draws : Type := mkDraws {
  u_radius : R; u_x : R; u_y : R; choice : nat; u_vx : R; u_vy : R
}.

(** A draw that [random()] and [random.choice] can produce. *)
Definition possible (d : Draws) : Prop :=
  0 <= u_radius d < 1 /\ 0 <= u_x d < 1 /\ 0 <= u_y d < 1 /\
  (choice d < List.length COLORS)%nat /\
  0 <= u_vx d < 1 /\ 0 <= u_vy d < 1.

(** The body of [for _ in range(NUM_BALLS)]. *)
Definition spawn_ball (d : Draws) : Ball + exn :=
  let radius := uniform MIN_RADIUS MAX_RADIUS (u_radius d) in
  let x := uniform radius (Plain.WIDTH - radius) (u_x d) in
  let y := uniform radius (Plain.HEIGHT - radius) (u_y d) in
  let color := nth (choice d) COLORS RED in
  let mass := PI * radius ^ 2 in
  let vx := uniform (- MAX_INITIAL_SPEED) MAX_INITIAL_SPEED (u_vx d) in
  let vy := uniform (- MAX_INITIAL_SPEED) MAX_INITIAL_SPEED (u_vy d) in
  Plain.Ball_init (PyFloat x) (PyFloat y) (PyFloat radius) color (PyFloat mass)
    (AsVector (vector2 vx vy)) (AsVector vzero).

(** The set-up loop, one element of [draws] per pass; a construction that
    raises stops it. *)
Fixpoint spawn_balls (draws : list Draws) : list Ball + exn :=
  match draws with
  | [] => inl []
  | d :: rest =>
      match spawn_ball d with
      | inr e => inr e
      | inl ball =>
          match spawn_balls rest with
          | inr e => inr e
          | inl balls => inl (ball :: balls)
          end
      end
  end.

End Spawn.

Module Events.

Inductive key : Type :=
| K_ESCAPE
| K_OTHER.

(** The events the loop looks at; [button] is [event.button] (1 is the left
    button), [pos] is [event.pos]. *)
Inductive event : Type :=
| QUIT
| KEYDOWN (k : key)
| MOUSEBUTTONDOWN (button : nat) (pos : Vector2)
| MOUSEBUTTONUP (button : nat) (pos : Vector2)
| MOUSEMOTION (pos : Vector2)
| OTHER.

(** What can stop an iteration of the loop: the physics, or reading the
    local variable [dt] before the first frame has assigned it. *)
Inductive loop_exn : Type :=
| UnboundLocalError
| Physics (e : exn).

(** The variables of the loop.  [dragging_ball] is the index in [balls] of
    the ball the variable refers to; [dt] is [None] until the first frame
    assigns it. *)
Record Loop : Type := mkLoop {
  balls : list Ball;
  running : bool;
  dragging_ball : option nat;
  drag_offset : Vector2;
  last_mouse_pos : option Vector2;
  dt : option R
}.

(** The state before the loop starts. *)
Definition initial (bs : list Ball) : Loop :=
  mkLoop bs true None vzero None None.

(** [for ball in balls: if (mouse_pos - ball.position).length() <=
    ball.radius: ... break]: the first ball under the pointer. *)
Fixpoint find_ball (mouse_pos : Vector2) (i : nat) (bs : list Ball) : option nat :=
  match bs with
  | [] => None
  | ball :: rest =>
      if Rleb (length (mouse_pos - position ball)%vec) (radius ball) then Some i
      else find_ball mouse_pos (S i) rest
  end.

Definition on_mouse_down (mouse_pos : Vector2) (st : Loop) : Loop :=
  match find_ball mouse_pos 0 (balls st) with
  | None => st
  | Some i =>
      match nth_error (balls st) i with
      | None => st
      | Some ball =>
          mkLoop (list_set i (set_velocity vzero ball) (balls st))
            (running st) (Some i) (position ball - mouse_pos)%vec
            (Some mouse_pos) (dt st)
      end
  end.

Definition on_mouse_up (mouse_pos : Vector2) (st : Loop) : Loop * option loop_exn :=
  match dragging_ball st, last_mouse_pos st with
  | Some i, Some last =>
      match dt st with
      | None => (st, Some UnboundLocalError)
      | Some d =>
          let drag_velocity := ((mouse_pos - last) /: Rmax d 1e-6)%vec in
          let bs :=
            match nth_error (balls st) i with
            | Some ball => list_set i (set_velocity drag_velocity ball) (balls st)
            | None => balls st
            end in
          (mkLoop bs (running st) None (drag_offset st) None (dt st), None)
      end
  | _, _ =>
      (mkLoop (balls st) (running st) None (drag_offset st) None (dt st), None)
  end.

Definition on_mouse_motion (mouse_pos : Vector2) (st : Loop) : Loop :=
  match dragging_ball st with
  | Some i =>
      let bs :=
        match nth_error (balls st) i with
        | Some ball =>
            list_set i (set_position (mouse_pos + drag_offset st)%vec ball) (balls st)
        | None => balls st
        end in
      mkLoop bs (running st) (dragging_ball st) (drag_offset st)
        (Some mouse_pos) (dt st)
  | None => st
  end.

Definition stop (st : Loop) : Loop :=
  mkLoop (balls st) false (dragging_ball st) (drag_offset st)
    (last_mouse_pos st) (dt st).

(** The body of [for event in pygame.event.get()]. *)
Definition handle_event (ev : event) (st : Loop) : Loop * option loop_exn :=
  match ev with
  | QUIT => (stop st, None)
  | KEYDOWN K_ESCAPE => (stop st, None)
  | MOUSEBUTTONDOWN 1 pos => (on_mouse_down pos st, None)
  | MOUSEBUTTONUP 1 pos => on_mouse_up pos st
  | MOUSEMOTION pos => (on_mouse_motion pos st, None)
  | _ => (st, None)
  end.

Fixpoint handle_events (evs : list event) (st : Loop) : Loop * option loop_exn :=
  match evs with
  | [] => (st, None)
  | ev :: rest =>
      match handle_event ev st with
      | (st1, None) => handle_events rest st1
      | (st1, Some e) => (st1, Some e)
      end
  end.

(** One iteration of [while running]: the events, the time step from the
    clock, the physics of the frame. *)
Definition iteration (restitution : R) (evs : list event) (ms : nat) (st : Loop)
    : Loop * option loop_exn :=
  match handle_events evs st with
  | (st1, Some e) => (st1, Some e)
  | (st1, None) =>
      let d := time_step ms in
      match Plain.frame restitution d (dragging_ball st1) (balls st1) with
      | (bs, e) =>
          (mkLoop bs (running st1) (dragging_ball st1) (drag_offset st1)
             (last_mouse_pos st1) (Some d),
           match e with Some e' => Some (Physics e') | None => None end)
      end
  end.

End Events.

(** What the set-up of the plain simulation gives every ball. *)
Definition well_spawned (b : Ball) : Prop :=
  Spawn.MIN_RADIUS <= radius b <= Spawn.MAX_RADIUS /\
  within_bounds Plain.WIDTH Plain.HEIGHT b /\
  finite_mass b /\ mass b = PI * radius b ^ 2 /\
  - Spawn.MAX_INITIAL_SPEED <= vx (velocity b) <= Spawn.MAX_INITIAL_SPEED /\
  - Spawn.MAX_INITIAL_SPEED <= vy (velocity b) <= Spawn.MAX_INITIAL_SPEED /\
  acceleration b = vzero /\ In (color b) Spawn.COLORS.

(** Some draws of the random generator. *)
Definition some_draws : list Spawn.Draws :=
  [Spawn.mkDraws 0 0 0 0 0 0;
   Spawn.mkDraws 0.5 0.25 0.75 3 0.1 0.9;
   Spawn.mkDraws 0.99 0.99 0.99 5 0.99 0.99].

(** The pointer is on the disc of the ball: the test of the press. *)
Definition under_pointer (mouse_pos : Vector2) (ball : Ball) : Prop :=
  length (mouse_pos - position ball)%vec <= radius ball.

(** A press at [p], pointer motions through [path], a release at [q]. *)
Definition gesture (p : Vector2) (path : list Vector2) (q : Vector2)
    : list Events.event :=
  Events.MOUSEBUTTONDOWN 1 p :: map Events.MOUSEMOTION path
  ++ [Events.MOUSEBUTTONUP 1 q].

(** A ball is held at index [i]: the loop drags it and knows where the
    pointer was last, and its centre sits at the remembered offset from
    there. *)
Definition held (i : nat) (m : Vector2) (st : Events.Loop) : Prop :=
  Events.dragging_ball st = Some i /\ Events.last_mouse_pos st = Some m /\
  exists ball,
    nth_error (Events.balls st) i = Some ball /\
    position ball = (m + Events.drag_offset st)%vec.

(** Two states agree on every ball but the one at index [i]. *)
Definition others_untouched (i : nat) (st st' : Events.Loop) : Prop :=
  forall j, j <> i ->
    nth_error (Events.balls st') j = nth_error (Events.balls st) j.

(** A loop state after its first frame, with two balls. *)
Definition running_loop : Events.Loop :=
  Events.mkLoop [falling_ball; pillar] true None vzero None (Some 0.016).

(** [while running:] over the batches of events and clock ticks that the
    iterations receive; an exception ends it. *)
Fixpoint loop (restitution : R) (frames : list (list Events.event * nat))
    (st : Events.Loop) : Events.Loop * option Events.loop_exn :=
  match frames with
  | [] => (st, None)
  | (evs, ms) :: rest =>
      if Events.running st then
        match Events.iteration restitution evs ms st with
        | (st1, None) => loop restitution rest st1
        | (st1, Some e) => (st1, Some e)
        end
      else (st, None)
  end.

(** ** The input screen of the UI simulation

    The loop that collects the two masses and four velocity components as
    text.  Python strings are strings of bytes here, dicts are association
    lists in insertion order.  [float] and [str.isdigit] are taken as
    parameters: [pyfloat s] is [None] where [float(s)] raises [ValueError]. *)
Module UI.

Import Ascii String.
Local Open Scope string_scope.

Definition Dict (V : Type) : Type := list (string * V).

(** [d[k]], [None] standing for [KeyError]. *)
Fixpoint dict_get {V : Type} (d : Dict V) (k : string) : option V :=
  match d with
  | [] => None
  | (k', v) :: rest => if String.eqb k' k then Some v else dict_get rest k
  end.

(** [d[k] = v]: the value is replaced in place, a new key goes last. *)
Fixpoint dict_set {V : Type} (d : Dict V) (k : string) (v : V) : Dict V :=
  match d with
  | [] => [(k, v)]
  | (k', v') :: rest =>
      if String.eqb k' k then (k', v) :: rest else (k', v') :: dict_set rest k v
  end.

(** [pygame.Rect] and [collidepoint]: the right and bottom edges are not
    inside. *)
Record Rect : Type := mkRect { left : Z; top : Z; width : Z; height : Z }.

Definition collidepoint (r : Rect) (pos : Z * Z) : bool :=
  ((left r <=? fst pos) && (fst pos <? left r + width r)
   && (top r <=? snd pos) && (snd pos <? top r + height r))%Z.

Definition WIDTH : Z := 800.
Definition HEIGHT : Z := 600.
Definition input_width : Z := 100.
Definition input_height : Z := 30.
Definition padding : Z := 10.
Definition start_y_ui : Z := 100.
Definition col2_x : Z := 200.
Definition col4_x : Z := 600.

Definition input_rects : Dict Rect :=
  [("mass1", mkRect col2_x start_y_ui input_width input_height);
   ("vel1x", mkRect col2_x (start_y_ui + input_height + padding) input_width input_height);
   ("vel1y", mkRect col2_x (start_y_ui + 2 * (input_height + padding)) input_width input_height);
   ("mass2", mkRect col4_x start_y_ui input_width input_height);
   ("vel2x", mkRect col4_x (start_y_ui + input_height + padding) input_width input_height);
   ("vel2y", mkRect col4_x (start_y_ui + 2 * (input_height + padding)) input_width input_height)]%Z.

Definition input_keys_ordered : list string :=
  ["mass1"; "vel1x"; "vel1y"; "mass2"; "vel2x"; "vel2y"].

Definition button_width : Z := 200.
Definition button_height : Z := 50.

Definition start_button_rect : Rect :=
  mkRect ((WIDTH - button_width) / 2) (HEIGHT - button_height - 50)
    button_width button_height.

Inductive key : Type :=
| K_BACKSPACE
| K_RETURN
| K_KP_ENTER
| K_TAB
| K_ESCAPE
| K_OTHER.

(** [shift] is [pygame.key.get_mods() & pygame.KMOD_SHIFT] at the time of
    the event. *)
Inductive event : Type :=
| QUIT
| MOUSEBUTTONDOWN (button : nat) (pos : Z * Z)
| KEYDOWN (k : key) (unicode : string) (shift : bool)
| OTHER.

(** [sys.exit()], and a missing key of a dict. *)
Inductive ui_exn : Type :=
| SystemExit
| KeyError.

Record State : Type := mkState {
  ui_active : bool;
  input_values : Dict string;
  active_input_key : option string;
  error_message : string;
  parsed_values : option (Dict R)
}.

Definition initial : State :=
  mkState true
    [("mass1", "10"); ("vel1x", "80"); ("vel1y", "-150");
     ("mass2", "20"); ("vel2x", "-60"); ("vel2y", "-100")]
    None "" None.

Definition invalid_input : string :=
  "Invalid input. Please enter numbers (mass > 0).".

(** [s[:-1]] *)
Fixpoint drop_last (s : string) : string :=
  match s with
  | EmptyString => EmptyString
  | String c EmptyString => EmptyString
  | String c rest => String c (drop_last rest)
  end.

(** [c in s] for a single character. *)
Fixpoint contains (c : ascii) (s : string) : bool :=
  match s with
  | EmptyString => false
  | String c' rest => Ascii.eqb c' c || contains c rest
  end.

(** [l.index(k)], [None] standing for [ValueError]. *)
Fixpoint index_of (k : string) (l : list string) : option nat :=
  match l with
  | [] => None
  | k' :: rest =>
      if String.eqb k' k then Some 0%nat
      else match index_of k rest with
           | Some i => Some (S i)
           | None => None
           end
  end.

Section Handlers.

Variable pyfloat : string -> option R.
Variable isdigit : string -> bool.

(** [{key: float(val) for key, val in input_values.items()}], [None] when a
    [float] raises. *)
Fixpoint parse_items (items : Dict string) (acc : Dict R) : option (Dict R) :=
  match items with
  | [] => Some acc
  | (k, v) :: rest =>
      match pyfloat v with
      | None => None
      | Some x => parse_items rest (dict_set acc k x)
      end
  end.

(** The [except ValueError] branch; the click on the button also drops the
    active box. *)
Definition start_failed (from_click : bool) (st : State) : State :=
  mkState (ui_active st) (input_values st)
    (if from_click then None else active_input_key st)
    invalid_input (parsed_values st).

(** The [try] block behind the start button and behind the return key. *)
Definition try_start (from_click : bool) (st : State) : State * option ui_exn :=
  match parse_items (input_values st) [] with
  | None => (start_failed from_click st, None)
  | Some parsed =>
      let st1 :=
        mkState (ui_active st) (input_values st) (active_input_key st)
          (error_message st) (Some parsed) in
      match dict_get parsed "mass1" with
      | None => (st1, Some KeyError)
      | Some m1 =>
          if Rleb m1 0 then (start_failed from_click st1, None)
          else
            match dict_get parsed "mass2" with
            | None => (st1, Some KeyError)
            | Some m2 =>
                if Rleb m2 0 then (start_failed from_click st1, None)
                else
                  (mkState false (input_values st1) (active_input_key st1) ""
                     (parsed_values st1), None)
            end
      end
  end.

(** [for key, rect in input_rects.items(): if rect.collidepoint(pos): ...
    break] *)
Fixpoint clicked_key (pos : Z * Z) (rects : Dict Rect) : option string :=
  match rects with
  | [] => None
  | (k, r) :: rest => if collidepoint r pos then Some k else clicked_key pos rest
  end.

Definition on_click (pos : Z * Z) (st : State) : State * option ui_exn :=
  if collidepoint start_button_rect pos then try_start true st
  else
    (mkState (ui_active st) (input_values st) (clicked_key pos input_rects) ""
       (parsed_values st), None).

Definition set_active (k : option string) (st : State) : State :=
  mkState (ui_active st) (input_values st) k (error_message st) (parsed_values st).

Definition set_value (k v : string) (st : State) : State :=
  mkState (ui_active st) (dict_set (input_values st) k v) (active_input_key st)
    (error_message st) (parsed_values st).

(** The tab key: the next box, the previous one with shift. *)
Definition next_key (active : string) (shift : bool) : string :=
  match index_of active input_keys_ordered with
  | Some current_index =>
      let next_index :=
        ((Z.of_nat current_index + (if negb shift then 1 else -1))
         mod Z.of_nat (List.length input_keys_ordered))%Z in
      nth (Z.to_nat next_index) input_keys_ordered "mass1"
  | None => nth 0 input_keys_ordered "mass1"
  end.

(** A key pressed while the box [active] is active. *)
Definition on_key_active (active : string) (k : key) (unicode : string)
    (shift : bool) (st : State) : State * option ui_exn :=
  match k with
  | K_BACKSPACE =>
      match dict_get (input_values st) active with
      | None => (st, Some KeyError)
      | Some v => (set_value active (drop_last v) st, None)
      end
  | K_RETURN | K_KP_ENTER => (set_active None st, None)
  | K_TAB => (set_active (Some (next_key active shift)) st, None)
  | _ =>
      match dict_get (input_values st) active with
      | None => (st, Some KeyError)
      | Some current_val =>
          let is_negative_ok :=
            String.eqb unicode "-" && String.eqb current_val "" in
          let is_decimal_ok :=
            String.eqb unicode "." && negb (contains "." current_val) in
          if isdigit unicode || is_negative_ok || is_decimal_ok then
            (set_value active (current_val ++ unicode) st, None)
          else (st, None)
      end
  end.

(** [if active_input_key:] is false for [None] and for the empty string. *)
Definition truthy (k : option string) : option string :=
  match k with
  | Some "" => None
  | other => other
  end.

(** The body of [for event in pygame.event.get()]. *)
Definition handle_event (ev : event) (st : State) : State * option ui_exn :=
  match ev with
  | QUIT => (st, Some SystemExit)
  | MOUSEBUTTONDOWN 1 pos => on_click pos st
  | KEYDOWN k unicode shift =>
      match truthy (active_input_key st) with
      | Some active => on_key_active active k unicode shift st
      | None =>
          match k with
          | K_RETURN | K_KP_ENTER => try_start false st
          | K_ESCAPE => (st, Some SystemExit)
          | _ => (st, None)
          end
      end
  | _ => (st, None)
  end.

Fixpoint handle_events (evs : list event) (st : State) : State * option ui_exn :=
  match evs with
  | [] => (st, None)
  | ev :: rest =>
      match handle_event ev st with
      | (st1, None) => handle_events rest st1
      | (st1, Some e) => (st1, Some e)
      end
  end.

End Handlers.

(** [str.isdigit] on strings of ASCII characters: not empty, digits only. *)
Definition is_ascii_digit (c : ascii) : bool :=
  (48 <=? nat_of_ascii c)%nat && (nat_of_ascii c <=? 57)%nat.

Fixpoint all_digits (s : string) : bool :=
  match s with
  | EmptyString => true
  | String c rest => is_ascii_digit c && all_digits rest
  end.

Definition ascii_isdigit (s : string) : bool :=
  negb (String.eqb s "") && all_digits s.

(** The text of a box reads as the beginning of a signed decimal number: a
    minus sign only in front, at most one point. *)
Fixpoint count (c : ascii) (s : string) : nat :=
  match s with
  | EmptyString => 0
  | String c' rest => (if Ascii.eqb c' c then 1 else 0) + count c rest
  end.

Definition numeric_text (s : string) : Prop :=
  (count "." s <= 1)%nat /\
  match s with
  | EmptyString => True
  | String _ rest => contains "-" rest = false
  end.

(** A digit string, as [isdigit] sees it, has no sign and no point in it. *)
Definition plain_digits (isdigit : string -> bool) : Prop :=
  forall s, isdigit s = true -> contains "-" s = false /\ contains "." s = false.

(** The invariant of the input screen. *)
Definition consistent (st : State) : Prop :=
  map fst (input_values st) = input_keys_ordered /\
  (forall k, active_input_key st = Some k -> In k input_keys_ordered) /\
  Forall (fun kv => numeric_text (snd kv)) (input_values st).

End UI.

(** Observations and sample states of the input screen. *)
Module UIData.

Import Ascii String.
Local Open Scope string_scope.

(** The numbers [parsed] are what [pyfloat] reads from the texts [items],
    key by key. *)
Definition parsed_as (pyfloat : string -> option R)
    (items : UI.Dict string) (parsed : UI.Dict R) : Prop :=
  Forall2 (fun kv kx => fst kx = fst kv /\ pyfloat (snd kv) = Some (snd kx))
    items parsed.

(** The input screen with the box of the first mass active. *)
Definition editing_mass1 : UI.State :=
  UI.set_active (Some "mass1") UI.initial.

(** The input screen already left by an accepted attempt on the default
    texts, the first mass since retyped as [-150]. *)
Definition left_and_retyped : UI.State :=
  UI.mkState false
    [("mass1", "-150"); ("vel1x", "80"); ("vel1y", "-150");
     ("mass2", "20"); ("vel2x", "-60"); ("vel2y", "-100")]
    None ""
    (Some [("mass1", 10); ("vel1x", 80); ("vel1y", -150);
           ("mass2", 20); ("vel2x", -60); ("vel2y", -100)]).

(** A reader of the six default texts (and of nothing else). *)
Definition default_float (s : string) : option R :=
  if String.eqb s "10" then Some 10
  else if String.eqb s "80" then Some 80
  else if String.eqb s "-150" then Some (-150)
  else if String.eqb s "20" then Some 20
  else if String.eqb s "-60" then Some (-60)
  else if String.eqb s "-100" then Some (-100)
  else None.

End UIData.

(** * Properties *)

(** ** Reading the tests of the source *)

Lemma Rltb_true (x y : R) : Rltb x y = true <-> x < y.
Proof. unfold Rltb. destruct (Rlt_dec x y); split; intros; auto; discriminate. Qed.

Lemma Rltb_false (x y : R) : Rltb x y = false <-> y <= x.
Proof.
  unfold Rltb. destruct (Rlt_dec x y); split; intros; auto; try discriminate; lra.
Qed.

Lemma Rleb_true (x y : R) : Rleb x y = true <-> x <= y.
Proof. unfold Rleb. destruct (Rle_dec x y); split; intros; auto; discriminate. Qed.

Lemma Rleb_false (x y : R) : Rleb x y = false <-> y < x.
Proof.
  unfold Rleb. destruct (Rle_dec x y); split; intros; auto; try discriminate; lra.
Qed.

(** Case analysis on the next comparison of the goal, keeping the fact it
    decides. *)
Ltac case_cmp :=
  match goal with
  | |- context [Rltb ?x ?y] =>
      let H := fresh "Hcmp" in
      destruct (Rltb x y) eqn:H;
      [apply Rltb_true in H | apply Rltb_false in H]
  | |- context [Rleb ?x ?y] =>
      let H := fresh "Hcmp" in
      destruct (Rleb x y) eqn:H;
      [apply Rleb_true in H | apply Rleb_false in H]
  end.

Lemma vec_eq (u v : Vector2) : vx u = vx v -> vy u = vy v -> u = v.
Proof. destruct u, v; simpl; intros -> ->; reflexivity. Qed.

(** ** Integration *)

(** C4. [update] rejects a negative [dt] with [ValueError] and leaves the
    ball as it was; for [dt >= 0] it completes, the new velocity is
    [velocity + acceleration * dt], the new position is
    [position + (new velocity) * dt], and acceleration (like radius and
    masses) is unchanged. *)
Theorem update_semi_implicit_euler (b : Ball) (dt : R) :
  (dt < 0 -> update dt b = (b, Some ValueError)) /\
  (0 <= dt ->
   exists b',
     update dt b = (b', None) /\
     velocity b' = (velocity b + acceleration b *: dt)%vec /\
     position b' = (position b + velocity b' *: dt)%vec /\
     acceleration b' = acceleration b /\
     radius b' = radius b /\ mass b' = mass b /\ inv_mass b' = inv_mass b).
Proof.
  unfold update, raise. split; intros Hdt.
  - destruct (Rlt_dec dt 0) as [_ | Hge]; [reflexivity | lra].
  - destruct (Rlt_dec dt 0) as [Hlt | _]; [lra |].
    eexists. split; [reflexivity |]. simpl. repeat split; reflexivity.
Qed.

(** The falling ball, half a second backward and half a second forward. *)
Lemma update_semi_implicit_euler_witness :
  update (-0.5) falling_ball = (falling_ball, Some ValueError) /\
  exists b',
    update 0.5 falling_ball = (b', None) /\
    velocity b' = (velocity falling_ball + acceleration falling_ball *: 0.5)%vec /\
    position b' = (position falling_ball + velocity b' *: 0.5)%vec /\
    acceleration b' = acceleration falling_ball /\
    radius b' = radius falling_ball /\ mass b' = mass falling_ball /\
    inv_mass b' = inv_mass falling_ball.
Proof.
  split.
  - apply (update_semi_implicit_euler falling_ball (-0.5)). lra.
  - apply (update_semi_implicit_euler falling_ball 0.5). lra.
Defined.

(** ** Construction *)

Lemma init_fields_ok x y r c m v a :
  fits_double x = true -> fits_double y = true ->
  fits_double r = true -> fits_double m = true ->
  init_fields x y r c m (AsVector v) (AsVector a) = inl (new_ball x y r c m v a).
Proof.
  intros Hx Hy Hr Hm. unfold init_fields. rewrite Hx, Hy, Hr, Hm. reflexivity.
Qed.

Lemma init_fields_fails_iff x y r c m v a :
  (exists e, init_fields x y r c m v a = inr e) <->
  (fits_double x = false \/ fits_double y = false \/
   fits_double r = false \/ fits_double m = false) \/
  (v = NoVector \/ a = NoVector).
Proof.
  unfold init_fields.
  destruct (fits_double x), (fits_double y), (fits_double r), (fits_double m),
    v as [v' |], a as [a' |]; simpl;
    (split;
     [intros [e He]; try discriminate He; auto 7
     | intros Hbad; try (eexists; reflexivity);
       exfalso; intuition discriminate]).
Qed.

Lemma init_fields_built x y r c m v a b :
  init_fields x y r c m v a = inl b ->
  exists v' a',
    v = AsVector v' /\ a = AsVector a' /\ b = new_ball x y r c m v' a'.
Proof.
  unfold init_fields.
  destruct (fits_double x), (fits_double y), (fits_double r), (fits_double m),
    v as [v' |], a as [a' |]; simpl; try discriminate.
  intros H. inversion H. exists v', a'. auto.
Qed.

(** A number that is zero is within the range of a double. *)
Lemma zero_fits_double (m : pyobj) : to_float m = 0 -> fits_double m = true.
Proof.
  destruct m as [n | x |]; simpl; try reflexivity.
  intros H. apply eq_IZR_R0 in H. subst n. reflexivity.
Qed.

Lemma WithUI_Ball_init_fails_iff x y r c m v a :
  (exists e, WithUI.Ball_init x y r c m v a = inr e) <->
  (is_numeric x = false \/ is_numeric y = false) \/
  (is_numeric r = false \/ to_float r <= 0) \/
  (is_numeric m = false \/ to_float m < 0) \/
  (fits_double x = false \/ fits_double y = false \/
   fits_double r = false \/ fits_double m = false) \/
  (v = NoVector \/ a = NoVector).
Proof.
  unfold WithUI.Ball_init.
  destruct (is_numeric x), (is_numeric y), (is_numeric r), (is_numeric m); simpl;
    repeat case_cmp;
    try (split; [intros _; auto 6 | intros _; eexists; reflexivity]).
  rewrite init_fields_fails_iff.
  split; [intros H; auto 6 |].
  intros [[H | H] | [[H | H] | [[H | H] | H]]];
    try discriminate H; try lra; exact H.
Qed.

Lemma Plain_Ball_init_fails_iff x y r c m v a :
  (exists e, Plain.Ball_init x y r c m v a = inr e) <->
  (is_numeric x = false \/ is_numeric y = false) \/
  (is_numeric r = false \/ to_float r <= 0) \/
  (is_numeric m = false \/ to_float m <= 0) \/
  (fits_double x = false \/ fits_double y = false \/
   fits_double r = false \/ fits_double m = false) \/
  (v = NoVector \/ a = NoVector).
Proof.
  unfold Plain.Ball_init.
  destruct (is_numeric x), (is_numeric y), (is_numeric r), (is_numeric m); simpl;
    repeat case_cmp;
    try (split; [intros _; auto 6 | intros _; eexists; reflexivity]).
  rewrite init_fields_fails_iff.
  split; [intros H; auto 6 |].
  intros [[H | H] | [[H | H] | [[H | H] | H]]];
    try discriminate H; try lra; exact H.
Qed.

Lemma WithUI_Ball_init_ok x y r c m v a :
  is_numeric x = true -> is_numeric y = true ->
  is_numeric r = true -> 0 < to_float r ->
  is_numeric m = true -> 0 <= to_float m ->
  fits_double x = true -> fits_double y = true ->
  fits_double r = true -> fits_double m = true ->
  WithUI.Ball_init x y r c m (AsVector v) (AsVector a)
  = inl (new_ball x y r c m v a).
Proof.
  intros Hx Hy Hr Hr0 Hm Hm0 Fx Fy Fr Fm. unfold WithUI.Ball_init.
  rewrite Hx, Hy, Hr, Hm. simpl.
  apply Rleb_false in Hr0. rewrite Hr0.
  apply Rltb_false in Hm0. rewrite Hm0.
  apply init_fields_ok; assumption.
Qed.

Lemma inverse_of_mass_zero : inverse_of_mass 0 = 0.
Proof. unfold inverse_of_mass. destruct (Rlt_dec 0 0); [lra | reflexivity]. Qed.

Lemma inverse_of_mass_pos (m : R) : 0 < m -> inverse_of_mass m = 1 / m.
Proof. intros Hm. unfold inverse_of_mass. destruct (Rlt_dec 0 m); [reflexivity | lra]. Qed.

(** C8, as the spec has it, fails on the class of [ballcollisiongemini.py]:
    there a construction with mass 0 raises [ValueError]. *)
Lemma Plain_Ball_init_rejects_zero_mass :
  Plain.Ball_init (PyInt 100) (PyInt 100) (PyInt 25) RED (PyInt 0)
    (AsVector vzero) (AsVector vzero)
  = inr ValueError.
Proof.
  unfold Plain.Ball_init. simpl.
  assert (H1 : Rleb 25 0 = false) by (apply Rleb_false; lra).
  assert (H2 : Rleb 0 0 = true) by (apply Rleb_true; lra).
  rewrite H1, H2. reflexivity.
Qed.

(** C8, amended.  Construction fails exactly when a position coordinate is
    not numeric, the radius is not numeric or [<= 0], the mass is not
    numeric or negative (class of [ballcollisiongeminiwithui.py]),
    respectively not numeric or [<= 0] (class of [ballcollisiongemini.py]),
    or one of the conversions after the checks raises: a coordinate, the
    radius or the mass is an [int] beyond the range of a double, or the
    velocity or the acceleration is nothing that [vector2] takes.  With mass
    0 and otherwise valid arguments the construction of the former class
    succeeds and gives [inv_mass = 0]. *)
Theorem Ball_init_failure_conditions x y r c m v a :
  ((exists e, WithUI.Ball_init x y r c m v a = inr e) <->
   (is_numeric x = false \/ is_numeric y = false) \/
   (is_numeric r = false \/ to_float r <= 0) \/
   (is_numeric m = false \/ to_float m < 0) \/
   (fits_double x = false \/ fits_double y = false \/
    fits_double r = false \/ fits_double m = false) \/
   (v = NoVector \/ a = NoVector)) /\
  ((exists e, Plain.Ball_init x y r c m v a = inr e) <->
   (is_numeric x = false \/ is_numeric y = false) \/
   (is_numeric r = false \/ to_float r <= 0) \/
   (is_numeric m = false \/ to_float m <= 0) \/
   (fits_double x = false \/ fits_double y = false \/
    fits_double r = false \/ fits_double m = false) \/
   (v = NoVector \/ a = NoVector)) /\
  (is_numeric x = true -> is_numeric y = true ->
   fits_double x = true -> fits_double y = true ->
   is_numeric r = true -> 0 < to_float r -> fits_double r = true ->
   is_numeric m = true -> to_float m = 0 ->
   v <> NoVector -> a <> NoVector ->
   exists b,
     WithUI.Ball_init x y r c m v a = inl b /\ mass b = 0 /\ inv_mass b = 0).
Proof.
  split; [apply WithUI_Ball_init_fails_iff |].
  split; [apply Plain_Ball_init_fails_iff |].
  intros Hx Hy Fx Fy Hr Hr0 Fr Hm Hm0 Hv Ha.
  destruct v as [v' |]; [| destruct (Hv eq_refl)].
  destruct a as [a' |]; [| destruct (Ha eq_refl)].
  exists (new_ball x y r c m v' a'). split.
  - apply WithUI_Ball_init_ok; auto; [lra | apply zero_fits_double; exact Hm0].
  - simpl. rewrite Hm0. split; [reflexivity | apply inverse_of_mass_zero].
Qed.

(** A negative mass and, in the plain simulation, a zero mass are rejected;
    so is a radius that is an [int] of 401 digits, which passes the three
    checks and fails in [float(radius)]; the constructor of the UI
    simulation builds an immovable ball from a zero mass. *)
Lemma Ball_init_failure_conditions_witness :
  (exists e,
     WithUI.Ball_init (PyInt 100) (PyInt 100) (PyInt 25) RED (PyFloat (-1))
       (AsVector vzero) (AsVector vzero)
     = inr e) /\
  (exists e,
     Plain.Ball_init (PyInt 100) (PyInt 100) (PyInt 25) RED (PyInt 0)
       (AsVector vzero) (AsVector vzero)
     = inr e) /\
  (exists e,
     Plain.Ball_init (PyInt 100) (PyInt 100) (PyInt (10 ^ 400)) RED (PyInt 1)
       (AsVector vzero) (AsVector vzero)
     = inr e) /\
  (exists b,
     WithUI.Ball_init (PyInt 100) (PyInt 100) (PyInt 25) RED (PyInt 0)
       (AsVector vzero) (AsVector vzero)
     = inl b /\ mass b = 0 /\ inv_mass b = 0).
Proof.
  split; [| split; [| split]].
  - apply (Ball_init_failure_conditions
             (PyInt 100) (PyInt 100) (PyInt 25) RED (PyFloat (-1))
             (AsVector vzero) (AsVector vzero)).
    right. right. left. right. simpl. lra.
  - apply (Ball_init_failure_conditions
             (PyInt 100) (PyInt 100) (PyInt 25) RED (PyInt 0)
             (AsVector vzero) (AsVector vzero)).
    right. right. left. right. simpl. lra.
  - apply (Ball_init_failure_conditions
             (PyInt 100) (PyInt 100) (PyInt (10 ^ 400)) RED (PyInt 1)
             (AsVector vzero) (AsVector vzero)).
    right. right. right. left. right. right. left. vm_compute. reflexivity.
  - apply (Ball_init_failure_conditions
             (PyInt 100) (PyInt 100) (PyInt 25) RED (PyInt 0)
             (AsVector vzero) (AsVector vzero));
      try (vm_compute; reflexivity); try discriminate; simpl; lra.
Defined.

(** What a constructed ball satisfies: a positive radius, a mass that is not
    negative and the inverse mass that goes with it, which is never
    negative.  Nothing in either file assigns [radius], [mass] or
    [inv_mass] afterwards. *)
Lemma WithUI_Ball_init_invariant x y r c m v a b :
  WithUI.Ball_init x y r c m v a = inl b ->
  0 < radius b /\ 0 <= mass b /\ 0 <= inv_mass b /\
  (0 < mass b -> finite_mass b) /\ (mass b = 0 -> inv_mass b = 0).
Proof.
  unfold WithUI.Ball_init.
  destruct (negb (is_numeric x) || negb (is_numeric y)); [discriminate |].
  destruct (negb (is_numeric r)); simpl; [discriminate |].
  destruct (Rleb (to_float r) 0) eqn:Hr; [discriminate |].
  apply Rleb_false in Hr.
  destruct (negb (is_numeric m)); simpl; [discriminate |].
  destruct (Rltb (to_float m) 0) eqn:Hm; [discriminate |].
  apply Rltb_false in Hm.
  intros H. apply init_fields_built in H as (v' & a' & _ & _ & ->). simpl.
  split; [lra |]. split; [lra |].
  unfold finite_mass. simpl. unfold inverse_of_mass.
  destruct (Rlt_dec 0 (to_float m)) as [Hpos | Hnot].
  - assert (0 < 1 / to_float m) by (apply Rdiv_lt_0_compat; lra).
    repeat split; try lra.
  - repeat split; lra.
Qed.

Lemma Plain_Ball_init_invariant x y r c m v a b :
  Plain.Ball_init x y r c m v a = inl b ->
  0 < radius b /\ finite_mass b.
Proof.
  unfold Plain.Ball_init.
  destruct (negb (is_numeric x) || negb (is_numeric y)); [discriminate |].
  destruct (negb (is_numeric r)); simpl; [discriminate |].
  destruct (Rleb (to_float r) 0) eqn:Hr; [discriminate |].
  apply Rleb_false in Hr.
  destruct (negb (is_numeric m)); simpl; [discriminate |].
  destruct (Rleb (to_float m) 0) eqn:Hm; [discriminate |].
  apply Rleb_false in Hm.
  intros H. apply init_fields_built in H as (v' & a' & _ & _ & ->). simpl.
  split; [lra |].
  unfold finite_mass. simpl. rewrite inverse_of_mass_pos by lra. split; [lra | reflexivity].
Qed.

(** ** Walls *)

(** Decides the comparisons left in a goal about concrete numbers. *)
Ltac decide_cmps :=
  repeat match goal with
    | |- context [Rltb ?x ?y] =>
        first [ replace (Rltb x y) with true by (symmetry; apply Rltb_true; lra)
              | replace (Rltb x y) with false by (symmetry; apply Rltb_false; lra) ]
    | |- context [Rleb ?x ?y] =>
        first [ replace (Rleb x y) with true by (symmetry; apply Rleb_true; lra)
              | replace (Rleb x y) with false by (symmetry; apply Rleb_false; lra) ]
    end.

(** Evaluates the record and vector operations, leaving the numbers. *)
Ltac eval_balls :=
  cbv [new_ball set_acceleration set_velocity set_position
       set_position_x set_position_y set_velocity_x set_velocity_y
       position velocity acceleration radius mass inv_mass color
       vx vy vadd vsub vscale vdiv vneg vzero to_float
       length_squared dot apply_force].

Lemma Plain_wall_x_frame (e : R) (b : Ball) :
  vy (position (Plain.wall_x e b)) = vy (position b) /\
  vy (velocity (Plain.wall_x e b)) = vy (velocity b) /\
  radius (Plain.wall_x e b) = radius b /\
  inv_mass (Plain.wall_x e b) = inv_mass b /\
  mass (Plain.wall_x e b) = mass b.
Proof. unfold Plain.wall_x. repeat case_cmp; simpl; auto. Qed.

Lemma Plain_wall_y_frame (e : R) (b : Ball) :
  vx (position (Plain.wall_y e b)) = vx (position b) /\
  vx (velocity (Plain.wall_y e b)) = vx (velocity b) /\
  radius (Plain.wall_y e b) = radius b /\
  inv_mass (Plain.wall_y e b) = inv_mass b /\
  mass (Plain.wall_y e b) = mass b.
Proof. unfold Plain.wall_y. repeat case_cmp; simpl; auto. Qed.

Lemma WithUI_wall_x_frame (e : R) (b : Ball) :
  vy (position (WithUI.wall_x e b)) = vy (position b) /\
  vy (velocity (WithUI.wall_x e b)) = vy (velocity b) /\
  radius (WithUI.wall_x e b) = radius b /\
  inv_mass (WithUI.wall_x e b) = inv_mass b /\
  mass (WithUI.wall_x e b) = mass b.
Proof. unfold WithUI.wall_x. repeat case_cmp; simpl; auto. Qed.

Lemma WithUI_wall_y_frame (e : R) (b : Ball) :
  vx (position (WithUI.wall_y e b)) = vx (position b) /\
  vx (velocity (WithUI.wall_y e b)) = vx (velocity b) /\
  radius (WithUI.wall_y e b) = radius b /\
  inv_mass (WithUI.wall_y e b) = inv_mass b /\
  mass (WithUI.wall_y e b) = mass b.
Proof. unfold WithUI.wall_y. repeat case_cmp; simpl; auto. Qed.

(** Unfolds the wall handling and splits on every test of it. *)
Ltac walls :=
  unfold Plain.handle_walls, WithUI.handle_walls,
    Plain.wall_y, Plain.wall_x, WithUI.wall_y, WithUI.wall_x;
  repeat (case_cmp; simpl in *; try lra).

(** C5, as the spec has it, fails: the ball [returning_ball] is clamped at
    the left wall while its horizontal velocity already points inward, and
    that velocity is reversed all the same. *)
Lemma inward_velocity_is_reflected :
  vx (position returning_ball) - radius returning_ball < 0 /\
  0 < vx (velocity returning_ball) /\
  vx (position (Plain.handle_walls Plain.RESTITUTION returning_ball))
  = radius returning_ball /\
  vx (velocity (Plain.handle_walls Plain.RESTITUTION returning_ball))
  <> vx (velocity returning_ball).
Proof.
  unfold Plain.handle_walls, Plain.wall_y, Plain.wall_x, Plain.RESTITUTION,
    returning_ball.
  simpl. decide_cmps. simpl. decide_cmps. simpl.
  repeat split; lra.
Qed.

(** C5, amended.  Whenever a ball is clamped against a wall, its velocity
    component on that axis is multiplied by [- restitution] whatever its
    direction; the one exception is the ground of the UI simulation, where
    the component is reversed only if it points downward and is kept
    otherwise. *)
Theorem wall_reflection (e : R) (b : Ball) :
  (* ballcollisiongemini.py *)
  (vx (position b) - radius b < 0 \/ Plain.WIDTH < vx (position b) + radius b ->
   vx (velocity (Plain.handle_walls e b)) = vx (velocity b) * - e) /\
  (vy (position b) - radius b < 0 \/ Plain.HEIGHT < vy (position b) + radius b ->
   vy (velocity (Plain.handle_walls e b)) = vy (velocity b) * - e) /\
  (* ballcollisiongeminiwithui.py *)
  (vx (position b) - radius b < 0 \/ WithUI.WIDTH < vx (position b) + radius b ->
   vx (velocity (WithUI.handle_walls e b)) = vx (velocity b) * - e) /\
  (vy (position b) - radius b < 0 ->
   vy (velocity (WithUI.handle_walls e b)) = vy (velocity b) * - e) /\
  (0 <= vy (position b) - radius b ->
   WithUI.HEIGHT < vy (position b) + radius b ->
   0 < vy (velocity b) ->
   vy (velocity (WithUI.handle_walls e b)) = vy (velocity b) * - e) /\
  (0 <= vy (position b) - radius b ->
   WithUI.HEIGHT < vy (position b) + radius b ->
   vy (velocity b) <= 0 ->
   vy (velocity (WithUI.handle_walls e b)) = vy (velocity b)).
Proof.
  repeat split.
  - intros H. walls.
  - intros H. walls.
  - intros H. walls.
  - intros H. walls.
  - intros H1 H2 H3. walls.
  - intros H1 H2 H3. walls.
Qed.

(** The returning ball at the left and top walls of both simulations; the
    sinking and the rising ball at the ground of the UI simulation. *)
Lemma wall_reflection_witness :
  (vx (velocity (Plain.handle_walls 0.85 returning_ball)) = 3 * - (0.85) /\
   vy (velocity (Plain.handle_walls 0.85 returning_ball)) = 4 * - (0.85) /\
   vx (velocity (WithUI.handle_walls 0.85 returning_ball)) = 3 * - (0.85) /\
   vy (velocity (WithUI.handle_walls 0.85 returning_ball)) = 4 * - (0.85)) /\
  vy (velocity (WithUI.handle_walls 1 sinking_ball)) = 30 * - (1) /\
  vy (velocity (WithUI.handle_walls 1 rising_ball)) = - 30.
Proof.
  destruct (wall_reflection 0.85 returning_ball) as (H1 & H2 & H3 & H4 & _).
  destruct (wall_reflection 1 sinking_ball) as (_ & _ & _ & _ & H5 & _).
  destruct (wall_reflection 1 rising_ball) as (_ & _ & _ & _ & _ & H6).
  unfold Plain.WIDTH, Plain.HEIGHT, WithUI.WIDTH, WithUI.HEIGHT in *.
  simpl in *.
  repeat split;
    [apply H1 | apply H2 | apply H3 | apply H4 | apply H5 | apply H6]; lra.
Defined.




(** ** Separation and impulse *)

Lemma separate_frame n ovl total a b :
  let ab1 := separate n ovl total (a, b) in
  velocity (fst ab1) = velocity a /\ velocity (snd ab1) = velocity b /\
  radius (fst ab1) = radius a /\ radius (snd ab1) = radius b /\
  mass (fst ab1) = mass a /\ mass (snd ab1) = mass b /\
  inv_mass (fst ab1) = inv_mass a /\ inv_mass (snd ab1) = inv_mass b.
Proof. simpl. repeat split. Qed.

Lemma apply_impulse_frame e n v total a b :
  let ab2 := apply_impulse e n v total (a, b) in
  position (fst ab2) = position a /\ position (snd ab2) = position b /\
  radius (fst ab2) = radius a /\ radius (snd ab2) = radius b /\
  mass (fst ab2) = mass a /\ mass (snd ab2) = mass b /\
  inv_mass (fst ab2) = inv_mass a /\ inv_mass (snd ab2) = inv_mass b.
Proof. simpl. repeat split. Qed.

Lemma vel_along_separate n m ovl total a b :
  vel_along n (fst (separate m ovl total (a, b))) (snd (separate m ovl total (a, b)))
  = vel_along n a b.
Proof. reflexivity. Qed.

(** The two displacements cancel in the mass-weighted sum of positions. *)
Lemma separate_weighted_centroid n ovl total a b :
  finite_mass a -> finite_mass b ->
  weighted_centroid (separate n ovl total (a, b)) = weighted_centroid (a, b).
Proof.
  intros [Ha Hia] [Hb Hib].
  unfold weighted_centroid, separate. simpl.
  rewrite Hia, Hib. unfold Rdiv. set (k := / total).
  apply vec_eq; simpl; field; lra.
Qed.

(** The two velocity changes cancel in the total momentum. *)
Lemma apply_impulse_momentum e n v total a b :
  finite_mass a -> finite_mass b ->
  momentum (apply_impulse e n v total (a, b)) = momentum (a, b).
Proof.
  intros [Ha Hia] [Hb Hib].
  unfold momentum, apply_impulse. simpl.
  rewrite Hia, Hib. unfold Rdiv. set (k := / total).
  apply vec_eq; simpl; field; lra.
Qed.

(** A ball with zero inverse mass is displaced by the zero vector and
    receives a zero velocity change. *)
Lemma separate_immovable_fst n ovl total a b :
  inv_mass a = 0 -> position (fst (separate n ovl total (a, b))) = position a.
Proof.
  intros Ha. simpl. rewrite Ha. apply vec_eq; simpl; unfold Rdiv; ring.
Qed.

Lemma separate_immovable_snd n ovl total a b :
  inv_mass b = 0 -> position (snd (separate n ovl total (a, b))) = position b.
Proof.
  intros Hb. simpl. rewrite Hb. apply vec_eq; simpl; unfold Rdiv; ring.
Qed.

Lemma apply_impulse_immovable_fst e n v total a b :
  inv_mass a = 0 -> velocity (fst (apply_impulse e n v total (a, b))) = velocity a.
Proof.
  intros Ha. simpl. rewrite Ha. apply vec_eq; simpl; ring.
Qed.

Lemma apply_impulse_immovable_snd e n v total a b :
  inv_mass b = 0 -> velocity (snd (apply_impulse e n v total (a, b))) = velocity b.
Proof.
  intros Hb. simpl. rewrite Hb. apply vec_eq; simpl; ring.
Qed.

(** The contact normal of two distinct centres is a unit vector. *)
Lemma normal_unit a b : 0 < dist_sq a b -> dot (normal a b) (normal a b) = 1.
Proof.
  intros Hd.
  assert (Hs : 0 < distance a b) by (apply sqrt_lt_R0; exact Hd).
  assert (Hss : distance a b * distance a b = dist_sq a b)
    by (apply sqrt_sqrt; lra).
  unfold normal, dot, vdiv. cbn [vx vy].
  unfold dist_sq, length_squared in Hss.
  set (s := distance a b) in *.
  set (dx := vx (dist_vec a b)) in *.
  set (dy := vy (dist_vec a b)) in *.
  replace (dx / s * (dx / s) + dy / s * (dy / s))
    with ((dx * dx + dy * dy) / (s * s)) by (field; lra).
  rewrite <- Hss. field. lra.
Qed.

(** After the impulse the relative velocity along a unit normal is the
    closing one, reversed and scaled by the restitution. *)
Lemma apply_impulse_vel_along e n total a b :
  dot n n = 1 -> total = total_inv_mass a b -> total <> 0 ->
  let ab2 := apply_impulse e n (vel_along n a b) total (a, b) in
  vel_along n (fst ab2) (snd ab2) = - e * vel_along n a b.
Proof.
  intros Hn -> Ht. unfold total_inv_mass in *.
  unfold vel_along, relative_velocity, dot in *. simpl.
  set (nx := vx n) in *. set (ny := vy n) in *.
  set (ia := inv_mass a) in *. set (ib := inv_mass b) in *.
  set (ax := vx (velocity a)). set (ay := vy (velocity a)).
  set (bx := vx (velocity b)). set (byy := vy (velocity b)).
  set (v := (bx - ax) * nx + (byy - ay) * ny).
  transitivity (v - (1 + e) * v * (nx * nx + ny * ny)).
  - unfold v. field. exact Ht.
  - rewrite Hn. ring.
Qed.

(** ** The collision blocks, case by case *)

Lemma Plain_resolve_pair_skip e a b :
  Plain.colliding a b = false \/ total_inv_mass a b = 0 ->
  Plain.resolve_pair e (a, b) = (a, b).
Proof.
  intros H. unfold Plain.resolve_pair.
  destruct (Plain.colliding a b); [| reflexivity].
  destruct (Req_dec_T (total_inv_mass a b) 0) as [_ | Hne]; [reflexivity |].
  destruct H as [H | H]; [discriminate | contradiction].
Qed.

Lemma Plain_resolve_pair_hit e a b :
  Plain.colliding a b = true -> total_inv_mass a b <> 0 ->
  Plain.resolve_pair e (a, b) =
  if Rltb (vel_along (normal a b) a b) 0 then
    apply_impulse e (normal a b) (vel_along (normal a b) a b) (total_inv_mass a b)
      (separate (normal a b) (overlap a b) (total_inv_mass a b) (a, b))
  else separate (normal a b) (overlap a b) (total_inv_mass a b) (a, b).
Proof.
  intros Hc Ht. unfold Plain.resolve_pair. rewrite Hc.
  destruct (Req_dec_T (total_inv_mass a b) 0) as [H0 | _]; [contradiction |].
  reflexivity.
Qed.

Lemma WithUI_resolve_miss e a b count :
  WithUI.colliding a b = false ->
  WithUI.resolve_collision e (WithUI.mkWorld (a, b) count)
  = (WithUI.mkWorld (a, b) count, None).
Proof. intros Hc. unfold WithUI.resolve_collision. simpl. rewrite Hc. reflexivity. Qed.

Lemma WithUI_resolve_hit e a b count :
  WithUI.colliding a b = true -> 0 < total_inv_mass a b ->
  WithUI.resolve_collision e (WithUI.mkWorld (a, b) count) =
  if Rltb (vel_along (normal a b) a b) 0 then
    (WithUI.mkWorld
       (apply_impulse e (normal a b) (vel_along (normal a b) a b) (total_inv_mass a b)
          (separate (normal a b) (overlap a b) (total_inv_mass a b) (a, b)))
       (S count), None)
  else
    (WithUI.mkWorld (separate (normal a b) (overlap a b) (total_inv_mass a b) (a, b))
       count, None).
Proof.
  intros Hc Ht. unfold WithUI.resolve_collision.
  cbn [WithUI.balls WithUI.collision_count]. rewrite Hc.
  assert (Hpos : Rltb 0 (total_inv_mass a b) = true) by (apply Rltb_true; exact Ht).
  rewrite Hpos. rewrite vel_along_separate.
  destruct (Rltb (vel_along (normal a b) a b) 0); [| reflexivity].
  destruct (Req_dec_T (total_inv_mass a b) 0) as [H0 | _]; [lra | reflexivity].
Qed.

(** Both balls immovable: nothing is separated; a pair that is not closing
    is left alone, a closing pair runs into the division. *)
Lemma WithUI_resolve_both_immovable e a b count :
  WithUI.colliding a b = true -> total_inv_mass a b = 0 ->
  WithUI.resolve_collision e (WithUI.mkWorld (a, b) count) =
  if Rltb (vel_along (normal a b) a b) 0 then
    (WithUI.mkWorld (a, b) (S count), Some ZeroDivisionError)
  else (WithUI.mkWorld (a, b) count, None).
Proof.
  intros Hc Ht. unfold WithUI.resolve_collision.
  cbn [WithUI.balls WithUI.collision_count]. rewrite Hc.
  assert (Hpos : Rltb 0 (total_inv_mass a b) = false) by (apply Rltb_false; lra).
  rewrite Hpos. cbn [fst snd].
  destruct (Rltb (vel_along (normal a b) a b) 0); [| reflexivity].
  destruct (Req_dec_T (total_inv_mass a b) 0) as [_ | Hne]; [reflexivity | contradiction].
Qed.

Lemma finite_mass_total a b :
  finite_mass a -> finite_mass b -> 0 < total_inv_mass a b.
Proof.
  intros [Ha Hia] [Hb Hib]. unfold total_inv_mass. rewrite Hia, Hib.
  assert (0 < 1 / mass a) by (apply Rdiv_lt_0_compat; lra).
  assert (0 < 1 / mass b) by (apply Rdiv_lt_0_compat; lra).
  lra.
Qed.

Lemma Plain_colliding_dist a b : Plain.colliding a b = true -> 0 < dist_sq a b.
Proof.
  unfold Plain.colliding. intros H. apply andb_true_iff in H as [_ H].
  apply Rltb_true in H. lra.
Qed.

Lemma WithUI_colliding_dist a b : WithUI.colliding a b = true -> 0 < dist_sq a b.
Proof.
  unfold WithUI.colliding. intros H. apply andb_true_iff in H as [H _].
  apply Rltb_true in H. exact H.
Qed.

(** The relative velocity along a normal only reads the two velocities. *)
Lemma vel_along_ext n a b a' b' :
  velocity a' = velocity a -> velocity b' = velocity b ->
  vel_along n a' b' = vel_along n a b.
Proof. intros Ha Hb. unfold vel_along, relative_velocity. rewrite Ha, Hb. reflexivity. Qed.

(** Velocities of a pair that is not closing. *)
Lemma Plain_resolve_pair_separating e a b :
  0 <= vel_along (normal a b) a b ->
  velocity (fst (Plain.resolve_pair e (a, b))) = velocity a /\
  velocity (snd (Plain.resolve_pair e (a, b))) = velocity b.
Proof.
  intros Hv.
  destruct (Plain.colliding a b) eqn:Hc;
    [| rewrite Plain_resolve_pair_skip by auto; auto].
  destruct (Req_dec_T (total_inv_mass a b) 0) as [H0 | Hne];
    [rewrite Plain_resolve_pair_skip by auto; auto |].
  rewrite Plain_resolve_pair_hit by assumption.
  apply Rltb_false in Hv. rewrite Hv. split; reflexivity.
Qed.

Lemma WithUI_resolve_separating e a b count :
  WithUI.colliding a b = true ->
  0 <= vel_along (normal a b) a b ->
  exists a' b',
    WithUI.resolve_collision e (WithUI.mkWorld (a, b) count)
    = (WithUI.mkWorld (a', b') count, None) /\
    velocity a' = velocity a /\ velocity b' = velocity b.
Proof.
  intros Hc Hv. apply Rltb_false in Hv.
  unfold WithUI.resolve_collision.
  cbn [WithUI.balls WithUI.collision_count]. rewrite Hc.
  destruct (Rltb 0 (total_inv_mass a b)).
  - rewrite vel_along_separate, Hv.
    eexists _, _. split; [reflexivity |]. split; reflexivity.
  - cbn [fst snd]. rewrite Hv. exists a, b. auto.
Qed.

(** ** Facts about the sample pairs *)

Lemma head_on_finite : finite_mass head_on_a /\ finite_mass head_on_b.
Proof.
  unfold finite_mass, head_on_a, head_on_b. simpl.
  rewrite inverse_of_mass_pos by lra. repeat split; lra.
Qed.

Lemma head_on_colliding :
  Plain.colliding head_on_a head_on_b = true /\
  WithUI.colliding head_on_a head_on_b = true.
Proof.
  unfold Plain.colliding, WithUI.colliding, dist_sq, min_dist, length_squared,
    dist_vec. simpl. decide_cmps. split; reflexivity.
Qed.

Lemma head_on_closing : vel_along (normal head_on_a head_on_b) head_on_a head_on_b < 0.
Proof.
  assert (Hs : 0 < distance head_on_a head_on_b)
    by (apply sqrt_lt_R0, Plain_colliding_dist, head_on_colliding).
  unfold vel_along, relative_velocity, normal, dot, vdiv.
  set (s := distance head_on_a head_on_b) in *.
  simpl. assert (0 < / s) by (apply Rinv_0_lt_compat; exact Hs).
  unfold Rdiv. nra.
Qed.

Lemma parting_colliding :
  Plain.colliding parting_a parting_b = true /\
  WithUI.colliding parting_a parting_b = true.
Proof.
  unfold Plain.colliding, WithUI.colliding, dist_sq, min_dist, length_squared,
    dist_vec. simpl. decide_cmps. split; reflexivity.
Qed.

Lemma parting_separating :
  0 < vel_along (normal parting_a parting_b) parting_a parting_b.
Proof.
  assert (Hs : 0 < distance parting_a parting_b)
    by (apply sqrt_lt_R0, Plain_colliding_dist, parting_colliding).
  unfold vel_along, relative_velocity, normal, dot, vdiv.
  set (s := distance parting_a parting_b) in *.
  simpl. assert (0 < / s) by (apply Rinv_0_lt_compat; exact Hs).
  unfold Rdiv. nra.
Qed.

Lemma parting_total : 0 < total_inv_mass parting_a parting_b.
Proof.
  unfold total_inv_mass, parting_a, parting_b. simpl.
  rewrite inverse_of_mass_pos by lra. lra.
Qed.

(** ** Separating pairs *)

(** C7. If the relative velocity along the contact normal of a detected
    colliding pair is [>= 0], the collision block leaves both velocities
    as they are (and, in the UI simulation, completes without counting a
    collision). *)
Theorem separating_pair_keeps_velocities (e : R) (a b : Ball) (count : nat) :
  0 <= vel_along (normal a b) a b ->
  (Plain.colliding a b = true ->
   velocity (fst (Plain.resolve_pair e (a, b))) = velocity a /\
   velocity (snd (Plain.resolve_pair e (a, b))) = velocity b) /\
  (WithUI.colliding a b = true ->
   exists a' b',
     WithUI.resolve_collision e (WithUI.mkWorld (a, b) count)
     = (WithUI.mkWorld (a', b') count, None) /\
     velocity a' = velocity a /\ velocity b' = velocity b).
Proof.
  intros Hv. split; intros Hc.
  - apply Plain_resolve_pair_separating; exact Hv.
  - apply WithUI_resolve_separating; assumption.
Qed.

(** The parting pair keeps its velocities in both simulations. *)
Lemma separating_pair_keeps_velocities_witness :
  (velocity (fst (Plain.resolve_pair 0.85 (parting_a, parting_b))) = velocity parting_a /\
   velocity (snd (Plain.resolve_pair 0.85 (parting_a, parting_b))) = velocity parting_b) /\
  exists a' b',
    WithUI.resolve_collision 0.85 (WithUI.mkWorld (parting_a, parting_b) 0)
    = (WithUI.mkWorld (a', b') 0, None) /\
    velocity a' = velocity parting_a /\ velocity b' = velocity parting_b.
Proof.
  destruct (separating_pair_keeps_velocities 0.85 parting_a parting_b 0) as [HP HU].
  - left. exact parting_separating.
  - split; [apply HP | apply HU]; apply parting_colliding.
Defined.

(** ** Momentum and centroid *)

Lemma apply_impulse_weighted_centroid e n v total ab :
  weighted_centroid (apply_impulse e n v total ab) = weighted_centroid ab.
Proof. destruct ab. reflexivity. Qed.

(** Momentum is kept by the pair block of the plain simulation, whatever
    the restitution. *)
Lemma Plain_resolve_pair_momentum e a b :
  finite_mass a -> finite_mass b ->
  momentum (Plain.resolve_pair e (a, b)) = momentum (a, b).
Proof.
  intros Ha Hb.
  destruct (Plain.colliding a b) eqn:Hc;
    [| rewrite Plain_resolve_pair_skip by auto; reflexivity].
  pose proof (finite_mass_total a b Ha Hb) as Ht.
  rewrite Plain_resolve_pair_hit by (auto; lra).
  destruct (Rltb (vel_along (normal a b) a b) 0).
  - unfold separate. rewrite apply_impulse_momentum by assumption. reflexivity.
  - reflexivity.
Qed.

(** The same for the collision block of the UI simulation, which then
    completes without an exception. *)
Lemma WithUI_resolve_momentum e a b count :
  finite_mass a -> finite_mass b ->
  exists w',
    WithUI.resolve_collision e (WithUI.mkWorld (a, b) count) = (w', None) /\
    momentum (WithUI.balls w') = momentum (a, b).
Proof.
  intros Ha Hb.
  destruct (WithUI.colliding a b) eqn:Hc.
  - pose proof (finite_mass_total a b Ha Hb) as Ht.
    rewrite WithUI_resolve_hit by assumption.
    destruct (Rltb (vel_along (normal a b) a b) 0).
    + eexists. split; [reflexivity |]. cbn [WithUI.balls].
      unfold separate. rewrite apply_impulse_momentum by assumption. reflexivity.
    + eexists. split; [reflexivity |]. reflexivity.
  - rewrite WithUI_resolve_miss by assumption.
    eexists. split; reflexivity.
Qed.

(** C1. For two colliding balls of finite mass, resolved with restitution
    1, the total momentum [m1*v1 + m2*v2] is the same before and after the
    collision block (in both simulations; the block of the UI simulation
    completes without an exception). *)
Theorem elastic_collision_conserves_momentum (a b : Ball) (count : nat) :
  finite_mass a -> finite_mass b ->
  (Plain.colliding a b = true ->
   momentum (Plain.resolve_pair 1 (a, b)) = momentum (a, b)) /\
  (WithUI.colliding a b = true ->
   exists w',
     WithUI.resolve_collision 1 (WithUI.mkWorld (a, b) count) = (w', None) /\
     momentum (WithUI.balls w') = momentum (a, b)).
Proof.
  intros Ha Hb. split; intros _.
  - apply Plain_resolve_pair_momentum; assumption.
  - apply WithUI_resolve_momentum; assumption.
Qed.

(** The head-on pair. *)
Lemma elastic_collision_conserves_momentum_witness :
  momentum (Plain.resolve_pair 1 (head_on_a, head_on_b))
  = momentum (head_on_a, head_on_b) /\
  exists w',
    WithUI.resolve_collision 1 (WithUI.mkWorld (head_on_a, head_on_b) 0) = (w', None) /\
    momentum (WithUI.balls w') = momentum (head_on_a, head_on_b).
Proof.
  destruct (elastic_collision_conserves_momentum head_on_a head_on_b 0) as [HP HU].
  - apply head_on_finite.
  - apply head_on_finite.
  - split; [apply HP | apply HU]; apply head_on_colliding.
Defined.

Lemma Plain_resolve_pair_centroid e a b :
  finite_mass a -> finite_mass b ->
  weighted_centroid (Plain.resolve_pair e (a, b)) = weighted_centroid (a, b).
Proof.
  intros Ha Hb.
  destruct (Plain.colliding a b) eqn:Hc;
    [| rewrite Plain_resolve_pair_skip by auto; reflexivity].
  pose proof (finite_mass_total a b Ha Hb) as Ht.
  rewrite Plain_resolve_pair_hit by (auto; lra).
  destruct (Rltb (vel_along (normal a b) a b) 0).
  - rewrite apply_impulse_weighted_centroid.
    apply separate_weighted_centroid; assumption.
  - apply separate_weighted_centroid; assumption.
Qed.

Lemma WithUI_resolve_centroid e a b count :
  finite_mass a -> finite_mass b ->
  exists w',
    WithUI.resolve_collision e (WithUI.mkWorld (a, b) count) = (w', None) /\
    weighted_centroid (WithUI.balls w') = weighted_centroid (a, b).
Proof.
  intros Ha Hb.
  destruct (WithUI.colliding a b) eqn:Hc.
  - pose proof (finite_mass_total a b Ha Hb) as Ht.
    rewrite WithUI_resolve_hit by assumption.
    destruct (Rltb (vel_along (normal a b) a b) 0).
    + eexists. split; [reflexivity |]. cbn [WithUI.balls].
      rewrite apply_impulse_weighted_centroid.
      apply separate_weighted_centroid; assumption.
    + eexists. split; [reflexivity |]. cbn [WithUI.balls].
      apply separate_weighted_centroid; assumption.
  - rewrite WithUI_resolve_miss by assumption.
    eexists. split; reflexivity.
Qed.

(** C10. For a detected colliding pair of balls of finite positive mass,
    the two opposite displacements of the separation step keep
    [massA * positionA + massB * positionB]; so does the whole collision
    block, whose impulse step does not move the balls. *)
Theorem separation_preserves_weighted_centroid (e : R) (a b : Ball) (count : nat) :
  finite_mass a -> finite_mass b ->
  weighted_centroid
    (separate (normal a b) (overlap a b) (total_inv_mass a b) (a, b))
  = weighted_centroid (a, b) /\
  (Plain.colliding a b = true ->
   weighted_centroid (Plain.resolve_pair e (a, b)) = weighted_centroid (a, b)) /\
  (WithUI.colliding a b = true ->
   exists w',
     WithUI.resolve_collision e (WithUI.mkWorld (a, b) count) = (w', None) /\
     weighted_centroid (WithUI.balls w') = weighted_centroid (a, b)).
Proof.
  intros Ha Hb. split; [apply separate_weighted_centroid; assumption |].
  split; intros _.
  - apply Plain_resolve_pair_centroid; assumption.
  - apply WithUI_resolve_centroid; assumption.
Qed.

(** The head-on pair, pushed apart. *)
Lemma separation_preserves_weighted_centroid_witness :
  weighted_centroid (Plain.resolve_pair 0.85 (head_on_a, head_on_b))
  = weighted_centroid (head_on_a, head_on_b) /\
  exists w',
    WithUI.resolve_collision 0.85 (WithUI.mkWorld (head_on_a, head_on_b) 0)
    = (w', None) /\
    weighted_centroid (WithUI.balls w') = weighted_centroid (head_on_a, head_on_b).
Proof.
  destruct (separation_preserves_weighted_centroid 0.85 head_on_a head_on_b 0)
    as (_ & HP & HU).
  - apply head_on_finite.
  - apply head_on_finite.
  - split; [apply HP | apply HU]; apply head_on_colliding.
Defined.

(** ** Restitution along the normal *)

Lemma Rabs_restitution (e v : R) : 0 <= e -> Rabs (- e * v) <= e * Rabs v.
Proof.
  intros He. rewrite Rabs_mult, Rabs_Ropp, (Rabs_pos_eq e He). lra.
Qed.

Lemma Plain_resolve_pair_closing e a b :
  Plain.colliding a b = true -> total_inv_mass a b <> 0 ->
  vel_along (normal a b) a b < 0 ->
  vel_along (normal a b)
    (fst (Plain.resolve_pair e (a, b))) (snd (Plain.resolve_pair e (a, b)))
  = - e * vel_along (normal a b) a b.
Proof.
  intros Hc Ht Hv.
  rewrite Plain_resolve_pair_hit by assumption.
  apply Rltb_true in Hv. rewrite Hv.
  apply (apply_impulse_vel_along e (normal a b) (total_inv_mass a b)
           (fst (separate (normal a b) (overlap a b) (total_inv_mass a b) (a, b)))
           (snd (separate (normal a b) (overlap a b) (total_inv_mass a b) (a, b)))).
  - apply normal_unit, Plain_colliding_dist, Hc.
  - reflexivity.
  - exact Ht.
Qed.

Lemma WithUI_resolve_closing e a b count :
  WithUI.colliding a b = true -> 0 < total_inv_mass a b ->
  vel_along (normal a b) a b < 0 ->
  exists w',
    WithUI.resolve_collision e (WithUI.mkWorld (a, b) count) = (w', None) /\
    WithUI.collision_count w' = S count /\
    vel_along (normal a b) (fst (WithUI.balls w')) (snd (WithUI.balls w'))
    = - e * vel_along (normal a b) a b.
Proof.
  intros Hc Ht Hv.
  rewrite WithUI_resolve_hit by assumption.
  apply Rltb_true in Hv. rewrite Hv.
  eexists. split; [reflexivity |]. split; [reflexivity |].
  cbn [WithUI.balls].
  apply (apply_impulse_vel_along e (normal a b) (total_inv_mass a b)
           (fst (separate (normal a b) (overlap a b) (total_inv_mass a b) (a, b)))
           (snd (separate (normal a b) (overlap a b) (total_inv_mass a b) (a, b)))).
  - apply normal_unit, WithUI_colliding_dist, Hc.
  - reflexivity.
  - lra.
Qed.

(** C2.  For a colliding pair that is resolved, with restitution in
    [[0,1]] and [invMassA + invMassB > 0], the relative velocity along the
    contact normal after the collision block is [- restitution] times the
    one before, so its magnitude is at most [restitution] times the
    magnitude before.  A pair is resolved when it is closing at detection
    time ([velAlongNormal < 0]); on a pair that moves apart the resolution
    is skipped. *)
Theorem closing_pair_restitution_bound (e : R) (a b : Ball) (count : nat) :
  0 <= e <= 1 -> 0 < total_inv_mass a b ->
  vel_along (normal a b) a b < 0 ->
  (Plain.colliding a b = true ->
   vel_along (normal a b)
     (fst (Plain.resolve_pair e (a, b))) (snd (Plain.resolve_pair e (a, b)))
   = - e * vel_along (normal a b) a b /\
   Rabs (vel_along (normal a b)
           (fst (Plain.resolve_pair e (a, b))) (snd (Plain.resolve_pair e (a, b))))
   <= e * Rabs (vel_along (normal a b) a b)) /\
  (WithUI.colliding a b = true ->
   exists w',
     WithUI.resolve_collision e (WithUI.mkWorld (a, b) count) = (w', None) /\
     vel_along (normal a b) (fst (WithUI.balls w')) (snd (WithUI.balls w'))
     = - e * vel_along (normal a b) a b /\
     Rabs (vel_along (normal a b) (fst (WithUI.balls w')) (snd (WithUI.balls w')))
     <= e * Rabs (vel_along (normal a b) a b)).
Proof.
  intros He Ht Hv. split; intros Hc.
  - assert (Hpost := Plain_resolve_pair_closing e a b Hc ltac:(lra) Hv).
    split; [exact Hpost |].
    rewrite Hpost. apply Rabs_restitution. lra.
  - destruct (WithUI_resolve_closing e a b count Hc Ht Hv) as (w' & Hw & _ & Hpost).
    exists w'. split; [exact Hw |]. split; [exact Hpost |].
    rewrite Hpost. apply Rabs_restitution. lra.
Qed.

Lemma head_on_total : 0 < total_inv_mass head_on_a head_on_b.
Proof. apply finite_mass_total; apply head_on_finite. Qed.

(** The head-on pair with the restitution of the plain simulation. *)
Lemma closing_pair_restitution_bound_witness :
  Rabs (vel_along (normal head_on_a head_on_b)
          (fst (Plain.resolve_pair 0.85 (head_on_a, head_on_b)))
          (snd (Plain.resolve_pair 0.85 (head_on_a, head_on_b))))
  <= 0.85 * Rabs (vel_along (normal head_on_a head_on_b) head_on_a head_on_b) /\
  exists w',
    WithUI.resolve_collision 0.85 (WithUI.mkWorld (head_on_a, head_on_b) 0)
    = (w', None) /\
    vel_along (normal head_on_a head_on_b) (fst (WithUI.balls w')) (snd (WithUI.balls w'))
    = - (0.85) * vel_along (normal head_on_a head_on_b) head_on_a head_on_b /\
    Rabs (vel_along (normal head_on_a head_on_b)
            (fst (WithUI.balls w')) (snd (WithUI.balls w')))
    <= 0.85 * Rabs (vel_along (normal head_on_a head_on_b) head_on_a head_on_b).
Proof.
  destruct (closing_pair_restitution_bound 0.85 head_on_a head_on_b 0) as [HP HU].
  - lra.
  - exact head_on_total.
  - exact head_on_closing.
  - split; [apply HP | apply HU]; apply head_on_colliding.
Defined.

(** ** Both balls immovable *)

Lemma anvils_constructed :
  WithUI.Ball_init (PyInt 100) (PyInt 100) (PyInt 25) RED (PyInt 0)
    (AsVector (vector2 10 0)) (AsVector vzero)
  = inl anvil_a /\
  WithUI.Ball_init (PyInt 130) (PyInt 100) (PyInt 25) BLUE (PyInt 0)
    (AsVector vzero) (AsVector vzero)
  = inl anvil_b.
Proof.
  split; apply WithUI_Ball_init_ok; try reflexivity; simpl; lra.
Qed.

Lemma anvils_total : total_inv_mass anvil_a anvil_b = 0.
Proof.
  unfold total_inv_mass, anvil_a, anvil_b. simpl.
  rewrite inverse_of_mass_zero. lra.
Qed.

Lemma anvils_colliding :
  Plain.colliding anvil_a anvil_b = true /\ WithUI.colliding anvil_a anvil_b = true.
Proof.
  unfold Plain.colliding, WithUI.colliding, dist_sq, min_dist, length_squared,
    dist_vec. simpl. decide_cmps. split; reflexivity.
Qed.

Lemma anvils_closing : vel_along (normal anvil_a anvil_b) anvil_a anvil_b < 0.
Proof.
  assert (Hs : 0 < distance anvil_a anvil_b)
    by (apply sqrt_lt_R0, Plain_colliding_dist, anvils_colliding).
  unfold vel_along, relative_velocity, normal, dot, vdiv.
  set (s := distance anvil_a anvil_b) in *.
  simpl. assert (0 < / s) by (apply Rinv_0_lt_compat; exact Hs).
  unfold Rdiv. nra.
Qed.

(** In the plain simulation a pair of immovable balls is skipped. *)
Lemma Plain_both_immovable_skipped e a b :
  total_inv_mass a b = 0 -> Plain.resolve_pair e (a, b) = (a, b).
Proof. intros Ht. apply Plain_resolve_pair_skip. right. exact Ht. Qed.

(** In the UI simulation such a pair is left alone as long as it is not
    closing. *)
Lemma WithUI_both_immovable_not_closing e a b count :
  WithUI.colliding a b = true -> total_inv_mass a b = 0 ->
  0 <= vel_along (normal a b) a b ->
  WithUI.resolve_collision e (WithUI.mkWorld (a, b) count)
  = (WithUI.mkWorld (a, b) count, None).
Proof.
  intros Hc Ht Hv. rewrite WithUI_resolve_both_immovable by assumption.
  apply Rltb_false in Hv. rewrite Hv. reflexivity.
Qed.

(** C9.  The claim asks that a colliding pair of two immovable balls goes
    through the velocity resolution without an error and unchanged.  In the
    UI simulation the pair of [anvil_a] and [anvil_b] (both built with
    mass 0, overlapping, the first moving towards the second) is not
    separated, is counted as a collision, and then stops the collision
    block with [ZeroDivisionError]. *)
Theorem both_immovable_closing_pair_raises :
  WithUI.resolve_collision WithUI.RESTITUTION (WithUI.mkWorld (anvil_a, anvil_b) 0)
  = (WithUI.mkWorld (anvil_a, anvil_b) 1, Some ZeroDivisionError).
Proof.
  rewrite WithUI_resolve_both_immovable.
  - pose proof anvils_closing as Hv. apply Rltb_true in Hv. rewrite Hv. reflexivity.
  - apply anvils_colliding.
  - apply anvils_total.
Qed.

(** ** Immovable balls *)

Lemma apply_force_immovable (f : Vector2) (b : Ball) :
  inv_mass b = 0 -> apply_force f b = b.
Proof.
  intros Hb. unfold apply_force. rewrite Hb.
  destruct (Rlt_dec 0 0); [lra | reflexivity].
Qed.

(** Force application only ever assigns the acceleration. *)
Lemma apply_force_frame (f : Vector2) (b : Ball) :
  position (apply_force f b) = position b /\
  velocity (apply_force f b) = velocity b /\
  radius (apply_force f b) = radius b /\
  mass (apply_force f b) = mass b /\
  inv_mass (apply_force f b) = inv_mass b.
Proof. unfold apply_force. destruct (Rlt_dec 0 (inv_mass b)); simpl; auto. Qed.

Lemma Plain_apply_forces_frame (b : Ball) :
  position (Plain.apply_forces b) = position b /\
  velocity (Plain.apply_forces b) = velocity b /\
  radius (Plain.apply_forces b) = radius b /\
  inv_mass (Plain.apply_forces b) = inv_mass b.
Proof.
  unfold Plain.apply_forces.
  destruct (Rltb 0 _);
    repeat match goal with
      | |- context [apply_force ?f ?x] =>
          let H := fresh in
          pose proof (apply_force_frame f x) as H;
          destruct H as (-> & -> & -> & _ & ->)
      end; simpl; auto.
Qed.

Lemma WithUI_apply_forces_frame (b : Ball) :
  position (WithUI.apply_forces b) = position b /\
  velocity (WithUI.apply_forces b) = velocity b /\
  radius (WithUI.apply_forces b) = radius b /\
  inv_mass (WithUI.apply_forces b) = inv_mass b.
Proof.
  unfold WithUI.apply_forces.
  destruct (Rltb 1e-6 _);
    repeat match goal with
      | |- context [apply_force ?f ?x] =>
          let H := fresh in
          pose proof (apply_force_frame f x) as H;
          destruct H as (-> & -> & -> & _ & ->)
      end; simpl; auto.
Qed.

(** On an immovable ball the force step only resets the acceleration. *)
Lemma Plain_apply_forces_immovable (b : Ball) :
  inv_mass b = 0 -> velocity b = vzero ->
  Plain.apply_forces b = set_acceleration vzero b.
Proof.
  intros Hi Hv. unfold Plain.apply_forces.
  rewrite !apply_force_immovable by (simpl; exact Hi).
  simpl. rewrite Hv.
  replace (Rltb 0 (length_squared vzero)) with false; [reflexivity |].
  symmetry. apply Rltb_false. unfold length_squared. simpl. lra.
Qed.

Lemma WithUI_apply_forces_immovable (b : Ball) :
  inv_mass b = 0 -> velocity b = vzero ->
  WithUI.apply_forces b = set_acceleration vzero b.
Proof.
  intros Hi Hv. unfold WithUI.apply_forces.
  rewrite !apply_force_immovable by (simpl; exact Hi).
  simpl. rewrite Hv.
  replace (Rltb 1e-6 (length_squared vzero)) with false; [reflexivity |].
  symmetry. apply Rltb_false. unfold length_squared. simpl. lra.
Qed.

Lemma update_frame (dt : R) (b : Ball) :
  radius (fst (update dt b)) = radius b /\
  inv_mass (fst (update dt b)) = inv_mass b.
Proof. unfold update, raise. destruct (Rlt_dec dt 0); simpl; auto. Qed.

(** Integration moves a ball by its velocity, immovable or not; only a ball
    without velocity and acceleration stays where it is. *)
Lemma update_still (dt : R) (b : Ball) :
  velocity b = vzero -> acceleration b = vzero ->
  position (fst (update dt b)) = position b /\
  velocity (fst (update dt b)) = velocity b.
Proof.
  intros Hv Ha. unfold update, raise.
  destruct (Rlt_dec dt 0); simpl; [auto |].
  rewrite Hv, Ha. split; apply vec_eq; simpl; ring.
Qed.

Lemma Plain_handle_walls_inside (e : R) (b : Ball) :
  within_bounds Plain.WIDTH Plain.HEIGHT b -> Plain.handle_walls e b = b.
Proof. unfold within_bounds. intros (H1 & H2 & H3 & H4). walls. reflexivity. Qed.

Lemma WithUI_handle_walls_inside (e : R) (b : Ball) :
  within_bounds WithUI.WIDTH WithUI.HEIGHT b -> WithUI.handle_walls e b = b.
Proof. unfold within_bounds. intros (H1 & H2 & H3 & H4). walls. reflexivity. Qed.

Lemma Plain_handle_walls_frame (e : R) (b : Ball) :
  radius (Plain.handle_walls e b) = radius b /\
  inv_mass (Plain.handle_walls e b) = inv_mass b.
Proof.
  unfold Plain.handle_walls.
  destruct (Plain_wall_y_frame e (Plain.wall_x e b)) as (_ & _ & -> & -> & _).
  destruct (Plain_wall_x_frame e b) as (_ & _ & -> & -> & _). auto.
Qed.

Lemma WithUI_handle_walls_frame (e : R) (b : Ball) :
  radius (WithUI.handle_walls e b) = radius b /\
  inv_mass (WithUI.handle_walls e b) = inv_mass b.
Proof.
  unfold WithUI.handle_walls.
  destruct (WithUI_wall_y_frame e (WithUI.wall_x e b)) as (_ & _ & -> & -> & _).
  destruct (WithUI_wall_x_frame e b) as (_ & _ & -> & -> & _). auto.
Qed.

Lemma within_bounds_ext (w h : R) (b b' : Ball) :
  position b' = position b -> radius b' = radius b ->
  within_bounds w h b -> within_bounds w h b'.
Proof. unfold within_bounds. intros -> ->. auto. Qed.

Lemma stays_put_refl (w h : R) (b : Ball) : stays_put w h b b.
Proof. unfold stays_put. auto. Qed.

Lemma resting_stays (w h : R) (b b' : Ball) :
  resting w h b -> stays_put w h b b' -> resting w h b'.
Proof.
  intros Hr (Hrad & Hinv & Hkeep). destruct (Hkeep Hr) as [Hp Hv].
  destruct Hr as (Hi & Hv0 & Hin). unfold resting.
  rewrite Hinv, Hv. split; [exact Hi |]. split; [exact Hv0 |].
  apply (within_bounds_ext w h b); assumption.
Qed.

Lemma stays_put_trans (w h : R) (b1 b2 b3 : Ball) :
  stays_put w h b1 b2 -> stays_put w h b2 b3 -> stays_put w h b1 b3.
Proof.
  intros H12 H23.
  pose proof (resting_stays w h b1 b2) as Hrest.
  destruct H12 as (Hr12 & Hi12 & Hk12), H23 as (Hr23 & Hi23 & Hk23).
  unfold stays_put. rewrite Hr23, Hi23. repeat split; auto.
  - destruct (Hk23 (Hrest H (conj Hr12 (conj Hi12 Hk12)))) as [-> _].
    apply Hk12; assumption.
  - destruct (Hk23 (Hrest H (conj Hr12 (conj Hi12 Hk12)))) as [_ ->].
    apply Hk12; assumption.
Qed.

(** The physics of one ball: forces, integration, walls. *)
Lemma Plain_physics_update_stays_put (e dt : R) (b : Ball) :
  stays_put Plain.WIDTH Plain.HEIGHT b (fst (Plain.physics_update e dt b)).
Proof.
  unfold Plain.physics_update, and_then, modify.
  destruct (Plain_apply_forces_frame b) as (Hp1 & Hv1 & Hr1 & Hi1).
  destruct (update_frame dt (Plain.apply_forces b)) as (Hr2 & Hi2).
  destruct (update dt (Plain.apply_forces b)) as [b2 [ex |]] eqn:Hu;
    cbn [fst] in *.
  - (* the update raised *)
    assert (Hb2 : b2 = Plain.apply_forces b).
    { unfold update, raise in Hu.
      destruct (Rlt_dec dt 0); inversion Hu; reflexivity. }
    subst b2. unfold stays_put. rewrite Hr1, Hi1, Hp1, Hv1. auto.
  - destruct (Plain_handle_walls_frame e b2) as (Hr3 & Hi3).
    unfold stays_put. rewrite Hr3, Hi3, Hr2, Hi2, Hr1, Hi1.
    split; [reflexivity |]. split; [reflexivity |].
    intros (Hi & Hv & Hin).
    rewrite (Plain_apply_forces_immovable b Hi Hv) in Hu.
    destruct (update_still dt (set_acceleration vzero b) Hv eq_refl) as [Hp4 Hv4].
    rewrite Hu in Hp4, Hv4. cbn [fst] in Hp4, Hv4. simpl in Hp4, Hv4.
    rewrite Plain_handle_walls_inside; [split; [exact Hp4 | exact Hv4] |].
    apply (within_bounds_ext _ _ b); auto. congruence.
Qed.

Lemma WithUI_physics_update_stays_put (e dt : R) (b : Ball) :
  stays_put WithUI.WIDTH WithUI.HEIGHT b (fst (WithUI.physics_update e dt b)).
Proof.
  unfold WithUI.physics_update, and_then, modify.
  destruct (WithUI_apply_forces_frame b) as (Hp1 & Hv1 & Hr1 & Hi1).
  destruct (update_frame dt (WithUI.apply_forces b)) as (Hr2 & Hi2).
  destruct (update dt (WithUI.apply_forces b)) as [b2 [ex |]] eqn:Hu;
    cbn [fst] in *.
  - assert (Hb2 : b2 = WithUI.apply_forces b).
    { unfold update, raise in Hu.
      destruct (Rlt_dec dt 0); inversion Hu; reflexivity. }
    subst b2. unfold stays_put. rewrite Hr1, Hi1, Hp1, Hv1. auto.
  - destruct (WithUI_handle_walls_frame e b2) as (Hr3 & Hi3).
    unfold stays_put. rewrite Hr3, Hi3, Hr2, Hi2, Hr1, Hi1.
    split; [reflexivity |]. split; [reflexivity |].
    intros (Hi & Hv & Hin).
    rewrite (WithUI_apply_forces_immovable b Hi Hv) in Hu.
    destruct (update_still dt (set_acceleration vzero b) Hv eq_refl) as [Hp4 Hv4].
    rewrite Hu in Hp4, Hv4. cbn [fst] in Hp4, Hv4. simpl in Hp4, Hv4.
    rewrite WithUI_handle_walls_inside; [split; [exact Hp4 | exact Hv4] |].
    apply (within_bounds_ext _ _ b); auto. congruence.
Qed.

(** Splits the collision blocks on every test. *)
Ltac collision_cases :=
  unfold Plain.resolve_pair, WithUI.resolve_collision;
  cbn [WithUI.balls WithUI.collision_count];
  repeat match goal with
    | |- context [if Plain.colliding ?a ?b then _ else _] =>
        destruct (Plain.colliding a b)
    | |- context [if WithUI.colliding ?a ?b then _ else _] =>
        destruct (WithUI.colliding a b)
    | |- context [if Req_dec_T ?x ?y then _ else _] =>
        destruct (Req_dec_T x y)
    | |- context [if Rltb ?x ?y then _ else _] =>
        destruct (Rltb x y)
    end.

(** Neither collision block assigns a radius or a mass. *)
Lemma Plain_resolve_pair_frame e a b :
  radius (fst (Plain.resolve_pair e (a, b))) = radius a /\
  inv_mass (fst (Plain.resolve_pair e (a, b))) = inv_mass a /\
  radius (snd (Plain.resolve_pair e (a, b))) = radius b /\
  inv_mass (snd (Plain.resolve_pair e (a, b))) = inv_mass b.
Proof. collision_cases; simpl; auto. Qed.

Lemma WithUI_resolve_frame e a b count :
  let w' := fst (WithUI.resolve_collision e (WithUI.mkWorld (a, b) count)) in
  radius (fst (WithUI.balls w')) = radius a /\
  inv_mass (fst (WithUI.balls w')) = inv_mass a /\
  radius (snd (WithUI.balls w')) = radius b /\
  inv_mass (snd (WithUI.balls w')) = inv_mass b.
Proof. collision_cases; simpl; auto. Qed.

(** A ball with zero inverse mass keeps its position and its velocity in
    the collision block, whatever the other ball. *)
Lemma Plain_resolve_pair_immovable e a b :
  (inv_mass a = 0 ->
   position (fst (Plain.resolve_pair e (a, b))) = position a /\
   velocity (fst (Plain.resolve_pair e (a, b))) = velocity a) /\
  (inv_mass b = 0 ->
   position (snd (Plain.resolve_pair e (a, b))) = position b /\
   velocity (snd (Plain.resolve_pair e (a, b))) = velocity b).
Proof.
  split; intros Hi; collision_cases; simpl; rewrite ?Hi;
    split; try reflexivity; apply vec_eq; simpl; unfold Rdiv; ring.
Qed.

Lemma WithUI_resolve_immovable e a b count :
  let w' := fst (WithUI.resolve_collision e (WithUI.mkWorld (a, b) count)) in
  (inv_mass a = 0 ->
   position (fst (WithUI.balls w')) = position a /\
   velocity (fst (WithUI.balls w')) = velocity a) /\
  (inv_mass b = 0 ->
   position (snd (WithUI.balls w')) = position b /\
   velocity (snd (WithUI.balls w')) = velocity b).
Proof.
  cbv zeta.
  split; intros Hi; collision_cases; simpl; rewrite ?Hi;
    split; try reflexivity; apply vec_eq; simpl; unfold Rdiv; ring.
Qed.

Lemma Plain_resolve_pair_stays_put w h e a b :
  stays_put w h a (fst (Plain.resolve_pair e (a, b))) /\
  stays_put w h b (snd (Plain.resolve_pair e (a, b))).
Proof.
  destruct (Plain_resolve_pair_frame e a b) as (Hr1 & Hi1 & Hr2 & Hi2).
  destruct (Plain_resolve_pair_immovable e a b) as [Ha Hb].
  unfold stays_put, resting.
  split; (split; [assumption |]; split; [assumption |]); intros (Hi & _); auto.
Qed.

Lemma WithUI_resolve_stays_put w h e a b count :
  stays_put w h a
    (fst (WithUI.balls (fst (WithUI.resolve_collision e (WithUI.mkWorld (a, b) count)))))
  /\
  stays_put w h b
    (snd (WithUI.balls (fst (WithUI.resolve_collision e (WithUI.mkWorld (a, b) count))))).
Proof.
  destruct (WithUI_resolve_frame e a b count) as (Hr1 & Hi1 & Hr2 & Hi2).
  destruct (WithUI_resolve_immovable e a b count) as [Ha Hb].
  unfold stays_put, resting.
  split; (split; [assumption |]; split; [assumption |]); intros (Hi & _); auto.
Qed.

(** ** Whole frames *)

Section Preservation.

Context {S : Type} (rel : S -> S -> Prop).
Hypothesis rel_refl : forall s, rel s s.
Hypothesis rel_trans : forall s1 s2 s3, rel s1 s2 -> rel s2 s3 -> rel s1 s3.

(** A relation kept by two commands is kept by their sequence, whether or
    not the first one raises. *)
Lemma and_then_keeps (c1 c2 : Cmd S) (s : S) :
  rel s (fst (c1 s)) ->
  (forall s1, rel s1 (fst (c2 s1))) ->
  rel s (fst ((c1 ;; c2) s)).
Proof.
  intros H1 H2. unfold and_then.
  destruct (c1 s) as [s1 [ex |]]; cbn [fst] in *.
  - exact H1.
  - apply (rel_trans _ s1); [exact H1 | apply H2].
Qed.

Lemma fold_left_keeps {X : Type} (f : S -> X -> S) (xs : list X) :
  (forall s x, rel s (f s x)) ->
  forall s, rel s (fold_left f xs s).
Proof.
  intros Hf. induction xs as [| x xs IH]; intros s; simpl.
  - apply rel_refl.
  - apply (rel_trans _ (f s x)); [apply Hf | apply IH].
Qed.

End Preservation.

Section Lists.

Context {A : Type} (rel : A -> A -> Prop).
Hypothesis rel_refl : forall x, rel x x.
Hypothesis rel_trans : forall x y z, rel x y -> rel y z -> rel x z.

Lemma Forall2_same (l : list A) : Forall2 rel l l.
Proof. induction l; constructor; auto. Qed.

Lemma Forall2_chain (l1 l2 l3 : list A) :
  Forall2 rel l1 l2 -> Forall2 rel l2 l3 -> Forall2 rel l1 l3.
Proof.
  intros H12. revert l3.
  induction H12 as [| x y l1 l2 Hxy _ IH]; intros l3 H23; inversion H23; subst.
  - constructor.
  - constructor; [eapply rel_trans; eassumption | apply IH; assumption].
Qed.

Lemma Forall2_list_set (l l' : list A) (i : nat) (x y : A) :
  Forall2 rel l l' -> nth_error l i = Some x -> rel x y ->
  Forall2 rel l (list_set i y l').
Proof.
  intros H. revert i.
  induction H as [| h h' t t' Hh Ht IH]; intros i Hi Hxy.
  - destruct i; discriminate.
  - destruct i as [| i]; simpl in *.
    + inversion Hi; subst. constructor; assumption.
    + constructor; [assumption | apply IH; assumption].
Qed.

Lemma Forall2_nth_error (l l' : list A) (i : nat) (x : A) :
  Forall2 rel l l' -> nth_error l i = Some x ->
  exists y, nth_error l' i = Some y /\ rel x y.
Proof.
  intros H. revert i.
  induction H as [| h h' t t' Hh _ IH]; intros i Hi.
  - destruct i; discriminate.
  - destruct i as [| i]; simpl in *.
    + inversion Hi; subst. eauto.
    + apply IH; assumption.
Qed.

End Lists.

Lemma Plain_physics_loop_stays_put e dt dragging i balls :
  all_stay_put Plain.WIDTH Plain.HEIGHT balls
    (fst (Plain.physics_loop e dt dragging i balls)).
Proof.
  unfold all_stay_put. revert i.
  induction balls as [| ball rest IH]; intros i; simpl.
  - constructor.
  - specialize (IH (S i)).
    pose proof (Plain_physics_update_stays_put e dt ball) as Hb.
    destruct (match dragging with Some d => Nat.eqb d i | None => false end).
    + destruct (Plain.physics_loop e dt dragging (S i) rest) as [rest' ex].
      cbn [fst] in *. constructor; [apply stays_put_refl | exact IH].
    + destruct (Plain.physics_update e dt ball) as [ball' [ex |]]; cbn [fst] in *.
      * constructor; [exact Hb |].
        apply Forall2_same. apply stays_put_refl.
      * destruct (Plain.physics_loop e dt dragging (S i) rest) as [rest' ex].
        cbn [fst] in *. constructor; assumption.
Qed.

Lemma Plain_collide_at_stays_put w h e i j balls :
  all_stay_put w h balls (Plain.collide_at e i j balls).
Proof.
  unfold all_stay_put, Plain.collide_at.
  destruct (nth_error balls i) as [a |] eqn:Hi;
    [| apply Forall2_same, stays_put_refl].
  destruct (nth_error balls j) as [b |] eqn:Hj;
    [| apply Forall2_same, stays_put_refl].
  destruct (Plain_resolve_pair_stays_put w h e a b) as [Ha Hb].
  destruct (Plain.resolve_pair e (a, b)) as [a' b']. cbn [fst snd] in *.
  apply (Forall2_list_set _ _ _ j b b'); [| exact Hj | exact Hb].
  apply (Forall2_list_set _ _ _ i a a'); [| exact Hi | exact Ha].
  apply Forall2_same, stays_put_refl.
Qed.

Lemma Plain_collision_loop_stays_put w h e balls :
  all_stay_put w h balls (Plain.collision_loop e balls).
Proof.
  unfold Plain.collision_loop.
  apply (fold_left_keeps (all_stay_put w h)).
  - intros l. apply Forall2_same, stays_put_refl.
  - intros l1 l2 l3. apply Forall2_chain, stays_put_trans.
  - intros l i.
    apply (fold_left_keeps (all_stay_put w h)).
    + intros l0. apply Forall2_same, stays_put_refl.
    + intros l1 l2 l3. apply Forall2_chain, stays_put_trans.
    + intros l0 j. apply Plain_collide_at_stays_put.
Qed.

Lemma Plain_frame_stays_put e dt dragging balls :
  all_stay_put Plain.WIDTH Plain.HEIGHT balls
    (fst (Plain.frame e dt dragging balls)).
Proof.
  unfold Plain.frame.
  apply (and_then_keeps (all_stay_put Plain.WIDTH Plain.HEIGHT)).
  - intros l1 l2 l3. apply Forall2_chain, stays_put_trans.
  - apply Plain_physics_loop_stays_put.
  - intros l. unfold modify. cbn [fst]. apply Plain_collision_loop_stays_put.
Qed.

Lemma Plain_run_stays_put e steps balls :
  all_stay_put Plain.WIDTH Plain.HEIGHT balls (fst (Plain.run e steps balls)).
Proof.
  revert balls. induction steps as [| [dt dragging] rest IH]; intros balls.
  - simpl. apply Forall2_same, stays_put_refl.
  - cbn [Plain.run].
    apply (and_then_keeps (all_stay_put Plain.WIDTH Plain.HEIGHT)).
    + intros l1 l2 l3. apply Forall2_chain, stays_put_trans.
    + apply Plain_frame_stays_put.
    + exact IH.
Qed.

Lemma world_stays_put_refl w : world_stays_put w w.
Proof. split; apply stays_put_refl. Qed.

Lemma world_stays_put_trans w1 w2 w3 :
  world_stays_put w1 w2 -> world_stays_put w2 w3 -> world_stays_put w1 w3.
Proof.
  intros [Ha Hb] [Ha' Hb']. split; eapply stays_put_trans; eassumption.
Qed.

Lemma WithUI_physics_stays_put e dt w :
  world_stays_put w (fst (WithUI.on_ball_a (WithUI.physics_update e dt) w)) /\
  world_stays_put w (fst (WithUI.on_ball_b (WithUI.physics_update e dt) w)).
Proof.
  unfold WithUI.on_ball_a, WithUI.on_ball_b, world_stays_put, both_stay_put.
  pose proof (WithUI_physics_update_stays_put e dt (fst (WithUI.balls w))) as Ha.
  pose proof (WithUI_physics_update_stays_put e dt (snd (WithUI.balls w))) as Hb.
  destruct (WithUI.physics_update e dt (fst (WithUI.balls w))) as [a' ea].
  destruct (WithUI.physics_update e dt (snd (WithUI.balls w))) as [b' eb].
  cbn [fst snd WithUI.balls] in *.
  split; split; first [assumption | apply stays_put_refl].
Qed.

Lemma WithUI_resolve_world_stays_put e w :
  world_stays_put w (fst (WithUI.resolve_collision e w)).
Proof.
  destruct w as [[a b] count]. unfold world_stays_put, both_stay_put.
  cbn [WithUI.balls fst snd].
  apply WithUI_resolve_stays_put.
Qed.

Lemma WithUI_frame_stays_put e dt w :
  world_stays_put w (fst (WithUI.frame e dt w)).
Proof.
  unfold WithUI.frame.
  apply (and_then_keeps world_stays_put world_stays_put_trans).
  - apply WithUI_physics_stays_put.
  - intros w1. apply (and_then_keeps world_stays_put world_stays_put_trans).
    + apply WithUI_physics_stays_put.
    + intros w2. apply WithUI_resolve_world_stays_put.
Qed.

Lemma WithUI_run_stays_put e dts w :
  world_stays_put w (fst (WithUI.run e dts w)).
Proof.
  revert w. induction dts as [| dt rest IH]; intros w.
  - simpl. apply world_stays_put_refl.
  - cbn [WithUI.run].
    apply (and_then_keeps world_stays_put world_stays_put_trans).
    + apply WithUI_frame_stays_put.
    + exact IH.
Qed.

(** ** The immovable-ball invariant *)

Lemma drifting_ball_constructed :
  WithUI.Ball_init (PyInt 100) (PyInt 100) (PyInt 25) RED (PyInt 0)
    (AsVector (vector2 10 0)) (AsVector vzero)
  = inl drifting_ball.
Proof. apply WithUI_Ball_init_ok; try reflexivity; simpl; lra. Qed.

(** C3, as the spec has it, fails: [drifting_ball] is built with mass 0,
    so its inverse mass is 0, and one second of integration moves it from
    x = 100 to x = 110. *)
Lemma immovable_ball_moved_by_update :
  mass drifting_ball = 0 /\ inv_mass drifting_ball = 0 /\
  position (fst (update 1 drifting_ball)) = vector2 110 100 /\
  position (fst (update 1 drifting_ball)) <> position drifting_ball.
Proof.
  assert (Hp : position (fst (update 1 drifting_ball)) = vector2 110 100).
  { unfold update. destruct (Rlt_dec 1 0); [lra |].
    simpl. apply vec_eq; simpl; lra. }
  split; [reflexivity |].
  split; [simpl; apply inverse_of_mass_zero |].
  split; [exact Hp |].
  rewrite Hp. simpl. intros H. inversion H. lra.
Qed.

(** C3, amended.  A ball with inverse mass 0 is left unchanged by
    [apply_force], and its position and velocity are left unchanged by the
    collision block (separation and impulse) of both simulations, whichever
    of the two balls it is.  Integration and wall handling treat it like any
    other ball; so it keeps position and velocity across any sequence of
    frames provided its velocity is zero and it lies within the bounds. *)
Theorem immovable_ball_invariant (b : Ball) :
  inv_mass b = 0 ->
  (forall f, apply_force f b = b) /\
  (forall e o,
     (position (fst (Plain.resolve_pair e (b, o))) = position b /\
      velocity (fst (Plain.resolve_pair e (b, o))) = velocity b) /\
     (position (snd (Plain.resolve_pair e (o, b))) = position b /\
      velocity (snd (Plain.resolve_pair e (o, b))) = velocity b)) /\
  (forall e o count,
     (position (fst (after_collision e (b, o) count)) = position b /\
      velocity (fst (after_collision e (b, o) count)) = velocity b) /\
     (position (snd (after_collision e (o, b) count)) = position b /\
      velocity (snd (after_collision e (o, b) count)) = velocity b)) /\
  (velocity b = vzero -> within_bounds Plain.WIDTH Plain.HEIGHT b ->
   forall e steps balls k,
     nth_error balls k = Some b ->
     exists b',
       nth_error (fst (Plain.run e steps balls)) k = Some b' /\
       position b' = position b /\ velocity b' = velocity b) /\
  (velocity b = vzero -> within_bounds WithUI.WIDTH WithUI.HEIGHT b ->
   forall e dts o count,
     (position (fst (after_run e dts (b, o) count)) = position b /\
      velocity (fst (after_run e dts (b, o) count)) = velocity b) /\
     (position (snd (after_run e dts (o, b) count)) = position b /\
      velocity (snd (after_run e dts (o, b) count)) = velocity b)).
Proof.
  intros Hi. split; [| split; [| split; [| split]]].
  - intros f. apply apply_force_immovable. exact Hi.
  - intros e o. split.
    + apply (Plain_resolve_pair_immovable e b o). exact Hi.
    + apply (Plain_resolve_pair_immovable e o b). exact Hi.
  - intros e o count. unfold after_collision. split.
    + apply (WithUI_resolve_immovable e b o count). exact Hi.
    + apply (WithUI_resolve_immovable e o b count). exact Hi.
  - intros Hv Hin e steps balls k Hk.
    destruct (Forall2_nth_error _ _ _ k b (Plain_run_stays_put e steps balls) Hk)
      as (b' & Hk' & _ & _ & Hkeep).
    exists b'. split; [exact Hk' |]. apply Hkeep.
    split; [exact Hi |]. split; assumption.
  - intros Hv Hin e dts o count. unfold after_run. split.
    + destruct (WithUI_run_stays_put e dts (WithUI.mkWorld (b, o) count))
        as [(_ & _ & Hkeep) _].
      apply Hkeep. split; [exact Hi |]. split; assumption.
    + destruct (WithUI_run_stays_put e dts (WithUI.mkWorld (o, b) count))
        as [_ (_ & _ & Hkeep)].
      apply Hkeep. split; [exact Hi |]. split; assumption.
Qed.

Lemma pillar_resting :
  inv_mass pillar = 0 /\ velocity pillar = vzero /\
  within_bounds Plain.WIDTH Plain.HEIGHT pillar /\
  within_bounds WithUI.WIDTH WithUI.HEIGHT pillar.
Proof.
  unfold within_bounds, Plain.WIDTH, Plain.HEIGHT, WithUI.WIDTH, WithUI.HEIGHT.
  simpl. rewrite inverse_of_mass_zero. repeat split; lra.
Qed.

(** The pillar among other balls: two frames of the plain simulation with
    the pillar at index 1, two frames of the UI simulation next to the
    falling ball. *)
Lemma immovable_ball_invariant_witness :
  apply_force (vector2 0 250) pillar = pillar /\
  (exists b',
     nth_error
       (fst (Plain.run 0.85 [(0.016, None); (0.05, Some 0%nat)]
               [falling_ball; pillar; head_on_a])) 1
     = Some b' /\
     position b' = position pillar /\ velocity b' = velocity pillar) /\
  position (fst (after_run 1 [0.016; 0.05] (pillar, falling_ball) 0)) = position pillar /\
  velocity (fst (after_run 1 [0.016; 0.05] (pillar, falling_ball) 0)) = velocity pillar.
Proof.
  destruct pillar_resting as (Hi & Hv & HinP & HinU).
  destruct (immovable_ball_invariant pillar Hi) as (Hf & _ & _ & HP & HU).
  split; [apply Hf |].
  split; [apply (HP Hv HinP); reflexivity |].
  apply (HU Hv HinU 1 [0.016; 0.05] falling_ball 0%nat).
Defined.

(** ** Two scenarios of the design, run on the model *)

Lemma head_on_distance : distance head_on_a head_on_b = 1.5.
Proof.
  unfold distance, dist_sq, length_squared, dist_vec. simpl.
  apply sqrt_lem_1; lra.
Qed.

(** The head-on pair with restitution 1 exchanges its velocities and ends
    up just touching: the centres are [min_dist = 2] apart. *)
Example head_on_exchange :
  velocity (fst (after_collision 1 (head_on_a, head_on_b) 0)) = vector2 (-10) 0 /\
  velocity (snd (after_collision 1 (head_on_a, head_on_b) 0)) = vector2 10 0 /\
  position (fst (after_collision 1 (head_on_a, head_on_b) 0)) = vector2 (-0.25) 0 /\
  position (snd (after_collision 1 (head_on_a, head_on_b) 0)) = vector2 1.75 0.
Proof.
  unfold after_collision.
  rewrite WithUI_resolve_hit by (apply head_on_colliding || apply head_on_total).
  pose proof head_on_closing as Hv. apply Rltb_true in Hv. rewrite Hv.
  cbn [fst WithUI.balls].
  unfold apply_impulse, separate, vel_along, relative_velocity, overlap, normal,
    total_inv_mass, min_dist.
  rewrite head_on_distance.
  unfold dist_vec, head_on_a, head_on_b. simpl.
  rewrite inverse_of_mass_pos by lra.
  unfold dot.
  repeat split; apply vec_eq; simpl; lra.
Qed.

Lemma grounded_forces :
  WithUI.apply_forces grounded_ball = set_acceleration (vector2 0 250) grounded_ball /\
  Plain.apply_forces grounded_ball = set_acceleration (vector2 0 250) grounded_ball.
Proof.
  unfold WithUI.apply_forces, Plain.apply_forces, grounded_ball,
    WithUI.GRAVITY, Plain.GRAVITY.
  eval_balls.
  rewrite !inverse_of_mass_pos by lra.
  destruct (Rlt_dec 0 (1 / 1)); [| lra].
  decide_cmps.
  split; f_equal; apply vec_eq; simpl; lra.
Qed.

(** A ball of mass 1 lying on the ground, one frame with restitution 0:
    gravity drives it into the ground, the wall handling puts it back and
    takes its vertical velocity away (in both simulations). *)
Example ball_resting_on_ground (dt : R) :
  0 < dt ->
  exists ball',
    WithUI.physics_update 0 dt grounded_ball = (ball', None) /\
    Plain.physics_update 0 dt grounded_ball = (ball', None) /\
    position ball' = position grounded_ball /\ vy (velocity ball') = 0.
Proof.
  intros Hdt.
  destruct grounded_forces as [HfU HfP].
  unfold WithUI.physics_update, Plain.physics_update, and_then, modify.
  rewrite HfU, HfP. unfold update.
  destruct (Rlt_dec dt 0); [lra |].
  assert (Hsq : 0 < dt * dt) by nra.
  unfold WithUI.handle_walls, WithUI.wall_y, WithUI.wall_x,
    Plain.handle_walls, Plain.wall_y, Plain.wall_x,
    WithUI.WIDTH, WithUI.HEIGHT, Plain.WIDTH, Plain.HEIGHT, grounded_ball.
  eval_balls. decide_cmps.
  eexists. split; [reflexivity |]. split; [reflexivity |].
  split; [apply vec_eq; simpl; lra | simpl; lra].
Qed.

(** * Further properties of the code *)

(** ** Integration and forces *)

Lemma update_completes (b : Ball) (dt : R) :
  0 <= dt ->
  exists b',
    update dt b = (b', None) /\
    velocity b' = (velocity b + acceleration b *: dt)%vec /\
    position b' = (position b + velocity b' *: dt)%vec /\
    acceleration b' = acceleration b.
Proof.
  intros Hdt. unfold update.
  destruct (Rlt_dec dt 0) as [Hlt | _]; [lra |].
  eexists. split; [reflexivity |]. simpl. repeat split; reflexivity.
Qed.

(** X1. Without acceleration, any number of calls of [update] with time
    steps that are not negative completes and moves the ball by exactly its
    velocity times the total time; the velocity is unchanged. *)
Theorem drift_is_exact (dts : list R) (b : Ball) :
  acceleration b = vzero ->
  Forall (fun dt => 0 <= dt) dts ->
  exists b',
    integrate dts b = (b', None) /\
    velocity b' = velocity b /\
    position b' = (position b + velocity b *: total_time dts)%vec /\
    acceleration b' = vzero.
Proof.
  intros Ha Hdts. revert b Ha.
  induction Hdts as [| dt rest Hdt _ IH]; intros b Ha.
  - exists b. simpl. unfold ret. repeat split; auto.
    apply vec_eq; simpl; ring.
  - destruct (update_completes b dt Hdt) as (b1 & Hb1 & Hv1 & Hp1 & Ha1).
    assert (Hv1' : velocity b1 = velocity b).
    { rewrite Hv1, Ha. apply vec_eq; simpl; ring. }
    destruct (IH b1) as (b' & Hrun & Hv & Hp & Hacc); [congruence |].
    exists b'. cbn [integrate]. unfold and_then. rewrite Hb1.
    split; [exact Hrun |]. split; [congruence |]. split; [| exact Hacc].
    rewrite Hp, Hp1, Hv1'. apply vec_eq; simpl; ring.
Qed.

(** Three sixtieths of a second on the rising ball. *)
Lemma drift_is_exact_witness :
  exists b',
    integrate [1 / 60; 1 / 60; 1 / 60] rising_ball = (b', None) /\
    velocity b' = velocity rising_ball /\
    position b'
    = (position rising_ball + velocity rising_ball *: total_time [1 / 60; 1 / 60; 1 / 60])%vec /\
    acceleration b' = vzero.
Proof.
  apply (drift_is_exact [1 / 60; 1 / 60; 1 / 60] rising_ball).
  - reflexivity.
  - repeat constructor; lra.
Defined.

(** X2. Forces accumulate: applying [f] and then [g] is applying their
    sum, for a movable and for an immovable ball alike. *)
Theorem apply_force_accumulates (f g : Vector2) (b : Ball) :
  apply_force g (apply_force f b) = apply_force (f + g)%vec b.
Proof.
  unfold apply_force.
  destruct (Rlt_dec 0 (inv_mass b)) as [Hpos | Hnot]; simpl.
  - destruct (Rlt_dec 0 (inv_mass b)); [| contradiction].
    unfold set_acceleration. simpl. f_equal. apply vec_eq; simpl; ring.
  - destruct (Rlt_dec 0 (inv_mass b)); [contradiction | reflexivity].
Qed.

Lemma normalize_times_length_squared (v : Vector2) :
  0 < length_squared v ->
  (normalize v *: length_squared v = v *: length v)%vec.
Proof.
  intros Hv. unfold normalize, length.
  assert (Hs : 0 < sqrt (length_squared v)) by (apply sqrt_lt_R0; exact Hv).
  assert (Hss : sqrt (length_squared v) * sqrt (length_squared v) = length_squared v)
    by (apply sqrt_sqrt; lra).
  set (s := sqrt (length_squared v)) in *.
  apply vec_eq; simpl; rewrite <- Hss; field; lra.
Qed.

Lemma length_squared_zero (v : Vector2) : length_squared v <= 0 -> v = vzero.
Proof.
  unfold length_squared. intros H. apply vec_eq; simpl; nra.
Qed.

(** X3. For a ball of finite mass the force step leaves the acceleration
    of free fall, the same for every mass, minus a drag along the velocity
    that grows with the square of the speed:
    [GRAVITY - velocity * (|velocity| * FRICTION / mass)] in the plain
    simulation; in the UI simulation the drag also carries the radius and
    is only applied above the speed threshold. *)
Theorem force_step_acceleration (b : Ball) :
  finite_mass b ->
  acceleration (Plain.apply_forces b)
  = (Plain.GRAVITY
     - velocity b *: (length (velocity b) * Plain.FRICTION / mass b))%vec /\
  (1e-6 < length_squared (velocity b) ->
   acceleration (WithUI.apply_forces b)
   = (WithUI.GRAVITY
      - velocity b
        *: (length (velocity b) * WithUI.FRICTION * radius b / mass b))%vec) /\
  (length_squared (velocity b) <= 1e-6 ->
   acceleration (WithUI.apply_forces b) = WithUI.GRAVITY).
Proof.
  intros [Hm Hi].
  assert (Hpos : 0 < inv_mass b).
  { rewrite Hi. apply Rdiv_lt_0_compat; lra. }
  assert (Hf : forall f acc,
             apply_force f (set_acceleration acc b)
             = set_acceleration (acc + f *: inv_mass b)%vec b).
  { intros f acc. unfold apply_force. simpl.
    destruct (Rlt_dec 0 (inv_mass b)); [reflexivity | contradiction]. }
  split; [| split].
  - unfold Plain.apply_forces. simpl. rewrite Hf. simpl.
    destruct (Rltb 0 (length_squared (velocity b))) eqn:Hv.
    + apply Rltb_true in Hv. rewrite Hf. simpl.
      pose proof (normalize_times_length_squared (velocity b) Hv) as Hn.
      apply (f_equal vx) in Hn as Hnx. apply (f_equal vy) in Hn as Hny.
      simpl in Hnx, Hny. rewrite Hi.
      apply vec_eq; simpl.
      * replace (- (vx (velocity b) / length (velocity b))
                 * length_squared (velocity b))
          with (- (vx (velocity b) / length (velocity b) * length_squared (velocity b)))
          by ring.
        unfold normalize in Hnx. simpl in Hnx. rewrite Hnx. field. lra.
      * replace (- (vy (velocity b) / length (velocity b))
                 * length_squared (velocity b))
          with (- (vy (velocity b) / length (velocity b) * length_squared (velocity b)))
          by ring.
        unfold normalize in Hny. simpl in Hny. rewrite Hny. field. lra.
    + apply Rltb_false in Hv. apply length_squared_zero in Hv.
      simpl. rewrite Hv, Hi. apply vec_eq; simpl; field; lra.
  - intros Hv. unfold WithUI.apply_forces. simpl. rewrite Hf. simpl.
    assert (Hv' : Rltb 1e-6 (length_squared (velocity b)) = true)
      by (apply Rltb_true; exact Hv).
    rewrite Hv', Hf. simpl.
    assert (Hv0 : 0 < length_squared (velocity b)) by lra.
    pose proof (normalize_times_length_squared (velocity b) Hv0) as Hn.
    apply (f_equal vx) in Hn as Hnx. apply (f_equal vy) in Hn as Hny.
    unfold normalize in Hnx, Hny. simpl in Hnx, Hny. rewrite Hi.
    apply vec_eq; simpl.
    + replace (- (vx (velocity b) / length (velocity b))
               * length_squared (velocity b))
        with (- (vx (velocity b) / length (velocity b) * length_squared (velocity b)))
        by ring.
      rewrite Hnx. field. lra.
    + replace (- (vy (velocity b) / length (velocity b))
               * length_squared (velocity b))
        with (- (vy (velocity b) / length (velocity b) * length_squared (velocity b)))
        by ring.
      rewrite Hny. field. lra.
  - intros Hv. unfold WithUI.apply_forces. simpl. rewrite Hf. simpl.
    assert (Hv' : Rltb 1e-6 (length_squared (velocity b)) = false)
      by (apply Rltb_false; exact Hv).
    rewrite Hv'. simpl. rewrite Hi. apply vec_eq; simpl; field; lra.
Qed.

Lemma falling_ball_finite : finite_mass falling_ball.
Proof. unfold finite_mass, falling_ball. simpl. split; [lra | reflexivity]. Qed.

Lemma grounded_ball_finite : finite_mass grounded_ball.
Proof.
  unfold finite_mass, grounded_ball. simpl.
  rewrite inverse_of_mass_pos by lra. split; [lra | reflexivity].
Qed.

(** The falling ball, which is fast enough for the drag of both
    simulations, and the grounded ball, which has no velocity. *)
Lemma force_step_acceleration_witness :
  acceleration (Plain.apply_forces falling_ball)
  = (Plain.GRAVITY
     - velocity falling_ball
       *: (length (velocity falling_ball) * Plain.FRICTION / mass falling_ball))%vec /\
  acceleration (WithUI.apply_forces falling_ball)
  = (WithUI.GRAVITY
     - velocity falling_ball
       *: (length (velocity falling_ball) * WithUI.FRICTION * radius falling_ball
           / mass falling_ball))%vec /\
  acceleration (WithUI.apply_forces grounded_ball) = WithUI.GRAVITY.
Proof.
  destruct (force_step_acceleration falling_ball falling_ball_finite) as (H1 & H2 & _).
  destruct (force_step_acceleration grounded_ball grounded_ball_finite) as (_ & _ & H3).
  split; [exact H1 |]. split.
  - apply H2. unfold length_squared, falling_ball. simpl. lra.
  - apply H3. unfold length_squared, grounded_ball. simpl. lra.
Defined.

(** ** More on the collision blocks *)

(** After the two displacements the centres are exactly [min_dist] apart. *)
Lemma separate_touching (a b : Ball) :
  0 < dist_sq a b -> total_inv_mass a b <> 0 ->
  dist_sq
    (fst (separate (normal a b) (overlap a b) (total_inv_mass a b) (a, b)))
    (snd (separate (normal a b) (overlap a b) (total_inv_mass a b) (a, b)))
  = min_dist a b * min_dist a b.
Proof.
  intros Hd Ht.
  assert (Hs : 0 < distance a b) by (apply sqrt_lt_R0; exact Hd).
  assert (Hss : distance a b * distance a b = dist_sq a b)
    by (apply sqrt_sqrt; lra).
  unfold separate, overlap, normal, total_inv_mass in *.
  unfold dist_sq at 1. unfold length_squared, dist_vec at 1 2 3 4.
  cbn [fst snd position set_position vx vy vadd vsub vscale vdiv].
  unfold dist_sq, length_squared in Hss.
  set (s := distance a b) in *.
  set (d := dist_vec a b) in *.
  assert (Hdx : vx (position b) - vx (position a) = vx d) by reflexivity.
  assert (Hdy : vy (position b) - vy (position a) = vy d) by reflexivity.
  set (md := min_dist a b).
  set (ia := inv_mass a) in *. set (ib := inv_mass b) in *.
  transitivity ((vx d * vx d + vy d * vy d) * (md / s) * (md / s)).
  - rewrite <- Hdx, <- Hdy. unfold d, dist_vec. simpl. field. split; lra.
  - rewrite <- Hss. field. lra.
Qed.

Lemma Plain_resolve_pair_touching (e : R) (a b : Ball) :
  Plain.colliding a b = true -> total_inv_mass a b <> 0 ->
  dist_sq (fst (Plain.resolve_pair e (a, b))) (snd (Plain.resolve_pair e (a, b)))
  = min_dist a b * min_dist a b.
Proof.
  intros Hc Ht.
  rewrite Plain_resolve_pair_hit by assumption.
  pose proof (separate_touching a b (Plain_colliding_dist a b Hc) Ht) as Htouch.
  destruct (Rltb (vel_along (normal a b) a b) 0); exact Htouch.
Qed.

Lemma WithUI_resolve_touching (e : R) (a b : Ball) (count : nat) :
  WithUI.colliding a b = true -> 0 < total_inv_mass a b ->
  dist_sq (fst (after_collision e (a, b) count)) (snd (after_collision e (a, b) count))
  = min_dist a b * min_dist a b.
Proof.
  intros Hc Ht.
  unfold after_collision. rewrite WithUI_resolve_hit by assumption.
  assert (Hne : total_inv_mass a b <> 0) by lra.
  pose proof (separate_touching a b (WithUI_colliding_dist a b Hc) Hne) as Htouch.
  destruct (Rltb (vel_along (normal a b) a b) 0); exact Htouch.
Qed.

(** X4. The collision block leaves a colliding pair just touching: after
    it the squared distance of the centres is [min_dist * min_dist] (plain
    simulation: unless both balls are immovable; UI simulation: if the total
    inverse mass is positive). *)
Theorem resolved_pair_touches (e : R) (a b : Ball) (count : nat) :
  (Plain.colliding a b = true -> total_inv_mass a b <> 0 ->
   dist_sq (fst (Plain.resolve_pair e (a, b))) (snd (Plain.resolve_pair e (a, b)))
   = min_dist a b * min_dist a b) /\
  (WithUI.colliding a b = true -> 0 < total_inv_mass a b ->
   dist_sq (fst (after_collision e (a, b) count)) (snd (after_collision e (a, b) count))
   = min_dist a b * min_dist a b).
Proof.
  split; intros Hc Ht.
  - apply Plain_resolve_pair_touching; assumption.
  - apply WithUI_resolve_touching; assumption.
Qed.

(** The head-on pair ends with its centres two units apart. *)
Lemma resolved_pair_touches_witness :
  dist_sq (fst (Plain.resolve_pair 0.85 (head_on_a, head_on_b)))
    (snd (Plain.resolve_pair 0.85 (head_on_a, head_on_b)))
  = min_dist head_on_a head_on_b * min_dist head_on_a head_on_b /\
  dist_sq (fst (after_collision 1 (head_on_a, head_on_b) 0))
    (snd (after_collision 1 (head_on_a, head_on_b) 0))
  = min_dist head_on_a head_on_b * min_dist head_on_a head_on_b.
Proof.
  destruct (resolved_pair_touches 0.85 head_on_a head_on_b 0) as [HP _].
  destruct (resolved_pair_touches 1 head_on_a head_on_b 0) as [_ HU].
  pose proof head_on_total as Ht.
  split; [apply HP | apply HU]; try apply head_on_colliding; lra.
Defined.

(** Kinetic energy after an impulse along a unit normal: what the pair
    loses is [(1 - e^2) * v^2 / (2 * total)], [v] the closing speed. *)
Lemma apply_impulse_energy e n a b :
  finite_mass a -> finite_mass b -> dot n n = 1 ->
  kinetic_energy
    (apply_impulse e n (vel_along n a b) (total_inv_mass a b) (a, b))
  = kinetic_energy (a, b)
    - (1 - e * e) * (vel_along n a b * vel_along n a b)
      / (2 * total_inv_mass a b).
Proof.
  intros [Hma Hia] [Hmb Hib] Hn.
  assert (Ht : 0 < total_inv_mass a b)
    by (apply finite_mass_total; split; assumption).
  unfold kinetic_energy, apply_impulse, length_squared.
  cbn [fst snd mass velocity set_velocity vx vy vadd vsub vscale].
  unfold total_inv_mass in *. rewrite Hia, Hib in *.
  unfold dot in Hn.
  set (v := vel_along n a b).
  set (T := 1 / mass a + 1 / mass b) in *.
  set (k := - (1 + e) * v / T).
  assert (Hv : v = (vx (velocity b) - vx (velocity a)) * vx n
                   + (vy (velocity b) - vy (velocity a)) * vy n) by reflexivity.
  transitivity
    (1 / 2 * mass a * (vx (velocity a) * vx (velocity a) + vy (velocity a) * vy (velocity a))
     + 1 / 2 * mass b * (vx (velocity b) * vx (velocity b) + vy (velocity b) * vy (velocity b))
     + k * v + k * k / 2 * T * (vx n * vx n + vy n * vy n)).
  - rewrite Hv. unfold T. field. split; lra.
  - rewrite Hn. unfold k. field. lra.
Qed.

Lemma separate_then_impulse_energy e n ovl a b :
  finite_mass a -> finite_mass b -> dot n n = 1 ->
  kinetic_energy
    (apply_impulse e n (vel_along n a b) (total_inv_mass a b)
       (separate n ovl (total_inv_mass a b) (a, b)))
  = kinetic_energy (a, b)
    - (1 - e * e) * (vel_along n a b * vel_along n a b)
      / (2 * total_inv_mass a b).
Proof.
  intros Ha Hb Hn.
  exact (apply_impulse_energy e n
           (fst (separate n ovl (total_inv_mass a b) (a, b)))
           (snd (separate n ovl (total_inv_mass a b) (a, b))) Ha Hb Hn).
Qed.

Lemma energy_loss_sign (e v t : R) :
  0 <= e <= 1 -> 0 < t -> 0 <= (1 - e * e) * (v * v) / (2 * t).
Proof.
  intros He Ht.
  apply Rmult_le_pos; [| left; apply Rinv_0_lt_compat; lra].
  apply Rmult_le_pos; nra.
Qed.

Lemma Plain_resolve_pair_energy e a b :
  finite_mass a -> finite_mass b -> 0 <= e <= 1 ->
  kinetic_energy (Plain.resolve_pair e (a, b)) <= kinetic_energy (a, b) /\
  (e = 1 -> kinetic_energy (Plain.resolve_pair e (a, b)) = kinetic_energy (a, b)).
Proof.
  intros Ha Hb He.
  destruct (Plain.colliding a b) eqn:Hc;
    [| rewrite Plain_resolve_pair_skip by auto; split; [lra | reflexivity]].
  pose proof (finite_mass_total a b Ha Hb) as Ht.
  rewrite Plain_resolve_pair_hit by (auto; lra).
  destruct (Rltb (vel_along (normal a b) a b) 0);
    [| split; [apply Req_le |]; reflexivity].
  rewrite (separate_then_impulse_energy e (normal a b) (overlap a b) a b Ha Hb
             (normal_unit a b (Plain_colliding_dist a b Hc))).
  pose proof (energy_loss_sign e (vel_along (normal a b) a b) _ He Ht) as Hloss.
  split; [lra |].
  intros ->. unfold Rdiv. ring.
Qed.

Lemma WithUI_resolve_energy e a b count :
  finite_mass a -> finite_mass b -> 0 <= e <= 1 ->
  kinetic_energy (after_collision e (a, b) count) <= kinetic_energy (a, b) /\
  (e = 1 -> kinetic_energy (after_collision e (a, b) count) = kinetic_energy (a, b)).
Proof.
  intros Ha Hb He. unfold after_collision.
  destruct (WithUI.colliding a b) eqn:Hc;
    [| rewrite WithUI_resolve_miss by auto; split; [apply Req_le |]; reflexivity].
  pose proof (finite_mass_total a b Ha Hb) as Ht.
  rewrite WithUI_resolve_hit by assumption.
  destruct (Rltb (vel_along (normal a b) a b) 0);
    [| split; [apply Req_le |]; reflexivity].
  cbn [fst WithUI.balls].
  rewrite (separate_then_impulse_energy e (normal a b) (overlap a b) a b Ha Hb
             (normal_unit a b (WithUI_colliding_dist a b Hc))).
  pose proof (energy_loss_sign e (vel_along (normal a b) a b) _ He Ht) as Hloss.
  split; [lra |].
  intros ->. unfold Rdiv. ring.
Qed.

(** X6. For two balls of finite mass and a restitution in [[0,1]] the
    collision block never increases the kinetic energy of the pair, and
    with restitution 1 it keeps it. *)
Theorem collision_never_adds_energy (e : R) (a b : Ball) (count : nat) :
  finite_mass a -> finite_mass b -> 0 <= e <= 1 ->
  (kinetic_energy (Plain.resolve_pair e (a, b)) <= kinetic_energy (a, b) /\
   kinetic_energy (after_collision e (a, b) count) <= kinetic_energy (a, b)) /\
  (e = 1 ->
   kinetic_energy (Plain.resolve_pair e (a, b)) = kinetic_energy (a, b) /\
   kinetic_energy (after_collision e (a, b) count) = kinetic_energy (a, b)).
Proof.
  intros Ha Hb He.
  destruct (Plain_resolve_pair_energy e a b Ha Hb He) as [HP1 HP2].
  destruct (WithUI_resolve_energy e a b count Ha Hb He) as [HU1 HU2].
  split; [split; assumption |].
  intros H1. split; [apply HP2 | apply HU2]; exact H1.
Qed.

(** The head-on pair with the restitution of either simulation. *)
Lemma collision_never_adds_energy_witness :
  kinetic_energy (Plain.resolve_pair 0.85 (head_on_a, head_on_b))
  <= kinetic_energy (head_on_a, head_on_b) /\
  kinetic_energy (after_collision 1 (head_on_a, head_on_b) 0)
  = kinetic_energy (head_on_a, head_on_b).
Proof.
  destruct head_on_finite as [Ha Hb].
  destruct (collision_never_adds_energy 0.85 head_on_a head_on_b 0 Ha Hb) as [[HP _] _];
    [lra |].
  destruct (collision_never_adds_energy 1 head_on_a head_on_b 0 Ha Hb) as [_ HU];
    [lra |].
  split; [exact HP | apply HU; reflexivity].
Defined.

(** X7. The collision block changes velocities only along the contact
    normal: the component of each velocity along the tangent
    [(-normal.y, normal.x)] is the same before and after, in both
    simulations. *)
Theorem tangential_velocity_unchanged (e : R) (a b : Ball) (count : nat) :
  (dot (velocity (fst (Plain.resolve_pair e (a, b)))) (tangent (normal a b))
   = dot (velocity a) (tangent (normal a b)) /\
   dot (velocity (snd (Plain.resolve_pair e (a, b)))) (tangent (normal a b))
   = dot (velocity b) (tangent (normal a b))) /\
  (dot (velocity (fst (after_collision e (a, b) count))) (tangent (normal a b))
   = dot (velocity a) (tangent (normal a b)) /\
   dot (velocity (snd (after_collision e (a, b) count))) (tangent (normal a b))
   = dot (velocity b) (tangent (normal a b))).
Proof.
  unfold after_collision.
  repeat split; collision_cases; simpl; unfold dot, tangent; simpl; ring.
Qed.

Lemma dist_sq_sym a b : dist_sq b a = dist_sq a b.
Proof. unfold dist_sq, length_squared, dist_vec. simpl. ring. Qed.

Lemma min_dist_sym a b : min_dist b a = min_dist a b.
Proof. unfold min_dist. ring. Qed.

Lemma total_inv_mass_sym a b : total_inv_mass b a = total_inv_mass a b.
Proof. unfold total_inv_mass. ring. Qed.

Lemma distance_sym a b : distance b a = distance a b.
Proof. unfold distance. rewrite dist_sq_sym. reflexivity. Qed.

Lemma overlap_sym a b : overlap b a = overlap a b.
Proof. unfold overlap. rewrite min_dist_sym, distance_sym. reflexivity. Qed.

Lemma normal_sym a b : normal b a = (- normal a b)%vec.
Proof.
  unfold normal. rewrite distance_sym.
  apply vec_eq; simpl; unfold Rdiv; ring.
Qed.

Lemma vel_along_sym n a b : vel_along (- n)%vec b a = vel_along n a b.
Proof. unfold vel_along, relative_velocity, dot. simpl. ring. Qed.

Lemma Plain_colliding_sym a b : Plain.colliding b a = Plain.colliding a b.
Proof. unfold Plain.colliding. rewrite dist_sq_sym, min_dist_sym. reflexivity. Qed.

Lemma separate_sym n ovl total a b :
  separate (- n)%vec ovl total (b, a) = swap_pair (separate n ovl total (a, b)).
Proof.
  unfold separate, swap_pair. cbn [fst snd].
  f_equal; unfold set_position; f_equal; apply vec_eq; simpl; ring.
Qed.

Lemma apply_impulse_sym e n v total a b :
  apply_impulse e (- n)%vec v total (b, a)
  = swap_pair (apply_impulse e n v total (a, b)).
Proof.
  unfold apply_impulse, swap_pair. cbn [fst snd].
  f_equal; unfold set_velocity; f_equal; apply vec_eq; simpl; ring.
Qed.

(** X8. The pair block of the plain simulation does not depend on the
    order in which the two balls are taken: on the swapped pair it gives the
    swapped result. *)
Theorem Plain_resolve_pair_symmetric (e : R) (a b : Ball) :
  Plain.resolve_pair e (b, a) = swap_pair (Plain.resolve_pair e (a, b)).
Proof.
  destruct (Plain.colliding a b) eqn:Hc.
  - destruct (Req_dec_T (total_inv_mass a b) 0) as [H0 | Hne].
    + rewrite !Plain_resolve_pair_skip; [reflexivity | auto |].
      right. rewrite total_inv_mass_sym. exact H0.
    + rewrite (Plain_resolve_pair_hit e a b Hc Hne).
      rewrite (Plain_resolve_pair_hit e b a);
        [| rewrite Plain_colliding_sym; exact Hc
         | rewrite total_inv_mass_sym; exact Hne].
      rewrite normal_sym, overlap_sym, total_inv_mass_sym, vel_along_sym.
      rewrite separate_sym.
      destruct (Rltb (vel_along (normal a b) a b) 0); [| reflexivity].
      destruct (separate (normal a b) (overlap a b) (total_inv_mass a b) (a, b))
        as [a1 b1].
      apply apply_impulse_sym.
  - rewrite !Plain_resolve_pair_skip; [reflexivity | auto |].
    left. rewrite Plain_colliding_sym. exact Hc.
Qed.

(** ** More on the walls *)

Lemma Plain_handle_walls_contains (e : R) (b : Ball) :
  2 * radius b <= Plain.WIDTH -> 2 * radius b <= Plain.HEIGHT ->
  within_bounds Plain.WIDTH Plain.HEIGHT (Plain.handle_walls e b).
Proof. unfold within_bounds. intros Hw Hh. walls; repeat split; lra. Qed.

Lemma WithUI_handle_walls_contains (e : R) (b : Ball) :
  2 * radius b <= WithUI.WIDTH -> 2 * radius b + 1 <= WithUI.HEIGHT ->
  within_bounds WithUI.WIDTH WithUI.HEIGHT (WithUI.handle_walls e b).
Proof. unfold within_bounds. intros Hw Hh. walls; repeat split; lra. Qed.

(** X9. For a ball that fits into the world the wall handling is
    idempotent: a ball it has just handled is inside and is not touched
    again, so its velocity is not reflected a second time. *)
Theorem handle_walls_idempotent (e : R) (b : Ball) :
  (2 * radius b <= Plain.WIDTH -> 2 * radius b <= Plain.HEIGHT ->
   Plain.handle_walls e (Plain.handle_walls e b) = Plain.handle_walls e b) /\
  (2 * radius b <= WithUI.WIDTH -> 2 * radius b + 1 <= WithUI.HEIGHT ->
   WithUI.handle_walls e (WithUI.handle_walls e b) = WithUI.handle_walls e b).
Proof.
  split; intros Hw Hh.
  - apply Plain_handle_walls_inside, Plain_handle_walls_contains; assumption.
  - apply WithUI_handle_walls_inside, WithUI_handle_walls_contains; assumption.
Qed.

(** The returning ball, handled twice. *)
Lemma handle_walls_idempotent_witness :
  Plain.handle_walls 0.85 (Plain.handle_walls 0.85 returning_ball)
  = Plain.handle_walls 0.85 returning_ball /\
  WithUI.handle_walls 1 (WithUI.handle_walls 1 returning_ball)
  = WithUI.handle_walls 1 returning_ball.
Proof.
  split.
  - apply (handle_walls_idempotent 0.85 returning_ball);
      unfold Plain.WIDTH, Plain.HEIGHT; simpl; lra.
  - apply (handle_walls_idempotent 1 returning_ball);
      unfold WithUI.WIDTH, WithUI.HEIGHT; simpl; lra.
Defined.

Lemma reflected_square (v e : R) : 0 <= e <= 1 -> (v * - e) * (v * - e) <= v * v.
Proof.
  intros He.
  assert (H : e * e <= 1) by nra.
  assert (Hv : 0 <= v * v) by nra.
  replace (v * - e * (v * - e)) with (v * v * (e * e)) by ring.
  nra.
Qed.

(** X10. With a restitution in [[0,1]] the wall handling never makes a ball
    faster: neither velocity component grows in magnitude (squares are
    compared), whatever the position of the ball. *)
Theorem walls_never_speed_up (e : R) (b : Ball) :
  0 <= e <= 1 ->
  (vx (velocity (Plain.handle_walls e b)) * vx (velocity (Plain.handle_walls e b))
   <= vx (velocity b) * vx (velocity b) /\
   vy (velocity (Plain.handle_walls e b)) * vy (velocity (Plain.handle_walls e b))
   <= vy (velocity b) * vy (velocity b)) /\
  (vx (velocity (WithUI.handle_walls e b)) * vx (velocity (WithUI.handle_walls e b))
   <= vx (velocity b) * vx (velocity b) /\
   vy (velocity (WithUI.handle_walls e b)) * vy (velocity (WithUI.handle_walls e b))
   <= vy (velocity b) * vy (velocity b)).
Proof.
  intros He.
  pose proof (reflected_square (vx (velocity b)) e He) as Hx.
  pose proof (reflected_square (vy (velocity b)) e He) as Hy.
  unfold Plain.handle_walls, WithUI.handle_walls,
    Plain.wall_y, Plain.wall_x, WithUI.wall_y, WithUI.wall_x.
  repeat split; repeat case_cmp; simpl; lra.
Qed.

(** The sinking ball at the ground of both simulations. *)
Lemma walls_never_speed_up_witness :
  vy (velocity (Plain.handle_walls 0.85 sinking_ball))
  * vy (velocity (Plain.handle_walls 0.85 sinking_ball))
  <= vy (velocity sinking_ball) * vy (velocity sinking_ball) /\
  vy (velocity (WithUI.handle_walls 1 sinking_ball))
  * vy (velocity (WithUI.handle_walls 1 sinking_ball))
  <= vy (velocity sinking_ball) * vy (velocity sinking_ball).
Proof.
  destruct (walls_never_speed_up 0.85 sinking_ball) as [[_ HP] _]; [lra |].
  destruct (walls_never_speed_up 1 sinking_ball) as [_ [_ HU]]; [lra |].
  split; assumption.
Defined.

(** ** Whole runs *)

Lemma same_body_refl b : same_body b b.
Proof. unfold same_body. auto. Qed.

Lemma same_body_trans b1 b2 b3 :
  same_body b1 b2 -> same_body b2 b3 -> same_body b1 b3.
Proof.
  unfold same_body. intros (H1 & H2 & H3 & H4) (H5 & H6 & H7 & H8).
  repeat split; congruence.
Qed.

Lemma update_same_body dt b : same_body b (fst (update dt b)).
Proof. unfold update, raise, same_body. destruct (Rlt_dec dt 0); simpl; auto. Qed.

Lemma apply_force_same_body f b : same_body b (apply_force f b).
Proof.
  unfold apply_force, same_body. destruct (Rlt_dec 0 (inv_mass b)); simpl; auto.
Qed.

Lemma Plain_apply_forces_same_body b : same_body b (Plain.apply_forces b).
Proof.
  unfold Plain.apply_forces.
  destruct (Rltb 0 _).
  - eapply same_body_trans; [| apply apply_force_same_body].
    eapply same_body_trans; [| apply apply_force_same_body].
    unfold same_body; simpl; auto.
  - eapply same_body_trans; [| apply apply_force_same_body].
    unfold same_body; simpl; auto.
Qed.

Lemma WithUI_apply_forces_same_body b : same_body b (WithUI.apply_forces b).
Proof.
  unfold WithUI.apply_forces.
  destruct (Rltb 1e-6 _).
  - eapply same_body_trans; [| apply apply_force_same_body].
    eapply same_body_trans; [| apply apply_force_same_body].
    unfold same_body; simpl; auto.
  - eapply same_body_trans; [| apply apply_force_same_body].
    unfold same_body; simpl; auto.
Qed.

Lemma Plain_handle_walls_same_body e b : same_body b (Plain.handle_walls e b).
Proof.
  unfold same_body, Plain.handle_walls, Plain.wall_y, Plain.wall_x.
  repeat case_cmp; simpl; auto.
Qed.

Lemma WithUI_handle_walls_same_body e b : same_body b (WithUI.handle_walls e b).
Proof.
  unfold same_body, WithUI.handle_walls, WithUI.wall_y, WithUI.wall_x.
  repeat case_cmp; simpl; auto.
Qed.

Lemma Plain_physics_update_same_body e dt b :
  same_body b (fst (Plain.physics_update e dt b)).
Proof.
  unfold Plain.physics_update, and_then, modify.
  pose proof (update_same_body dt (Plain.apply_forces b)) as Hu.
  destruct (update dt (Plain.apply_forces b)) as [b2 [ex |]]; cbn [fst] in *.
  - eapply same_body_trans; [apply Plain_apply_forces_same_body | exact Hu].
  - eapply same_body_trans; [apply Plain_apply_forces_same_body |].
    eapply same_body_trans; [exact Hu | apply Plain_handle_walls_same_body].
Qed.

Lemma WithUI_physics_update_same_body e dt b :
  same_body b (fst (WithUI.physics_update e dt b)).
Proof.
  unfold WithUI.physics_update, and_then, modify.
  pose proof (update_same_body dt (WithUI.apply_forces b)) as Hu.
  destruct (update dt (WithUI.apply_forces b)) as [b2 [ex |]]; cbn [fst] in *.
  - eapply same_body_trans; [apply WithUI_apply_forces_same_body | exact Hu].
  - eapply same_body_trans; [apply WithUI_apply_forces_same_body |].
    eapply same_body_trans; [exact Hu | apply WithUI_handle_walls_same_body].
Qed.

Lemma Plain_resolve_pair_same_body e a b :
  same_body a (fst (Plain.resolve_pair e (a, b))) /\
  same_body b (snd (Plain.resolve_pair e (a, b))).
Proof. unfold same_body. collision_cases; simpl; auto 10. Qed.

Lemma WithUI_resolve_same_body e a b count :
  same_body a (fst (after_collision e (a, b) count)) /\
  same_body b (snd (after_collision e (a, b) count)).
Proof. unfold same_body, after_collision. collision_cases; simpl; auto 10. Qed.

Lemma physics_update_completes e dt b :
  0 <= dt ->
  snd (Plain.physics_update e dt b) = None /\
  snd (WithUI.physics_update e dt b) = None.
Proof.
  intros Hdt.
  unfold Plain.physics_update, WithUI.physics_update, and_then, modify, update.
  destruct (Rlt_dec dt 0); [lra |]. split; reflexivity.
Qed.

Lemma physics_update_raises e dt b :
  dt < 0 ->
  snd (Plain.physics_update e dt b) = Some ValueError /\
  snd (WithUI.physics_update e dt b) = Some ValueError.
Proof.
  intros Hdt.
  unfold Plain.physics_update, WithUI.physics_update, and_then, modify, update, raise.
  destruct (Rlt_dec dt 0); [| lra]. split; reflexivity.
Qed.

Section PlainLoops.

Variable rel : Ball -> Ball -> Prop.
Hypothesis rel_refl : forall b, rel b b.
Hypothesis rel_trans : forall b1 b2 b3, rel b1 b2 -> rel b2 b3 -> rel b1 b3.
Hypothesis rel_physics :
  forall e dt b, rel b (fst (Plain.physics_update e dt b)).
Hypothesis rel_pair :
  forall e a b,
    rel a (fst (Plain.resolve_pair e (a, b))) /\
    rel b (snd (Plain.resolve_pair e (a, b))).

Lemma Plain_physics_loop_keeps e dt dragging i balls :
  Forall2 rel balls (fst (Plain.physics_loop e dt dragging i balls)).
Proof.
  revert i. induction balls as [| ball rest IH]; intros i; simpl.
  - constructor.
  - specialize (IH (S i)).
    pose proof (rel_physics e dt ball) as Hb.
    destruct (match dragging with Some d => Nat.eqb d i | None => false end).
    + destruct (Plain.physics_loop e dt dragging (S i) rest) as [rest' ex].
      cbn [fst] in *. constructor; [apply rel_refl | exact IH].
    + destruct (Plain.physics_update e dt ball) as [ball' [ex |]]; cbn [fst] in *.
      * constructor; [exact Hb | apply Forall2_same, rel_refl].
      * destruct (Plain.physics_loop e dt dragging (S i) rest) as [rest' ex].
        cbn [fst] in *. constructor; assumption.
Qed.

Lemma Plain_collide_at_keeps e i j balls :
  Forall2 rel balls (Plain.collide_at e i j balls).
Proof.
  unfold Plain.collide_at.
  destruct (nth_error balls i) as [a |] eqn:Hi; [| apply Forall2_same, rel_refl].
  destruct (nth_error balls j) as [b |] eqn:Hj; [| apply Forall2_same, rel_refl].
  destruct (rel_pair e a b) as [Ha Hb].
  destruct (Plain.resolve_pair e (a, b)) as [a' b']. cbn [fst snd] in *.
  apply (Forall2_list_set _ _ _ j b b'); [| exact Hj | exact Hb].
  apply (Forall2_list_set _ _ _ i a a'); [| exact Hi | exact Ha].
  apply Forall2_same, rel_refl.
Qed.

Lemma Plain_collision_loop_keeps e balls :
  Forall2 rel balls (Plain.collision_loop e balls).
Proof.
  unfold Plain.collision_loop.
  apply (fold_left_keeps (Forall2 rel)).
  - intros l. apply Forall2_same, rel_refl.
  - intros l1 l2 l3. apply Forall2_chain, rel_trans.
  - intros l i.
    apply (fold_left_keeps (Forall2 rel)).
    + intros l0. apply Forall2_same, rel_refl.
    + intros l1 l2 l3. apply Forall2_chain, rel_trans.
    + intros l0 j. apply Plain_collide_at_keeps.
Qed.

Lemma Plain_frame_keeps e dt dragging balls :
  Forall2 rel balls (fst (Plain.frame e dt dragging balls)).
Proof.
  unfold Plain.frame.
  apply (and_then_keeps (Forall2 rel)).
  - intros l1 l2 l3. apply Forall2_chain, rel_trans.
  - apply Plain_physics_loop_keeps.
  - intros l. unfold modify. cbn [fst]. apply Plain_collision_loop_keeps.
Qed.

Lemma Plain_run_keeps e steps balls :
  Forall2 rel balls (fst (Plain.run e steps balls)).
Proof.
  revert balls. induction steps as [| [dt dragging] rest IH]; intros balls.
  - simpl. apply Forall2_same, rel_refl.
  - cbn [Plain.run].
    apply (and_then_keeps (Forall2 rel)).
    + intros l1 l2 l3. apply Forall2_chain, rel_trans.
    + apply Plain_frame_keeps.
    + exact IH.
Qed.

End PlainLoops.

Lemma Forall2_same_length {A : Type} (rel : A -> A -> Prop) (l l' : list A) :
  Forall2 rel l l' -> List.length l' = List.length l.
Proof. induction 1; simpl; congruence. Qed.

Lemma WithUI_frame_same_body e dt a b count :
  same_body a (fst (WithUI.balls (fst (WithUI.frame e dt (WithUI.mkWorld (a, b) count)))))
  /\
  same_body b (snd (WithUI.balls (fst (WithUI.frame e dt (WithUI.mkWorld (a, b) count))))).
Proof.
  unfold WithUI.frame, and_then, WithUI.on_ball_a, WithUI.on_ball_b.
  cbn [WithUI.balls WithUI.collision_count fst snd].
  pose proof (WithUI_physics_update_same_body e dt a) as Ha.
  destruct (WithUI.physics_update e dt a) as [a1 [ex |]]; cbn [fst snd] in *.
  - cbn [WithUI.balls fst snd]. split; [exact Ha | apply same_body_refl].
  - cbn [WithUI.balls WithUI.collision_count fst snd].
    pose proof (WithUI_physics_update_same_body e dt b) as Hb.
    destruct (WithUI.physics_update e dt b) as [b1 [ex |]]; cbn [fst snd] in *.
    + cbn [WithUI.balls fst snd]. split; assumption.
    + destruct (WithUI_resolve_same_body e a1 b1 count) as [Ha2 Hb2].
      unfold after_collision in Ha2, Hb2.
      split; eapply same_body_trans; eassumption.
Qed.

Lemma WithUI_run_same_body e dts a b count :
  same_body a (fst (after_run e dts (a, b) count)) /\
  same_body b (snd (after_run e dts (a, b) count)).
Proof.
  unfold after_run. revert a b count.
  induction dts as [| dt rest IH]; intros a b count.
  - simpl. split; apply same_body_refl.
  - cbn [WithUI.run]. unfold and_then.
    destruct (WithUI_frame_same_body e dt a b count) as [Ha Hb].
    destruct (WithUI.frame e dt (WithUI.mkWorld (a, b) count)) as [[[a1 b1] c1] [ex |]];
      cbn [fst snd WithUI.balls] in *.
    + split; assumption.
    + destruct (IH a1 b1 c1) as [Ha2 Hb2].
      split; eapply same_body_trans; eassumption.
Qed.

(** X11. The set of bodies is fixed: whatever the frames, a run of either
    simulation leaves as many balls as it found, each with the radius,
    mass, inverse mass and colour it had (also when an exception stops the
    run). *)
Theorem run_keeps_bodies (e : R) :
  (forall steps balls,
     List.length (fst (Plain.run e steps balls)) = List.length balls /\
     Forall2 same_body balls (fst (Plain.run e steps balls))) /\
  (forall dts a b count,
     same_body a (fst (after_run e dts (a, b) count)) /\
     same_body b (snd (after_run e dts (a, b) count))).
Proof.
  split.
  - intros steps balls.
    assert (H : Forall2 same_body balls (fst (Plain.run e steps balls))).
    { apply Plain_run_keeps.
      - apply same_body_refl.
      - apply same_body_trans.
      - apply Plain_physics_update_same_body.
      - apply Plain_resolve_pair_same_body. }
    split; [apply (Forall2_same_length _ _ _ H) | exact H].
  - intros dts a b count. apply WithUI_run_same_body.
Qed.

(** ** Exceptions of a run *)

Lemma Plain_physics_loop_completes e dt dragging i balls :
  0 <= dt -> snd (Plain.physics_loop e dt dragging i balls) = None.
Proof.
  intros Hdt. revert i. induction balls as [| ball rest IH]; intros i; simpl.
  - reflexivity.
  - specialize (IH (S i)).
    destruct (physics_update_completes e dt ball Hdt) as [Hb _].
    destruct (match dragging with Some d => Nat.eqb d i | None => false end).
    + destruct (Plain.physics_loop e dt dragging (S i) rest) as [rest' ex].
      exact IH.
    + destruct (Plain.physics_update e dt ball) as [ball' ex]. cbn [snd] in Hb.
      subst ex.
      destruct (Plain.physics_loop e dt dragging (S i) rest) as [rest' ex].
      exact IH.
Qed.

(** With a negative time step the loop stops at the first ball that is not
    dragged; it completes only if there is none. *)
Lemma Plain_physics_loop_raises e dt dragging i balls :
  dt < 0 ->
  (snd (Plain.physics_loop e dt dragging i balls) = Some ValueError /\
   exists k, (k < List.length balls)%nat /\ dragging <> Some (i + k)%nat)
  \/
  (snd (Plain.physics_loop e dt dragging i balls) = None /\
   forall k, (k < List.length balls)%nat -> dragging = Some (i + k)%nat).
Proof.
  intros Hdt. revert i. induction balls as [| ball rest IH]; intros i; simpl.
  - right. split; [reflexivity | intros k Hk; lia].
  - destruct (physics_update_raises e dt ball Hdt) as [Hb _].
    destruct (match dragging with Some d => Nat.eqb d i | None => false end) eqn:Hd.
    + assert (Hdi : dragging = Some i).
      { destruct dragging as [d |]; [| discriminate].
        apply Nat.eqb_eq in Hd. congruence. }
      destruct (IH (S i)) as [[Hex (k & Hk & Hne)] | [Hex Hall]];
        destruct (Plain.physics_loop e dt dragging (S i) rest) as [rest' ex];
        cbn [snd] in *.
      * left. split; [exact Hex |].
        exists (S k). split; [lia |].
        replace (i + S k)%nat with (S i + k)%nat by lia. exact Hne.
      * right. split; [exact Hex |].
        intros [| k] Hk.
        -- rewrite Nat.add_0_r. exact Hdi.
        -- replace (i + S k)%nat with (S i + k)%nat by lia. apply Hall. lia.
    + left.
      destruct (Plain.physics_update e dt ball) as [ball' ex]. cbn [snd] in Hb.
      subst ex. split; [reflexivity |].
      exists 0%nat. split; [lia |]. rewrite Nat.add_0_r.
      destruct dragging as [d |]; [| discriminate].
      intros Heq. inversion Heq; subst d.
      rewrite Nat.eqb_refl in Hd. discriminate.
Qed.

Lemma Plain_frame_completes e dt dragging balls :
  0 <= dt -> snd (Plain.frame e dt dragging balls) = None.
Proof.
  intros Hdt. unfold Plain.frame, and_then, modify.
  pose proof (Plain_physics_loop_completes e dt dragging 0 balls Hdt) as H.
  destruct (Plain.physics_loop e dt dragging 0 balls) as [balls' ex].
  cbn [snd] in H. subst ex. reflexivity.
Qed.

Lemma Plain_run_completes e steps balls :
  Forall (fun step => 0 <= fst step) steps ->
  snd (Plain.run e steps balls) = None.
Proof.
  intros Hsteps. revert balls.
  induction Hsteps as [| [dt dragging] rest Hdt _ IH]; intros balls.
  - reflexivity.
  - cbn [Plain.run]. unfold and_then.
    pose proof (Plain_frame_completes e dt dragging balls Hdt) as H.
    destruct (Plain.frame e dt dragging balls) as [balls' ex].
    cbn [snd] in H. subst ex. apply IH.
Qed.

Lemma time_step_range (ms : nat) : 0 <= time_step ms <= 0.05.
Proof.
  unfold time_step.
  assert (H : 0 <= INR ms / 1000).
  { apply Rmult_le_pos; [apply pos_INR | lra]. }
  unfold Rmin. destruct (Rle_dec (INR ms / 1000) 0.05); lra.
Qed.

(** X12. A frame of the plain simulation raises exactly when its time step
    is negative and some ball is not dragged, and then it raises
    [ValueError]; in every other case it completes. *)
Theorem Plain_frame_raises_iff (e dt : R) (dragging : option nat) (balls : list Ball) :
  (snd (Plain.frame e dt dragging balls) = Some ValueError <->
   dt < 0 /\ exists k, (k < List.length balls)%nat /\ dragging <> Some k) /\
  (snd (Plain.frame e dt dragging balls) = None \/
   snd (Plain.frame e dt dragging balls) = Some ValueError).
Proof.
  destruct (Rlt_dec dt 0) as [Hneg | Hpos].
  - pose proof (Plain_physics_loop_raises e dt dragging 0 balls Hneg) as H.
    unfold Plain.frame, and_then, modify.
    destruct (Plain.physics_loop e dt dragging 0 balls) as [balls' ex].
    cbn [snd] in *.
    destruct H as [[-> (k & Hk & Hne)] | [-> Hall]]; cbn [snd].
    + split; [| right; reflexivity].
      split; [intros _; split; [exact Hneg | exists k; auto] | reflexivity].
    + split; [| left; reflexivity].
      split; [discriminate |].
      intros (_ & k & Hk & Hne). exfalso. apply Hne. apply (Hall k Hk).
  - rewrite Plain_frame_completes by lra.
    split; [| left; reflexivity].
    split; [discriminate | intros [Hlt _]; lra].
Qed.

(** X13. The time step that both loops compute from the clock lies in
    [[0, 0.05]], so a run of the plain simulation driven by the clock never
    raises, whatever the balls and whichever ball is dragged. *)
Theorem clocked_run_never_raises (e : R) (ticks : list (nat * option nat))
    (balls : list Ball) :
  Forall (fun step => 0 <= fst step <= 0.05) (clocked ticks) /\
  snd (Plain.run e (clocked ticks) balls) = None.
Proof.
  assert (H : Forall (fun step => 0 <= fst step <= 0.05) (clocked ticks)).
  { unfold clocked. apply Forall_forall. intros step Hin.
    apply in_map_iff in Hin as (t & <- & _). apply time_step_range. }
  split; [exact H |].
  apply Plain_run_completes.
  apply Forall_forall. intros step Hin.
  rewrite Forall_forall in H. apply (H step Hin).
Qed.

Lemma WithUI_frame_completes e dt a b count :
  0 <= dt -> 0 < total_inv_mass a b ->
  snd (WithUI.frame e dt (WithUI.mkWorld (a, b) count)) = None.
Proof.
  intros Hdt Ht.
  unfold WithUI.frame, and_then, WithUI.on_ball_a, WithUI.on_ball_b.
  cbn [WithUI.balls WithUI.collision_count fst snd].
  destruct (physics_update_completes e dt a Hdt) as [_ Ha].
  pose proof (WithUI_physics_update_same_body e dt a) as (_ & _ & Hia & _).
  destruct (WithUI.physics_update e dt a) as [a1 ea]. cbn [fst snd] in *. subst ea.
  cbn [WithUI.balls WithUI.collision_count fst snd].
  destruct (physics_update_completes e dt b Hdt) as [_ Hb].
  pose proof (WithUI_physics_update_same_body e dt b) as (_ & _ & Hib & _).
  destruct (WithUI.physics_update e dt b) as [b1 eb]. cbn [fst snd] in *. subst eb.
  assert (Ht1 : 0 < total_inv_mass a1 b1).
  { unfold total_inv_mass in *. rewrite Hia, Hib. exact Ht. }
  destruct (WithUI.colliding a1 b1) eqn:Hc.
  - rewrite WithUI_resolve_hit by assumption.
    destruct (Rltb (vel_along (normal a1 b1) a1 b1) 0); reflexivity.
  - rewrite WithUI_resolve_miss by assumption. reflexivity.
Qed.

Lemma WithUI_run_completes e dts a b count :
  Forall (fun dt => 0 <= dt) dts -> 0 < total_inv_mass a b ->
  snd (WithUI.run e dts (WithUI.mkWorld (a, b) count)) = None.
Proof.
  intros Hdts. revert a b count.
  induction Hdts as [| dt rest Hdt _ IH]; intros a b count Ht.
  - reflexivity.
  - cbn [WithUI.run]. unfold and_then.
    pose proof (WithUI_frame_completes e dt a b count Hdt Ht) as Hf.
    destruct (WithUI_frame_same_body e dt a b count) as [(_ & _ & Hia & _) (_ & _ & Hib & _)].
    destruct (WithUI.frame e dt (WithUI.mkWorld (a, b) count)) as [[[a1 b1] c1] ex].
    cbn [fst snd WithUI.balls] in *. subst ex.
    apply IH. unfold total_inv_mass in *. rewrite Hia, Hib. exact Ht.
Qed.

(** X14. A run of the UI simulation with time steps that are not negative
    never raises as long as the total inverse mass of its two balls is
    positive (in particular for two balls of finite mass): neither
    [ValueError] from the integration nor [ZeroDivisionError] from the
    impulse. *)
Theorem WithUI_run_never_raises (e : R) (dts : list R) (a b : Ball) (count : nat) :
  Forall (fun dt => 0 <= dt) dts -> 0 < total_inv_mass a b ->
  snd (WithUI.run e dts (WithUI.mkWorld (a, b) count)) = None.
Proof. apply WithUI_run_completes. Qed.

(** The head-on pair, two frames. *)
Lemma WithUI_run_never_raises_witness :
  snd (WithUI.run 1 [0.016; 0.05] (WithUI.mkWorld (head_on_a, head_on_b) 0)) = None.
Proof.
  apply (WithUI_run_never_raises 1 [0.016; 0.05] head_on_a head_on_b 0).
  - repeat constructor; lra.
  - exact head_on_total.
Defined.

(** A negative time step on a ball that is not dragged. *)
Lemma Plain_frame_raises_iff_witness :
  snd (Plain.frame 0.85 (-1) None [falling_ball]) = Some ValueError.
Proof.
  apply (Plain_frame_raises_iff 0.85 (-1) None [falling_ball]).
  split; [lra |]. exists 0%nat. split; [simpl; lia | discriminate].
Defined.

(** ** Start of the UI simulation *)








(** ** Set-up of the plain simulation *)

Lemma Plain_Ball_init_ok x y r c m v a :
  is_numeric x = true -> is_numeric y = true ->
  is_numeric r = true -> 0 < to_float r ->
  is_numeric m = true -> 0 < to_float m ->
  fits_double x = true -> fits_double y = true ->
  fits_double r = true -> fits_double m = true ->
  Plain.Ball_init x y r c m (AsVector v) (AsVector a)
  = inl (new_ball x y r c m v a).
Proof.
  intros Hx Hy Hr Hr0 Hm Hm0 Fx Fy Fr Fm. unfold Plain.Ball_init.
  rewrite Hx, Hy, Hr, Hm. simpl.
  apply Rleb_false in Hr0. rewrite Hr0.
  apply Rleb_false in Hm0. rewrite Hm0.
  apply init_fields_ok; assumption.
Qed.

Lemma uniform_range (a b u : R) :
  a <= b -> 0 <= u < 1 -> a <= Spawn.uniform a b u <= b.
Proof. unfold Spawn.uniform. intros Hab Hu. split; nra. Qed.

Lemma spawn_ball_well_spawned (d : Spawn.Draws) :
  Spawn.possible d ->
  exists b, Spawn.spawn_ball d = inl b /\ well_spawned b.
Proof.
  intros (Hr & Hx & Hy & Hc & Hvx & Hvy).
  unfold Spawn.spawn_ball.
  set (r := Spawn.uniform Spawn.MIN_RADIUS Spawn.MAX_RADIUS (Spawn.u_radius d)).
  assert (Hrr : 10 <= r <= 25).
  { apply uniform_range; [unfold Spawn.MIN_RADIUS, Spawn.MAX_RADIUS; lra | exact Hr]. }
  assert (Hxx : r <= Spawn.uniform r (Plain.WIDTH - r) (Spawn.u_x d) <= Plain.WIDTH - r).
  { apply uniform_range; [unfold Plain.WIDTH; lra | exact Hx]. }
  assert (Hyy : r <= Spawn.uniform r (Plain.HEIGHT - r) (Spawn.u_y d) <= Plain.HEIGHT - r).
  { apply uniform_range; [unfold Plain.HEIGHT; lra | exact Hy]. }
  assert (Hm : 0 < PI * r ^ 2).
  { apply Rmult_lt_0_compat; [apply PI_RGT_0 | nra]. }
  rewrite Plain_Ball_init_ok; try reflexivity; try (simpl; lra).
  eexists. split; [reflexivity |].
  unfold well_spawned, within_bounds, finite_mass, new_ball.
  cbn [radius position velocity acceleration mass inv_mass color to_float vx vy].
  rewrite inverse_of_mass_pos by exact Hm.
  unfold Spawn.MIN_RADIUS, Spawn.MAX_RADIUS.
  split; [exact Hrr |]. split; [repeat split; lra |].
  split; [split; [exact Hm | reflexivity] |].
  split; [reflexivity |].
  split; [apply uniform_range; [unfold Spawn.MAX_INITIAL_SPEED; lra | exact Hvx] |].
  split; [apply uniform_range; [unfold Spawn.MAX_INITIAL_SPEED; lra | exact Hvy] |].
  split; [reflexivity |].
  apply nth_In. exact Hc.
Qed.

(** X16. Whatever the random generator draws, the set-up loop of the plain
    simulation raises nothing and builds one ball per pass; every ball has a
    radius in [[10, 25]], lies within the bounds of the window, has the
    finite mass [pi * radius^2] with its inverse, velocity components in
    [[-150, 150]], no acceleration and one of the six colours. *)
Theorem spawn_balls_well_spawned (draws : list Spawn.Draws) :
  Forall Spawn.possible draws ->
  exists bs,
    Spawn.spawn_balls draws = inl bs /\
    List.length bs = List.length draws /\
    Forall well_spawned bs.
Proof.
  induction 1 as [| d rest Hd _ IH].
  - exists []. simpl. auto.
  - destruct (spawn_ball_well_spawned d Hd) as (b & Hb & Hwell).
    destruct IH as (bs & Hbs & Hlen & Hall).
    exists (b :: bs). cbn [Spawn.spawn_balls]. rewrite Hb, Hbs.
    split; [reflexivity |]. split; [simpl; congruence |].
    constructor; assumption.
Qed.

Lemma some_draws_possible : Forall Spawn.possible some_draws.
Proof.
  unfold some_draws, Spawn.possible.
  repeat (apply Forall_cons; [simpl; repeat split; try lra; lia |]).
  apply Forall_nil.
Qed.

Lemma spawn_balls_well_spawned_witness :
  exists bs,
    Spawn.spawn_balls some_draws = inl bs /\
    List.length bs = List.length some_draws /\
    Forall well_spawned bs.
Proof. apply (spawn_balls_well_spawned some_draws). exact some_draws_possible. Defined.

(** ** Dragging a ball with the pointer *)

Lemma nth_error_list_set_same {A : Type} (i : nat) (v x : A) (l : list A) :
  nth_error l i = Some x -> nth_error (list_set i v l) i = Some v.
Proof.
  revert i. induction l as [| h t IH]; intros [| i] H; simpl in *;
    try discriminate; auto.
Qed.

Lemma nth_error_list_set_other {A : Type} (i j : nat) (v : A) (l : list A) :
  j <> i -> nth_error (list_set i v l) j = nth_error l j.
Proof.
  revert i j. induction l as [| h t IH]; intros [| i] [| j] H; simpl;
    try reflexivity; try congruence.
  apply IH. congruence.
Qed.

Lemma find_ball_first p i0 bs i :
  Events.find_ball p i0 bs = Some i ->
  exists k ball,
    i = (i0 + k)%nat /\ nth_error bs k = Some ball /\ under_pointer p ball /\
    forall j b, (j < k)%nat -> nth_error bs j = Some b -> ~ under_pointer p b.
Proof.
  revert i0. induction bs as [| ball rest IH]; intros i0 H; simpl in H.
  - discriminate.
  - destruct (Rleb (length (p - position ball)%vec) (radius ball)) eqn:Hhit.
    + inversion H; subst i. exists 0%nat, ball.
      apply Rleb_true in Hhit.
      split; [lia |]. split; [reflexivity |]. split; [exact Hhit |].
      intros j b Hj; lia.
    + apply Rleb_false in Hhit.
      destruct (IH (S i0) H) as (k & b & -> & Hk & Hunder & Hfirst).
      exists (S k), b.
      split; [lia |]. split; [exact Hk |]. split; [exact Hunder |].
      intros [| j] b' Hj Hnth; simpl in Hnth.
      * inversion Hnth; subst b'. unfold under_pointer. lra.
      * apply (Hfirst j b'); [lia | exact Hnth].
Qed.

Lemma find_ball_finds p i0 bs k ball :
  nth_error bs k = Some ball -> under_pointer p ball ->
  (forall j b, (j < k)%nat -> nth_error bs j = Some b -> ~ under_pointer p b) ->
  Events.find_ball p i0 bs = Some (i0 + k)%nat.
Proof.
  revert i0 k. induction bs as [| h rest IH]; intros i0 [| k] Hk Hu Hfirst;
    simpl in *; try discriminate.
  - inversion Hk; subst h.
    apply Rleb_true in Hu. rewrite Hu. f_equal. lia.
  - assert (Hh : ~ under_pointer p h) by (apply (Hfirst 0%nat h); [lia | reflexivity]).
    unfold under_pointer in Hh.
    assert (Hmiss : Rleb (length (p - position h)%vec) (radius h) = false)
      by (apply Rleb_false; lra).
    rewrite Hmiss. rewrite (IH (S i0) k Hk Hu).
    + f_equal. lia.
    + intros j b Hj Hnth. apply (Hfirst (S j) b); [lia | exact Hnth].
Qed.

Lemma find_ball_none p i0 bs :
  (forall b, In b bs -> ~ under_pointer p b) ->
  Events.find_ball p i0 bs = None.
Proof.
  revert i0. induction bs as [| h rest IH]; intros i0 H; simpl.
  - reflexivity.
  - assert (Hh : ~ under_pointer p h) by (apply H; left; reflexivity).
    unfold under_pointer in Hh.
    assert (Hmiss : Rleb (length (p - position h)%vec) (radius h) = false)
      by (apply Rleb_false; lra).
    rewrite Hmiss. apply IH. intros b Hb. apply H. right. exact Hb.
Qed.

(** X17. A press of the left button grabs the first ball, in the order of
    the list, whose disc contains the pointer: that ball is stopped where it
    is, the offset of its centre from the pointer is remembered, and every
    other ball is left alone.  A press on empty space changes nothing. *)
Theorem press_grabs_first_ball (p : Vector2) (st : Events.Loop) :
  (forall i ball,
     nth_error (Events.balls st) i = Some ball -> under_pointer p ball ->
     (forall j b, (j < i)%nat -> nth_error (Events.balls st) j = Some b ->
                  ~ under_pointer p b) ->
     Events.handle_event (Events.MOUSEBUTTONDOWN 1 p) st
     = (Events.mkLoop (list_set i (set_velocity vzero ball) (Events.balls st))
          (Events.running st) (Some i) (position ball - p)%vec (Some p)
          (Events.dt st), None)) /\
  ((forall b, In b (Events.balls st) -> ~ under_pointer p b) ->
   Events.handle_event (Events.MOUSEBUTTONDOWN 1 p) st = (st, None)).
Proof.
  split.
  - intros i ball Hi Hu Hfirst. cbn [Events.handle_event].
    unfold Events.on_mouse_down.
    rewrite (find_ball_finds p 0 (Events.balls st) i ball Hi Hu Hfirst).
    cbn [Nat.add]. rewrite Hi. reflexivity.
  - intros Hnone. cbn [Events.handle_event]. unfold Events.on_mouse_down.
    rewrite (find_ball_none p 0 (Events.balls st) Hnone). reflexivity.
Qed.

Lemma handle_events_app evs1 evs2 st :
  Events.handle_events (evs1 ++ evs2) st =
  match Events.handle_events evs1 st with
  | (st1, None) => Events.handle_events evs2 st1
  | (st1, Some e) => (st1, Some e)
  end.
Proof.
  revert st. induction evs1 as [| ev rest IH]; intros st; simpl.
  - reflexivity.
  - destruct (Events.handle_event ev st) as [st1 [e |]]; [reflexivity | apply IH].
Qed.

(** A pointer motion keeps the grip: the held ball is put at the same
    offset from the new pointer position, and nothing else changes. *)
Lemma motion_keeps_grip i m q st :
  held i m st ->
  exists st',
    Events.handle_event (Events.MOUSEMOTION q) st = (st', None) /\
    held i q st' /\
    Events.drag_offset st' = Events.drag_offset st /\
    Events.dt st' = Events.dt st /\
    Events.running st' = Events.running st /\
    others_untouched i st st' /\
    (forall b b', nth_error (Events.balls st) i = Some b ->
                  nth_error (Events.balls st') i = Some b' ->
                  velocity b' = velocity b).
Proof.
  intros (Hd & Hl & ball & Hball & Hpos).
  cbn [Events.handle_event]. unfold Events.on_mouse_motion. rewrite Hd, Hball.
  eexists. split; [reflexivity |].
  cbn [Events.dragging_ball Events.last_mouse_pos Events.balls Events.drag_offset
       Events.dt Events.running].
  split.
  { split; [reflexivity |]. split; [reflexivity |].
    eexists. split; [apply (nth_error_list_set_same _ _ ball); exact Hball |].
    reflexivity. }
  repeat (split; [reflexivity |]).
  split.
  - intros j Hj. apply nth_error_list_set_other. exact Hj.
  - intros b b' Hb Hb'.
    rewrite (nth_error_list_set_same _ _ ball _ Hball) in Hb'.
    inversion Hb'; subst b'. inversion Hb; subst b.
    reflexivity.
Qed.

Lemma last_cons {A : Type} (q : A) (rest : list A) (m : A) :
  last (q :: rest) m = last rest q.
Proof.
  revert q m. induction rest as [| a r IH]; intros q m.
  - reflexivity.
  - change (last (q :: a :: r) m) with (last (a :: r) m).
    rewrite (IH a m), (IH a q). reflexivity.
Qed.

Lemma motions_keep_grip i path :
  forall m st,
    held i m st ->
    exists st',
      Events.handle_events (map Events.MOUSEMOTION path) st = (st', None) /\
      held i (last path m) st' /\
      Events.drag_offset st' = Events.drag_offset st /\
      Events.dt st' = Events.dt st /\
      Events.running st' = Events.running st /\
      others_untouched i st st' /\
      (forall b b', nth_error (Events.balls st) i = Some b ->
                    nth_error (Events.balls st') i = Some b' ->
                    velocity b' = velocity b).
Proof.
  induction path as [| q rest IH]; intros m st Hheld.
  - exists st. simpl. repeat (split; [first [reflexivity | assumption] |]).
    split; [intros j _; reflexivity |].
    intros b b' Hb Hb'. congruence.
  - destruct (motion_keeps_grip i m q st Hheld)
      as (st1 & Hev & Hheld1 & Hoff1 & Hdt1 & Hrun1 & Hothers1 & Hvel1).
    destruct (IH q st1 Hheld1)
      as (st' & Hevs & Hheld' & Hoff' & Hdt' & Hrun' & Hothers' & Hvel').
    exists st'. cbn [map Events.handle_events]. rewrite Hev.
    split; [exact Hevs |].
    split; [rewrite last_cons; exact Hheld' |].
    split; [congruence |]. split; [congruence |]. split; [congruence |].
    split.
    + intros j Hj. rewrite (Hothers' j Hj). apply Hothers1. exact Hj.
    + intros b b' Hb Hb'.
      destruct Hheld1 as (_ & _ & b1 & Hb1 & _).
      rewrite (Hvel' b1 b' Hb1 Hb'). apply (Hvel1 b b1 Hb Hb1).
Qed.

Lemma press_holds p st i ball :
  nth_error (Events.balls st) i = Some ball -> under_pointer p ball ->
  (forall j b, (j < i)%nat -> nth_error (Events.balls st) j = Some b ->
               ~ under_pointer p b) ->
  exists st0,
    Events.handle_event (Events.MOUSEBUTTONDOWN 1 p) st = (st0, None) /\
    held i p st0 /\
    Events.drag_offset st0 = (position ball - p)%vec /\
    Events.dt st0 = Events.dt st /\
    Events.running st0 = Events.running st /\
    others_untouched i st st0 /\
    nth_error (Events.balls st0) i = Some (set_velocity vzero ball).
Proof.
  intros Hi Hu Hfirst. cbn [Events.handle_event]. unfold Events.on_mouse_down.
  rewrite (find_ball_finds p 0 (Events.balls st) i ball Hi Hu Hfirst).
  cbn [Nat.add]. rewrite Hi.
  eexists. split; [reflexivity |].
  pose proof (nth_error_list_set_same i (set_velocity vzero ball) ball _ Hi) as Hset.
  unfold held, others_untouched.
  cbn [Events.dragging_ball Events.last_mouse_pos Events.balls Events.drag_offset
       Events.dt Events.running].
  split.
  { split; [reflexivity |]. split; [reflexivity |].
    exists (set_velocity vzero ball). split; [exact Hset |].
    apply vec_eq; simpl; ring. }
  repeat (split; [reflexivity |]).
  split; [| exact Hset].
  intros j Hj. apply nth_error_list_set_other. exact Hj.
Qed.

Lemma Rmax_tiny_pos (d : R) : 0 < Rmax d 1e-6.
Proof.
  assert (H : 1e-6 <= Rmax d 1e-6) by apply Rmax_r. lra.
Qed.

Lemma release_throws i m q d st :
  held i m st -> Events.dt st = Some d ->
  exists st',
    Events.handle_event (Events.MOUSEBUTTONUP 1 q) st = (st', None) /\
    Events.dragging_ball st' = None /\ Events.last_mouse_pos st' = None /\
    Events.dt st' = Some d /\
    others_untouched i st st' /\
    exists ball ball',
      nth_error (Events.balls st) i = Some ball /\
      nth_error (Events.balls st') i = Some ball' /\
      position ball' = position ball /\
      velocity ball' = ((q - m) /: Rmax d 1e-6)%vec.
Proof.
  intros (Hd & Hl & ball & Hball & Hpos) Hdt.
  cbn [Events.handle_event]. unfold Events.on_mouse_up.
  rewrite Hd, Hl, Hdt, Hball.
  eexists. split; [reflexivity |].
  cbn [Events.dragging_ball Events.last_mouse_pos Events.balls Events.dt].
  repeat (split; [reflexivity |]).
  split.
  - intros j Hj. cbn [Events.balls]. apply nth_error_list_set_other. exact Hj.
  - exists ball. eexists. split; [reflexivity |].
    split; [apply (nth_error_list_set_same _ _ ball); exact Hball |].
    split; reflexivity.
Qed.

(** X18. A whole drag in one batch of events, after the first frame: a
    press on a ball, pointer motions, a release.  No exception is raised,
    the other balls are not touched, and the ball ends at the last pointer
    position of the motions, shifted by the offset at which it was grabbed,
    with the velocity [(release position - last motion position) /
    max(dt, 1e-6)]; the divisor is positive.  Released where the pointer
    last moved, the ball is left at rest. *)
Theorem drag_gesture (st : Events.Loop) (p q : Vector2) (path : list Vector2)
    (i : nat) (ball : Ball) (d : R) :
  nth_error (Events.balls st) i = Some ball -> under_pointer p ball ->
  (forall j b, (j < i)%nat -> nth_error (Events.balls st) j = Some b ->
               ~ under_pointer p b) ->
  Events.dt st = Some d ->
  exists st',
    Events.handle_events (gesture p path q) st = (st', None) /\
    Events.dragging_ball st' = None /\ Events.last_mouse_pos st' = None /\
    others_untouched i st st' /\
    0 < Rmax d 1e-6 /\
    exists ball',
      nth_error (Events.balls st') i = Some ball' /\
      position ball' = (last path p + (position ball - p))%vec /\
      velocity ball' = ((q - last path p) /: Rmax d 1e-6)%vec /\
      (q = last path p -> velocity ball' = vzero).
Proof.
  intros Hi Hu Hfirst Hdt.
  destruct (press_holds p st i ball Hi Hu Hfirst)
    as (st0 & Hev0 & Hheld0 & Hoff0 & Hdt0 & _ & Hoth0 & _).
  destruct (motions_keep_grip i path p st0 Hheld0)
    as (st1 & Hev1 & Hheld1 & Hoff1 & Hdt1 & _ & Hoth1 & _).
  assert (Hdt1' : Events.dt st1 = Some d) by congruence.
  destruct (release_throws i (last path p) q d st1 Hheld1 Hdt1')
    as (st' & Hev' & Hdrag' & Hlast' & _ & Hoth' & b1 & ball' & Hb1 & Hball' & Hpos' & Hvel').
  exists st'. unfold gesture.
  change (Events.MOUSEBUTTONDOWN 1 p
          :: map Events.MOUSEMOTION path ++ [Events.MOUSEBUTTONUP 1 q])
    with ([Events.MOUSEBUTTONDOWN 1 p]
          ++ (map Events.MOUSEMOTION path ++ [Events.MOUSEBUTTONUP 1 q])).
  rewrite handle_events_app. cbn [Events.handle_events]. rewrite Hev0.
  rewrite handle_events_app, Hev1. cbn [Events.handle_events]. rewrite Hev'.
  split; [reflexivity |]. split; [exact Hdrag' |]. split; [exact Hlast' |].
  split.
  { intros j Hj. rewrite (Hoth' j Hj), (Hoth1 j Hj). apply Hoth0. exact Hj. }
  split; [apply Rmax_tiny_pos |].
  exists ball'. split; [exact Hball' |].
  destruct Hheld1 as (_ & _ & b1' & Hb1' & Hpos1).
  assert (b1' = b1) by congruence. subst b1'.
  split; [rewrite Hpos', Hpos1, Hoff1, Hoff0; reflexivity |].
  split; [exact Hvel' |].
  intros ->. rewrite Hvel'. apply vec_eq; simpl; unfold Rdiv; ring.
Qed.

Lemma under_pointer_by_squares p b :
  0 <= radius b ->
  length_squared (p - position b)%vec <= radius b * radius b ->
  under_pointer p b.
Proof.
  intros Hr Hsq. unfold under_pointer, length.
  rewrite <- (sqrt_square (radius b) Hr).
  apply sqrt_le_1_alt. exact Hsq.
Qed.

Lemma not_under_pointer_by_squares p b :
  0 <= radius b ->
  radius b * radius b < length_squared (p - position b)%vec ->
  ~ under_pointer p b.
Proof.
  intros Hr Hsq. unfold under_pointer, length.
  assert (H : sqrt (radius b * radius b) < sqrt (length_squared (p - position b)%vec)).
  { apply sqrt_lt_1_alt. split; [nra | exact Hsq]. }
  rewrite (sqrt_square (radius b) Hr) in H.
  lra.
Qed.

(** The pointer at (410, 300) is on the pillar and not on the falling ball. *)
Lemma pointer_on_pillar :
  nth_error (Events.balls running_loop) 1 = Some pillar /\
  under_pointer (vector2 410 300) pillar /\
  (forall j b, (j < 1)%nat -> nth_error (Events.balls running_loop) j = Some b ->
               ~ under_pointer (vector2 410 300) b).
Proof.
  split; [reflexivity |]. split.
  - apply under_pointer_by_squares; unfold length_squared, pillar; simpl; lra.
  - intros j b Hj Hb. assert (j = 0%nat) by lia. subst j.
    simpl in Hb. inversion Hb; subst b.
    apply not_under_pointer_by_squares; unfold length_squared, falling_ball; simpl; lra.
Qed.

Lemma press_grabs_first_ball_witness :
  Events.handle_event (Events.MOUSEBUTTONDOWN 1 (vector2 410 300)) running_loop
  = (Events.mkLoop (list_set 1 (set_velocity vzero pillar) (Events.balls running_loop))
       (Events.running running_loop) (Some 1%nat)
       (position pillar - vector2 410 300)%vec (Some (vector2 410 300))
       (Events.dt running_loop), None).
Proof.
  destruct pointer_on_pillar as (Hi & Hu & Hfirst).
  apply (press_grabs_first_ball (vector2 410 300) running_loop); assumption.
Defined.

(** The pillar, dragged from (410, 300) over (500, 350) to (600, 400) and
    released there. *)
Lemma drag_gesture_witness :
  exists st',
    Events.handle_events
      (gesture (vector2 410 300) [vector2 500 350; vector2 600 400] (vector2 600 400))
      running_loop = (st', None) /\
    exists ball',
      nth_error (Events.balls st') 1 = Some ball' /\
      position ball'
      = (vector2 600 400 + (position pillar - vector2 410 300))%vec /\
      velocity ball' = vzero.
Proof.
  destruct pointer_on_pillar as (Hi & Hu & Hfirst).
  destruct (drag_gesture running_loop (vector2 410 300) (vector2 600 400)
              [vector2 500 350; vector2 600 400] 1 pillar 0.016 Hi Hu Hfirst eq_refl)
    as (st' & Hev & _ & _ & _ & _ & ball' & Hball' & Hpos & _ & Hrest).
  exists st'. split; [exact Hev |].
  exists ball'. split; [exact Hball' |]. split; [exact Hpos |].
  apply Hrest. reflexivity.
Defined.

(** X19. Before the first frame has assigned [dt], a release of a grabbed
    ball reads an unassigned local variable: a press on a ball, any pointer
    motions and a release in the first batch of events stop the loop with
    [UnboundLocalError], the ball still grabbed. *)
Theorem release_before_first_frame (st : Events.Loop) (p q : Vector2)
    (path : list Vector2) (i : nat) (ball : Ball) :
  nth_error (Events.balls st) i = Some ball -> under_pointer p ball ->
  (forall j b, (j < i)%nat -> nth_error (Events.balls st) j = Some b ->
               ~ under_pointer p b) ->
  Events.dt st = None ->
  exists st',
    Events.handle_events (gesture p path q) st = (st', Some Events.UnboundLocalError) /\
    Events.dragging_ball st' = Some i.
Proof.
  intros Hi Hu Hfirst Hdt.
  destruct (press_holds p st i ball Hi Hu Hfirst)
    as (st0 & Hev0 & Hheld0 & _ & Hdt0 & _).
  destruct (motions_keep_grip i path p st0 Hheld0)
    as (st1 & Hev1 & Hheld1 & _ & Hdt1 & _).
  exists st1. unfold gesture.
  change (Events.MOUSEBUTTONDOWN 1 p
          :: map Events.MOUSEMOTION path ++ [Events.MOUSEBUTTONUP 1 q])
    with ([Events.MOUSEBUTTONDOWN 1 p]
          ++ (map Events.MOUSEMOTION path ++ [Events.MOUSEBUTTONUP 1 q])).
  rewrite handle_events_app. cbn [Events.handle_events]. rewrite Hev0.
  rewrite handle_events_app, Hev1. cbn [Events.handle_events Events.handle_event].
  destruct Hheld1 as (Hd1 & Hl1 & _).
  unfold Events.on_mouse_up. rewrite Hd1, Hl1.
  replace (Events.dt st1) with (@None R) by congruence.
  split; reflexivity.
Qed.

Lemma release_before_first_frame_witness :
  exists st',
    Events.handle_events
      (gesture (vector2 410 300) [] (vector2 410 300))
      (Events.initial [falling_ball; pillar])
    = (st', Some Events.UnboundLocalError) /\
    Events.dragging_ball st' = Some 1%nat.
Proof.
  destruct pointer_on_pillar as (Hi & Hu & Hfirst).
  apply (release_before_first_frame (Events.initial [falling_ball; pillar])
           (vector2 410 300) (vector2 410 300) [] 1 pillar Hi Hu Hfirst eq_refl).
Defined.

(** ** The loop of the plain simulation *)

(** An event never raises once [dt] is assigned; it keeps [dt], and it can
    only ever switch [running] off. *)
Lemma handle_event_safe ev st d :
  Events.dt st = Some d ->
  exists st',
    Events.handle_event ev st = (st', None) /\ Events.dt st' = Some d /\
    (Events.running st' = true -> Events.running st = true) /\
    (ev = Events.QUIT \/ ev = Events.KEYDOWN Events.K_ESCAPE ->
     Events.running st' = false).
Proof.
  intros Hdt.
  destruct ev as [| [|] | [| [| button]] pos | [| [| button]] pos | pos |];
    cbn [Events.handle_event];
    try (exists st; repeat split; auto;
         intros [H | H]; discriminate H).
  - exists (Events.stop st). repeat split; auto; discriminate.
  - exists (Events.stop st). repeat split; auto; discriminate.
  - eexists. split; [reflexivity |].
    unfold Events.on_mouse_down.
    destruct (Events.find_ball pos 0 (Events.balls st)) as [i |];
      [destruct (nth_error (Events.balls st) i) |]; cbn [Events.dt Events.running];
      repeat split; auto; intros [H | H]; discriminate H.
  - unfold Events.on_mouse_up. rewrite Hdt.
    destruct (Events.dragging_ball st) as [i |];
      [destruct (Events.last_mouse_pos st) as [l |] |];
      (eexists; split; [reflexivity |]; cbn [Events.dt Events.running];
       repeat split; auto; intros [H | H]; discriminate H).
  - eexists. split; [reflexivity |].
    unfold Events.on_mouse_motion.
    destruct (Events.dragging_ball st) as [i |]; cbn [Events.dt Events.running];
      repeat split; auto; intros [H | H]; discriminate H.
Qed.

(** Whatever the state, the only exception of an event is the unassigned
    [dt]. *)
Lemma handle_event_exn ev st ex :
  snd (Events.handle_event ev st) = Some ex ->
  ex = Events.UnboundLocalError /\ Events.dt st = None.
Proof.
  destruct (Events.dt st) as [d |] eqn:Hdt.
  - destruct (handle_event_safe ev st d Hdt) as (st' & -> & _). discriminate.
  - destruct ev as [| [|] | [| [| button]] pos | [| [| button]] pos | pos |];
      cbn [Events.handle_event snd]; try discriminate.
    unfold Events.on_mouse_up. rewrite Hdt.
    destruct (Events.dragging_ball st) as [i |];
      [destruct (Events.last_mouse_pos st) as [l |] |]; cbn [snd];
      try discriminate.
    intros H. inversion H. auto.
Qed.

Lemma handle_events_safe evs st d :
  Events.dt st = Some d ->
  exists st',
    Events.handle_events evs st = (st', None) /\ Events.dt st' = Some d /\
    (Events.running st' = true -> Events.running st = true) /\
    ((In Events.QUIT evs \/ In (Events.KEYDOWN Events.K_ESCAPE) evs) ->
     Events.running st' = false).
Proof.
  revert st. induction evs as [| ev rest IH]; intros st Hdt.
  - exists st. simpl. repeat split; auto. intros [[] | []].
  - destruct (handle_event_safe ev st d Hdt) as (st1 & Hev & Hdt1 & Hmono1 & Hquit1).
    destruct (IH st1 Hdt1) as (st' & Hevs & Hdt' & Hmono' & Hquit').
    exists st'. cbn [Events.handle_events]. rewrite Hev.
    split; [exact Hevs |]. split; [exact Hdt' |].
    split; [auto |].
    intros Hin.
    destruct (Events.running st') eqn:Hrun; [| reflexivity].
    exfalso.
    assert (Hrun1 : Events.running st1 = true) by (apply Hmono'; reflexivity).
    destruct Hin as [[Heq | Hin] | [Heq | Hin]].
    + rewrite Hquit1 in Hrun1 by (left; auto). discriminate Hrun1.
    + discriminate (Hquit' (or_introl Hin)).
    + rewrite Hquit1 in Hrun1 by (right; auto). discriminate Hrun1.
    + discriminate (Hquit' (or_intror Hin)).
Qed.

Lemma handle_events_exn evs st ex :
  snd (Events.handle_events evs st) = Some ex ->
  ex = Events.UnboundLocalError /\ Events.dt st = None.
Proof.
  destruct (Events.dt st) as [d |] eqn:Hdt.
  - destruct (handle_events_safe evs st d Hdt) as (st' & -> & _). discriminate.
  - revert st Hdt. induction evs as [| ev rest IH]; intros st Hdt; simpl.
    + discriminate.
    + destruct (Events.handle_event ev st) as [st1 [e |]] eqn:Hev; cbn [snd].
      * intros H. inversion H; subst e.
        pose proof (handle_event_exn ev st ex) as Hex. rewrite Hev in Hex.
        destruct (Hex eq_refl) as [-> _]. auto.
      * intros H.
        destruct (Events.dt st1) as [d1 |] eqn:Hdt1.
        -- destruct (handle_events_safe rest st1 d1 Hdt1) as (st' & Heq & _).
           rewrite Heq in H. discriminate.
        -- destruct (IH st1 Hdt1 H) as [-> _]. auto.
Qed.

(** An iteration whose events do not raise completes and assigns [dt]. *)
Lemma iteration_after_events e evs ms st st1 :
  Events.handle_events evs st = (st1, None) ->
  exists st',
    Events.iteration e evs ms st = (st', None) /\
    Events.dt st' = Some (time_step ms) /\
    Events.running st' = Events.running st1.
Proof.
  intros Hev. unfold Events.iteration. rewrite Hev.
  pose proof (Plain_frame_completes e (time_step ms) (Events.dragging_ball st1)
                (Events.balls st1) (proj1 (time_step_range ms))) as Hf.
  destruct (Plain.frame e (time_step ms) (Events.dragging_ball st1) (Events.balls st1))
    as [bs ex]. cbn [snd] in Hf. subst ex.
  eexists. split; [reflexivity |]. split; reflexivity.
Qed.

Lemma loop_safe e frames :
  forall st d, Events.dt st = Some d -> snd (loop e frames st) = None.
Proof.
  induction frames as [| [evs ms] rest IH]; intros st d Hdt; simpl.
  - reflexivity.
  - destruct (Events.running st); [| reflexivity].
    destruct (handle_events_safe evs st d Hdt) as (st1 & Hev & _).
    destruct (iteration_after_events e evs ms st st1 Hev) as (st' & Hit & Hdt' & _).
    rewrite Hit. apply (IH st' _ Hdt').
Qed.

(** X20. The loop of the plain simulation can raise only in its first
    iteration, and only [UnboundLocalError] from the events: once a frame
    has assigned [dt], no batch of events and no clock tick makes it raise;
    in particular the physics never raises, since the time step computed
    from the clock is not negative. *)
Theorem loop_raises_only_in_first_batch (e : R)
    (frames : list (list Events.event * nat)) (st : Events.Loop) :
  (forall d, Events.dt st = Some d -> snd (loop e frames st) = None) /\
  (snd (loop e frames st) = None \/
   snd (loop e frames st) = Some Events.UnboundLocalError /\
   Events.dt st = None /\
   exists evs ms rest,
     frames = (evs, ms) :: rest /\
     snd (Events.handle_events evs st) = Some Events.UnboundLocalError).
Proof.
  split; [intros d Hdt; apply (loop_safe e frames st d Hdt) |].
  destruct frames as [| [evs ms] rest]; [left; reflexivity |].
  cbn [loop].
  destruct (Events.running st); [| left; reflexivity].
  destruct (Events.handle_events evs st) as [st1 [ex |]] eqn:Hev.
  - right.
    pose proof (handle_events_exn evs st ex) as Hex. rewrite Hev in Hex.
    destruct (Hex eq_refl) as [-> Hdt].
    unfold Events.iteration. rewrite Hev. cbn [snd].
    split; [reflexivity |]. split; [exact Hdt |].
    exists evs, ms, rest. split; [reflexivity |]. rewrite Hev. reflexivity.
  - left.
    destruct (iteration_after_events e evs ms st st1 Hev) as (st' & Hit & Hdt' & _).
    rewrite Hit. apply (loop_safe e rest st' _ Hdt').
Qed.

Lemma loop_raises_only_in_first_batch_witness :
  snd (loop 0.85
         [([Events.MOUSEBUTTONDOWN 1 (vector2 410 300); Events.MOUSEMOTION (vector2 0 0)], 16%nat);
          ([Events.MOUSEBUTTONUP 1 (vector2 5 5)], 70%nat)]
         running_loop) = None.
Proof.
  apply (loop_raises_only_in_first_batch 0.85 _ running_loop) with (d := 0.016).
  reflexivity.
Defined.





(** X22. The physics loop does not touch the dragged ball: no forces, no
    integration, no wall handling; the ball at the dragged index comes out
    exactly as it went in (only the pair loop may still move it). *)
Theorem physics_loop_skips_dragged (e dt : R) (i : nat) (balls : list Ball) :
  nth_error (fst (Plain.physics_loop e dt (Some i) 0 balls)) i = nth_error balls i.
Proof.
  assert (H : forall i0 k bs,
             nth_error (fst (Plain.physics_loop e dt (Some (i0 + k)%nat) i0 bs)) k
             = nth_error bs k).
  { intros i0 k bs. revert i0 k.
    induction bs as [| ball rest IH]; intros i0 k; simpl.
    - reflexivity.
    - destruct (Nat.eqb (i0 + k) i0) eqn:Heq.
      + apply Nat.eqb_eq in Heq. assert (k = 0%nat) by lia. subst k.
        destruct (Plain.physics_loop e dt (Some (i0 + 0)%nat) (S i0) rest).
        reflexivity.
      + apply Nat.eqb_neq in Heq.
        destruct k as [| k]; [lia |].
        specialize (IH (S i0) k).
        replace (S i0 + k)%nat with (i0 + S k)%nat in IH by lia.
        destruct (Plain.physics_update e dt ball) as [ball' [ex |]]; cbn [fst].
        * reflexivity.
        * destruct (Plain.physics_loop e dt (Some (i0 + S k)%nat) (S i0) rest)
            as [rest' ex]. cbn [fst] in *. exact IH. }
  apply (H 0%nat i balls).
Qed.

(** ** The input screen *)

Section InputScreen.

Import Ascii String.
Local Open Scope string_scope.

Variable pyfloat : string -> option R.
Variable isdigit : string -> bool.
Hypothesis isdigit_plain : UI.plain_digits isdigit.

Lemma count_append c s u : UI.count c (s ++ u) = (UI.count c s + UI.count c u)%nat.
Proof. induction s as [| c' s IH]; simpl; [reflexivity | rewrite IH; lia]. Qed.

Lemma contains_append c s u :
  UI.contains c (s ++ u) = UI.contains c s || UI.contains c u.
Proof.
  induction s as [| c' s IH]; simpl; [reflexivity |].
  rewrite IH. apply orb_assoc.
Qed.

Lemma count_zero c s : UI.contains c s = false -> UI.count c s = 0%nat.
Proof.
  induction s as [| c' s IH]; simpl; [reflexivity |].
  intros H. apply orb_false_iff in H as [H1 H2].
  rewrite H1, (IH H2). reflexivity.
Qed.

Lemma count_drop_last c s : (UI.count c (UI.drop_last s) <= UI.count c s)%nat.
Proof.
  induction s as [| c' s IH]; [simpl; lia |].
  destruct s as [| c'' s']; [simpl; lia |].
  change (UI.drop_last (String c' (String c'' s')))
    with (String c' (UI.drop_last (String c'' s'))).
  cbn [UI.count] in *. lia.
Qed.

Lemma contains_drop_last c s :
  UI.contains c s = false -> UI.contains c (UI.drop_last s) = false.
Proof.
  induction s as [| c' s IH]; [reflexivity |].
  destruct s as [| c'' s']; [reflexivity |].
  change (UI.drop_last (String c' (String c'' s')))
    with (String c' (UI.drop_last (String c'' s'))).
  cbn [UI.contains] in *. intros H.
  apply orb_false_iff in H as [H1 H2].
  rewrite H1, (IH H2). reflexivity.
Qed.

(** Backspace keeps the text numeric. *)
Lemma numeric_text_drop_last s : UI.numeric_text s -> UI.numeric_text (UI.drop_last s).
Proof.
  intros [Hdots Hminus]. split.
  - pose proof (count_drop_last "." s). lia.
  - destruct s as [| c s]; [exact I |].
    destruct s as [| c' s']; [exact I |].
    change (UI.drop_last (String c (String c' s')))
      with (String c (UI.drop_last (String c' s'))).
    apply contains_drop_last. exact Hminus.
Qed.

(** So does every character that the filter lets through. *)
Lemma numeric_text_typed v u :
  UI.numeric_text v ->
  isdigit u || (String.eqb u "-" && String.eqb v "")
  || (String.eqb u "." && negb (UI.contains "." v)) = true ->
  UI.numeric_text (v ++ u).
Proof.
  intros [Hdots Hminus] Hok.
  apply orb_true_iff in Hok as [Hok | Hdec];
    [apply orb_true_iff in Hok as [Hdig | Hneg] |].
  - destruct (isdigit_plain u Hdig) as [Hnm Hnd].
    split.
    + rewrite count_append, (count_zero _ _ Hnd). lia.
    + destruct v as [| c v]; simpl.
      * destruct u as [| cu u]; [exact I |].
        simpl in Hnm. apply orb_false_iff in Hnm as [_ Hnm]. exact Hnm.
      * rewrite contains_append, Hminus, Hnm. reflexivity.
  - apply andb_true_iff in Hneg as [Hu Hv].
    apply String.eqb_eq in Hu, Hv. subst u v. split; simpl; [lia | reflexivity].
  - apply andb_true_iff in Hdec as [Hu Hv].
    apply String.eqb_eq in Hu. subst u.
    apply negb_true_iff in Hv.
    split.
    + rewrite count_append, (count_zero _ _ Hv). simpl. lia.
    + destruct v as [| c v]; simpl; [reflexivity |].
      rewrite contains_append, Hminus. reflexivity.
Qed.

Lemma dict_get_present {V : Type} (d : UI.Dict V) (k : string) :
  In k (map fst d) -> exists v, UI.dict_get d k = Some v /\ In (k, v) d.
Proof.
  induction d as [| [k' v'] d IH]; simpl; [intros [] |].
  intros Hin. destruct (String.eqb k' k) eqn:Heq.
  - apply String.eqb_eq in Heq. subst k'. exists v'. auto.
  - destruct Hin as [Hk | Hin]; [subst k'; rewrite String.eqb_refl in Heq; discriminate |].
    destruct (IH Hin) as (v & Hv & Hiv). exists v. auto.
Qed.

Lemma dict_set_keys {V : Type} (d : UI.Dict V) (k : string) (v : V) :
  In k (map fst d) -> map fst (UI.dict_set d k v) = map fst d.
Proof.
  induction d as [| [k' v'] d IH]; simpl; [intros [] |].
  intros Hin. destruct (String.eqb k' k) eqn:Heq; simpl; [reflexivity |].
  destruct Hin as [Hk | Hin]; [subst k'; rewrite String.eqb_refl in Heq; discriminate |].
  rewrite (IH Hin). reflexivity.
Qed.

Lemma dict_set_Forall {V : Type} (P : V -> Prop) (d : UI.Dict V) (k : string) (v : V) :
  Forall (fun kv => P (snd kv)) d -> P v ->
  Forall (fun kv => P (snd kv)) (UI.dict_set d k v).
Proof.
  intros Hd Hv. induction Hd as [| [k' v'] d Hkv Hd IH]; simpl.
  - constructor; [exact Hv | constructor].
  - destruct (String.eqb k' k); constructor; auto.
Qed.

Lemma next_key_in_keys active shift :
  In active UI.input_keys_ordered ->
  In (UI.next_key active shift) UI.input_keys_ordered.
Proof.
  intros Hin. unfold UI.input_keys_ordered in Hin. simpl in Hin.
  destruct shift;
    repeat (destruct Hin as [<- | Hin]; [vm_compute; tauto |]);
    destruct Hin.
Qed.

Lemma six_items {V : Type} (d : UI.Dict V) :
  map fst d = UI.input_keys_ordered ->
  exists v1 v2 v3 v4 v5 v6,
    d = [("mass1", v1); ("vel1x", v2); ("vel1y", v3);
         ("mass2", v4); ("vel2x", v5); ("vel2y", v6)].
Proof.
  unfold UI.input_keys_ordered. intros H.
  destruct d as [| [k1 v1] [| [k2 v2] [| [k3 v3] [| [k4 v4] [| [k5 v5] [| [k6 v6] [| ? ?]]]]]]];
    simpl in H; try discriminate.
  inversion H; subst. exists v1, v2, v3, v4, v5, v6. reflexivity.
Qed.

(** The start attempt never meets a missing key, and it touches neither the
    texts nor, unless it came from a click, the active box. *)
Lemma try_start_frame from_click st :
  map fst (UI.input_values st) = UI.input_keys_ordered ->
  snd (UI.try_start pyfloat from_click st) = None /\
  UI.input_values (fst (UI.try_start pyfloat from_click st)) = UI.input_values st /\
  (UI.active_input_key (fst (UI.try_start pyfloat from_click st)) = None \/
   UI.active_input_key (fst (UI.try_start pyfloat from_click st))
   = UI.active_input_key st).
Proof.
  intros Hkeys.
  destruct (six_items _ Hkeys) as (v1 & v2 & v3 & v4 & v5 & v6 & Hd).
  unfold UI.try_start. rewrite Hd. cbn [UI.parse_items].
  destruct (pyfloat v1) as [x1 |]; [| destruct from_click; simpl; auto].
  destruct (pyfloat v2) as [x2 |]; [| destruct from_click; simpl; auto].
  destruct (pyfloat v3) as [x3 |]; [| destruct from_click; simpl; auto].
  destruct (pyfloat v4) as [x4 |]; [| destruct from_click; simpl; auto].
  destruct (pyfloat v5) as [x5 |]; [| destruct from_click; simpl; auto].
  destruct (pyfloat v6) as [x6 |]; [| destruct from_click; simpl; auto].
  simpl.
  destruct (Rleb x1 0); [destruct from_click; simpl; auto |].
  destruct (Rleb x4 0); [destruct from_click; simpl; auto |].
  simpl. auto.
Qed.

Lemma clicked_key_in_keys pos k :
  UI.clicked_key pos UI.input_rects = Some k -> In k UI.input_keys_ordered.
Proof.
  unfold UI.input_rects, UI.input_keys_ordered. simpl.
  repeat match goal with
    | |- context [if ?c then _ else _] => destruct c
    end;
    intros H; inversion H; subst; simpl; tauto.
Qed.

Lemma truthy_active st a :
  UI.truthy (UI.active_input_key st) = Some a -> UI.active_input_key st = Some a.
Proof.
  unfold UI.truthy. destruct (UI.active_input_key st) as [[| c s] |]; congruence.
Qed.

(** Every event keeps the input screen consistent and none of them meets a
    missing key. *)
Lemma handle_event_consistent ev st :
  UI.consistent st ->
  UI.consistent (fst (UI.handle_event pyfloat isdigit ev st)) /\
  snd (UI.handle_event pyfloat isdigit ev st) <> Some UI.KeyError.
Proof.
  intros (Hkeys & Hactive & Htexts).
  destruct ev as [| [| [| button]] pos | k unicode shift |];
    cbn [UI.handle_event fst snd];
    try (split; [repeat split; assumption | discriminate]).
  - (* a click of the left button *)
    unfold UI.on_click.
    destruct (UI.collidepoint UI.start_button_rect pos).
    + destruct (try_start_frame true st Hkeys) as (Hex & Hvals & Hact).
      split; [| rewrite Hex; discriminate].
      unfold UI.consistent. rewrite Hvals.
      split; [exact Hkeys |]. split; [| exact Htexts].
      intros k Hk. destruct Hact as [Hact | Hact]; rewrite Hact in Hk;
        [discriminate | apply Hactive; exact Hk].
    + cbn [fst snd]. split; [| discriminate].
      unfold UI.consistent.
      cbn [UI.input_values UI.active_input_key].
      split; [exact Hkeys |]. split; [| exact Htexts].
      intros k Hk. apply (clicked_key_in_keys pos k Hk).
  - (* a key *)
    destruct (UI.truthy (UI.active_input_key st)) as [a |] eqn:Ha.
    + apply truthy_active in Ha. pose proof (Hactive a Ha) as Hin.
      assert (Hin' : In a (map fst (UI.input_values st))) by (rewrite Hkeys; exact Hin).
      destruct (dict_get_present _ a Hin') as (v & Hget & Hv).
      assert (Hnum : UI.numeric_text v).
      { rewrite Forall_forall in Htexts. apply (Htexts (a, v) Hv). }
      unfold UI.on_key_active. rewrite Hget.
      destruct k; cbn [fst snd];
        try (split; [| discriminate]);
        unfold UI.consistent, UI.set_value, UI.set_active;
        cbn [UI.input_values UI.active_input_key].
      * (* backspace *)
        rewrite (dict_set_keys _ a _ Hin').
        split; [exact Hkeys |]. split; [exact Hactive |].
        apply dict_set_Forall; [exact Htexts | apply numeric_text_drop_last; exact Hnum].
      * split; [exact Hkeys |]. split; [discriminate | exact Htexts].
      * split; [exact Hkeys |]. split; [discriminate | exact Htexts].
      * split; [exact Hkeys |]. split; [| exact Htexts].
        intros k Hk. inversion Hk; subst k. apply next_key_in_keys. exact Hin.
      * destruct (isdigit unicode || (String.eqb unicode "-" && String.eqb v "")
                  || (String.eqb unicode "." && negb (UI.contains "." v))) eqn:Hok;
          cbn [fst snd]; (split; [| discriminate]).
        -- unfold UI.consistent. cbn [UI.input_values UI.active_input_key].
           rewrite (dict_set_keys _ a _ Hin').
           split; [exact Hkeys |]. split; [exact Hactive |].
           apply dict_set_Forall; [exact Htexts |].
           apply numeric_text_typed; assumption.
        -- repeat split; assumption.
      * destruct (isdigit unicode || (String.eqb unicode "-" && String.eqb v "")
                  || (String.eqb unicode "." && negb (UI.contains "." v))) eqn:Hok;
          cbn [fst snd]; (split; [| discriminate]).
        -- unfold UI.consistent. cbn [UI.input_values UI.active_input_key].
           rewrite (dict_set_keys _ a _ Hin').
           split; [exact Hkeys |]. split; [exact Hactive |].
           apply dict_set_Forall; [exact Htexts |].
           apply numeric_text_typed; assumption.
        -- repeat split; assumption.
    + destruct k; cbn [fst snd];
        try (split; [repeat split; assumption | discriminate]).
      * destruct (try_start_frame false st Hkeys) as (Hex & Hvals & Hact).
        split; [| rewrite Hex; discriminate].
        unfold UI.consistent. rewrite Hvals.
        split; [exact Hkeys |]. split; [| exact Htexts].
        intros k Hk. destruct Hact as [Hact | Hact]; rewrite Hact in Hk;
          [discriminate | apply Hactive; exact Hk].
      * destruct (try_start_frame false st Hkeys) as (Hex & Hvals & Hact).
        split; [| rewrite Hex; discriminate].
        unfold UI.consistent. rewrite Hvals.
        split; [exact Hkeys |]. split; [| exact Htexts].
        intros k Hk. destruct Hact as [Hact | Hact]; rewrite Hact in Hk;
          [discriminate | apply Hactive; exact Hk].
Qed.

Lemma initial_consistent : UI.consistent UI.initial.
Proof.
  unfold UI.consistent, UI.initial, UI.numeric_text. simpl.
  split; [reflexivity |]. split; [discriminate |].
  repeat (apply Forall_cons; [simpl; split; [lia | reflexivity] |]).
  apply Forall_nil.
Qed.

Lemma handle_events_consistent evs st :
  UI.consistent st ->
  UI.consistent (fst (UI.handle_events pyfloat isdigit evs st)) /\
  snd (UI.handle_events pyfloat isdigit evs st) <> Some UI.KeyError.
Proof.
  revert st. induction evs as [| ev rest IH]; intros st Hst; simpl.
  - split; [exact Hst | discriminate].
  - destruct (handle_event_consistent ev st Hst) as [Hst1 Hex].
    destruct (UI.handle_event pyfloat isdigit ev st) as [st1 [e |]]; cbn [fst snd] in *.
    + split; assumption.
    + apply IH. exact Hst1.
Qed.

(** X23. Whatever is clicked and typed on the input screen: the six boxes
    stay the six boxes, the active box is none or one of them, no event ever
    meets a missing key ([KeyError]), and the text of every box stays the
    beginning of a signed decimal number, with a minus sign only in front
    and at most one point. *)
Theorem input_screen_stays_consistent (evs : list UI.event) :
  UI.consistent (fst (UI.handle_events pyfloat isdigit evs UI.initial)) /\
  snd (UI.handle_events pyfloat isdigit evs UI.initial) <> Some UI.KeyError.
Proof. apply handle_events_consistent, initial_consistent. Qed.

(** X24. With a box active, the tab key followed by shift-tab, or
    shift-tab followed by tab, comes back to the same box and changes
    nothing else; so do six tabs in a row. *)
Theorem tab_round_trip (st : UI.State) (a u : string) :
  UI.active_input_key st = Some a -> In a UI.input_keys_ordered ->
  UI.handle_events pyfloat isdigit
    [UI.KEYDOWN UI.K_TAB u false; UI.KEYDOWN UI.K_TAB u true] st = (st, None) /\
  UI.handle_events pyfloat isdigit
    [UI.KEYDOWN UI.K_TAB u true; UI.KEYDOWN UI.K_TAB u false] st = (st, None) /\
  UI.handle_events pyfloat isdigit
    (repeat (UI.KEYDOWN UI.K_TAB u false) 6) st = (st, None).
Proof.
  intros Ha Hin. destruct st as [act vals active err parsed].
  cbn [UI.active_input_key] in Ha. subst active.
  unfold UI.input_keys_ordered in Hin. simpl in Hin.
  repeat (destruct Hin as [<- | Hin]; [repeat split; reflexivity |]).
  destruct Hin.
Qed.

(** X25. The escape key leaves the input screen only while no box is
    active; with a box active it is handled as a typed character and the
    program goes on. *)
Theorem escape_needs_no_active_box (st : UI.State) (u : string) (shift : bool) :
  (UI.active_input_key st = None ->
   UI.handle_event pyfloat isdigit (UI.KEYDOWN UI.K_ESCAPE u shift) st
   = (st, Some UI.SystemExit)) /\
  (UI.consistent st ->
   forall a, UI.active_input_key st = Some a ->
   snd (UI.handle_event pyfloat isdigit (UI.KEYDOWN UI.K_ESCAPE u shift) st) = None /\
   UI.active_input_key
     (fst (UI.handle_event pyfloat isdigit (UI.KEYDOWN UI.K_ESCAPE u shift) st))
   = Some a).
Proof.
  split.
  - intros Ha. cbn [UI.handle_event]. rewrite Ha. reflexivity.
  - intros (Hkeys & Hactive & _) a Ha.
    pose proof (Hactive a Ha) as Hin.
    assert (Hin' : In a (map fst (UI.input_values st))) by (rewrite Hkeys; exact Hin).
    destruct (dict_get_present _ a Hin') as (v & Hget & _).
    assert (Htruthy : UI.truthy (UI.active_input_key st) = Some a).
    { rewrite Ha. unfold UI.input_keys_ordered in Hin. simpl in Hin.
      repeat (destruct Hin as [<- | Hin]; [reflexivity |]). destruct Hin. }
    cbn [UI.handle_event]. rewrite Htruthy.
    unfold UI.on_key_active. rewrite Hget.
    destruct (isdigit u || (String.eqb u "-" && String.eqb v "")
              || (String.eqb u "." && negb (UI.contains "." v)));
      cbn [fst snd UI.set_value UI.active_input_key]; auto.
Qed.

(** X26. One attempt to start (the click on the start button, or the return
    key with no box active) leaves the input screen exactly when all six
    texts read as numbers and both masses are positive.  Whenever all six
    texts read as numbers, these numbers are kept as the parsed values, also
    when a mass is rejected.  If the screen stays, it shows the error
    message.  In no case does the attempt raise, and it never changes a
    text. *)
Theorem start_attempt (from_click : bool) (st : UI.State) :
  map fst (UI.input_values st) = UI.input_keys_ordered ->
  UI.ui_active st = true ->
  snd (UI.try_start pyfloat from_click st) = None /\
  UI.input_values (fst (UI.try_start pyfloat from_click st)) = UI.input_values st /\
  (UI.ui_active (fst (UI.try_start pyfloat from_click st)) = false <->
   exists parsed m1 m2,
     UIData.parsed_as pyfloat (UI.input_values st) parsed /\
     UI.dict_get parsed "mass1" = Some m1 /\ UI.dict_get parsed "mass2" = Some m2 /\
     0 < m1 /\ 0 < m2) /\
  (forall parsed,
     UIData.parsed_as pyfloat (UI.input_values st) parsed ->
     UI.parsed_values (fst (UI.try_start pyfloat from_click st)) = Some parsed) /\
  (UI.ui_active (fst (UI.try_start pyfloat from_click st)) = true ->
   UI.error_message (fst (UI.try_start pyfloat from_click st)) = UI.invalid_input).
Proof.
  intros Hkeys Hact.
  destruct (try_start_frame from_click st Hkeys) as (Hex & Hvals & _).
  split; [exact Hex |]. split; [exact Hvals |].
  destruct (six_items _ Hkeys) as (v1 & v2 & v3 & v4 & v5 & v6 & Hd).
  unfold UI.try_start, UIData.parsed_as. rewrite Hd. cbn [UI.parse_items].
  assert (Hinv : forall parsed,
            Forall2 (fun kv kx => fst kx = fst kv /\ pyfloat (snd kv) = Some (snd kx))
              [("mass1", v1); ("vel1x", v2); ("vel1y", v3);
               ("mass2", v4); ("vel2x", v5); ("vel2y", v6)] parsed ->
            exists x1 x2 x3 x4 x5 x6,
              pyfloat v1 = Some x1 /\ pyfloat v2 = Some x2 /\ pyfloat v3 = Some x3 /\
              pyfloat v4 = Some x4 /\ pyfloat v5 = Some x5 /\ pyfloat v6 = Some x6 /\
              parsed = [("mass1", x1); ("vel1x", x2); ("vel1y", x3);
                        ("mass2", x4); ("vel2x", x5); ("vel2y", x6)]).
  { intros parsed H.
    repeat match goal with
      | H : Forall2 _ (_ :: _) _ |- _ => inversion H; subst; clear H
      | H : Forall2 _ [] _ |- _ => inversion H; subst; clear H
      | H : _ /\ _ |- _ => destruct H
      end.
    repeat match goal with
      | x : (string * R)%type |- _ => destruct x
      end.
    simpl in *. subst.
    do 6 eexists. repeat (split; [eassumption |]). reflexivity. }
  (* a text that does not read as a number *)
  assert (Hunread :
            (forall parsed,
               ~ Forall2 (fun kv kx => fst kx = fst kv /\ pyfloat (snd kv) = Some (snd kx))
                   [("mass1", v1); ("vel1x", v2); ("vel1y", v3);
                    ("mass2", v4); ("vel2x", v5); ("vel2y", v6)] parsed) ->
            (UI.ui_active (UI.start_failed from_click st) = false <->
             exists parsed m1 m2,
               Forall2 (fun kv kx => fst kx = fst kv /\ pyfloat (snd kv) = Some (snd kx))
                 [("mass1", v1); ("vel1x", v2); ("vel1y", v3);
                  ("mass2", v4); ("vel2x", v5); ("vel2y", v6)] parsed /\
               UI.dict_get parsed "mass1" = Some m1 /\
               UI.dict_get parsed "mass2" = Some m2 /\ 0 < m1 /\ 0 < m2) /\
            (forall parsed,
               Forall2 (fun kv kx => fst kx = fst kv /\ pyfloat (snd kv) = Some (snd kx))
                 [("mass1", v1); ("vel1x", v2); ("vel1y", v3);
                  ("mass2", v4); ("vel2x", v5); ("vel2y", v6)] parsed ->
               UI.parsed_values (UI.start_failed from_click st) = Some parsed) /\
            (UI.ui_active (UI.start_failed from_click st) = true ->
             UI.error_message (UI.start_failed from_click st) = UI.invalid_input)).
  { intros Hno. unfold UI.start_failed. cbn [UI.ui_active UI.error_message UI.parsed_values].
    rewrite Hact. split; [| split].
    - split; [discriminate |].
      intros (parsed & _ & _ & Hp & _). destruct (Hno parsed Hp).
    - intros parsed Hp. destruct (Hno parsed Hp).
    - reflexivity. }
  destruct (pyfloat v1) as [x1 |] eqn:H1;
    [| cbn [fst]; apply Hunread; intros parsed Hp;
       destruct (Hinv parsed Hp) as (? & ? & ? & ? & ? & ? & ? & ? & ? & ? & ? & ? & ?);
       congruence].
  destruct (pyfloat v2) as [x2 |] eqn:H2;
    [| cbn [fst]; apply Hunread; intros parsed Hp;
       destruct (Hinv parsed Hp) as (? & ? & ? & ? & ? & ? & ? & ? & ? & ? & ? & ? & ?);
       congruence].
  destruct (pyfloat v3) as [x3 |] eqn:H3;
    [| cbn [fst]; apply Hunread; intros parsed Hp;
       destruct (Hinv parsed Hp) as (? & ? & ? & ? & ? & ? & ? & ? & ? & ? & ? & ? & ?);
       congruence].
  destruct (pyfloat v4) as [x4 |] eqn:H4;
    [| cbn [fst]; apply Hunread; intros parsed Hp;
       destruct (Hinv parsed Hp) as (? & ? & ? & ? & ? & ? & ? & ? & ? & ? & ? & ? & ?);
       congruence].
  destruct (pyfloat v5) as [x5 |] eqn:H5;
    [| cbn [fst]; apply Hunread; intros parsed Hp;
       destruct (Hinv parsed Hp) as (? & ? & ? & ? & ? & ? & ? & ? & ? & ? & ? & ? & ?);
       congruence].
  destruct (pyfloat v6) as [x6 |] eqn:H6;
    [| cbn [fst]; apply Hunread; intros parsed Hp;
       destruct (Hinv parsed Hp) as (? & ? & ? & ? & ? & ? & ? & ? & ? & ? & ? & ? & ?);
       congruence].
  clear Hunread.
  cbv [UI.dict_set UI.dict_get String.eqb Ascii.eqb Bool.eqb andb].
  set (parsed0 := [("mass1", x1); ("vel1x", x2); ("vel1y", x3);
                   ("mass2", x4); ("vel2x", x5); ("vel2y", x6)]).
  assert (Hparsed0 :
            Forall2 (fun kv kx => fst kx = fst kv /\ pyfloat (snd kv) = Some (snd kx))
              [("mass1", v1); ("vel1x", v2); ("vel1y", v3);
               ("mass2", v4); ("vel2x", v5); ("vel2y", v6)] parsed0).
  { unfold parsed0. repeat (constructor; [simpl; auto |]). constructor. }
  assert (Huniq : forall parsed,
            Forall2 (fun kv kx => fst kx = fst kv /\ pyfloat (snd kv) = Some (snd kx))
              [("mass1", v1); ("vel1x", v2); ("vel1y", v3);
               ("mass2", v4); ("vel2x", v5); ("vel2y", v6)] parsed ->
            parsed = parsed0).
  { intros parsed Hp.
    destruct (Hinv parsed Hp) as (y1 & y2 & y3 & y4 & y5 & y6 & E1 & E2 & E3 & E4 & E5 & E6 & ->).
    unfold parsed0. repeat f_equal; congruence. }
  assert (Hmasses : forall parsed m1 m2,
            Forall2 (fun kv kx => fst kx = fst kv /\ pyfloat (snd kv) = Some (snd kx))
              [("mass1", v1); ("vel1x", v2); ("vel1y", v3);
               ("mass2", v4); ("vel2x", v5); ("vel2y", v6)] parsed ->
            UI.dict_get parsed "mass1" = Some m1 ->
            UI.dict_get parsed "mass2" = Some m2 -> m1 = x1 /\ m2 = x4).
  { intros parsed m1 m2 Hp Hm1 Hm2. rewrite (Huniq parsed Hp) in Hm1, Hm2.
    unfold parsed0 in Hm1, Hm2. simpl in Hm1, Hm2. split; congruence. }
  destruct (Rleb x1 0) eqn:Hx1.
  { apply Rleb_true in Hx1.
    unfold UI.start_failed. cbn [fst UI.ui_active UI.error_message UI.parsed_values].
    rewrite Hact. split; [| split]; [| | reflexivity].
    - split; [discriminate |].
      intros (parsed & m1 & m2 & Hp & Hm1 & Hm2 & Hp1 & _).
      destruct (Hmasses parsed m1 m2 Hp Hm1 Hm2) as [-> _]. lra.
    - intros parsed Hp. rewrite (Huniq parsed Hp). reflexivity. }
  apply Rleb_false in Hx1.
  destruct (Rleb x4 0) eqn:Hx4.
  { apply Rleb_true in Hx4.
    unfold UI.start_failed. cbn [fst UI.ui_active UI.error_message UI.parsed_values].
    rewrite Hact. split; [| split]; [| | reflexivity].
    - split; [discriminate |].
      intros (parsed & m1 & m2 & Hp & Hm1 & Hm2 & _ & Hp2).
      destruct (Hmasses parsed m1 m2 Hp Hm1 Hm2) as [_ ->]. lra.
    - intros parsed Hp. rewrite (Huniq parsed Hp). reflexivity. }
  apply Rleb_false in Hx4. cbn [fst UI.ui_active UI.parsed_values UI.error_message].
  split; [| split]; [| | discriminate].
  - split; [intros _ | reflexivity].
    exists parsed0, x1, x4. repeat split; auto.
  - intros parsed Hp. rewrite (Huniq parsed Hp). reflexivity.
Qed.

Lemma try_start_stays_left from_click st :
  UI.ui_active st = false ->
  UI.ui_active (fst (UI.try_start pyfloat from_click st)) = false.
Proof.
  intros Hoff. unfold UI.try_start.
  destruct (UI.parse_items pyfloat (UI.input_values st) []) as [parsed |];
    [| exact Hoff].
  destruct (UI.dict_get parsed "mass1") as [m1 |]; [| exact Hoff].
  destruct (Rleb m1 0); [exact Hoff |].
  destruct (UI.dict_get parsed "mass2") as [m2 |]; [| exact Hoff].
  destruct (Rleb m2 0); [exact Hoff | reflexivity].
Qed.

Lemma handle_event_stays_left ev st :
  UI.ui_active st = false ->
  UI.ui_active (fst (UI.handle_event pyfloat isdigit ev st)) = false.
Proof.
  intros Hoff.
  destruct ev as [| [| [| button]] pos | k u shift |];
    cbn [UI.handle_event fst]; try exact Hoff.
  - unfold UI.on_click.
    destruct (UI.collidepoint UI.start_button_rect pos);
      [apply try_start_stays_left; exact Hoff | exact Hoff].
  - destruct (UI.truthy (UI.active_input_key st)) as [active |].
    + unfold UI.on_key_active.
      destruct k; try exact Hoff;
        destruct (UI.dict_get (UI.input_values st) active) as [v |];
        try exact Hoff;
        match goal with
        | |- context [if ?c then _ else _] => destruct c
        end; exact Hoff.
    + destruct k; try exact Hoff; apply try_start_stays_left; exact Hoff.
Qed.

Lemma handle_events_stay_left evs :
  forall st,
    UI.ui_active st = false ->
    UI.ui_active (fst (UI.handle_events pyfloat isdigit evs st)) = false.
Proof.
  induction evs as [| ev rest IH]; intros st Hoff; [exact Hoff |].
  cbn [UI.handle_events].
  pose proof (handle_event_stays_left ev st Hoff) as H1.
  destruct (UI.handle_event pyfloat isdigit ev st) as [st1 [ex |]];
    cbn [fst] in *; [exact H1 | apply IH; exact H1].
Qed.

(** Texts that all read as numbers become the parsed values of a start
    attempt, whether or not the masses are accepted. *)
Lemma try_start_parsed from_click st parsed :
  map fst (UI.input_values st) = UI.input_keys_ordered ->
  UIData.parsed_as pyfloat (UI.input_values st) parsed ->
  UI.parsed_values (fst (UI.try_start pyfloat from_click st)) = Some parsed.
Proof.
  intros Hkeys Hp.
  destruct (six_items _ Hkeys) as (v1 & v2 & v3 & v4 & v5 & v6 & Hd).
  unfold UIData.parsed_as in Hp. rewrite Hd in Hp.
  repeat match goal with
    | H : Forall2 _ (_ :: _) _ |- _ => inversion H; subst; clear H
    | H : Forall2 _ [] _ |- _ => inversion H; subst; clear H
    | H : _ /\ _ |- _ => destruct H
    end.
  repeat match goal with
    | x : (string * R)%type |- _ => destruct x
    end.
  cbn [fst snd] in *. subst.
  unfold UI.try_start. rewrite Hd. cbn [UI.parse_items].
  repeat match goal with
    | H : pyfloat _ = Some _ |- _ => rewrite H; clear H
    end.
  cbv [UI.dict_set UI.dict_get String.eqb Ascii.eqb Bool.eqb andb].
  repeat match goal with
    | |- context [if Rleb ?x 0 then _ else _] => destruct (Rleb x 0)
    end; reflexivity.
Qed.

(** X27. Once a start attempt has been accepted, the input screen does not
    come back: whatever events follow in the batch, [ui_active] stays off.
    A later start attempt is still carried out in full: it raises nothing,
    and whenever the six texts read as numbers these numbers replace
    [parsed_values], also when a mass is rejected; the set-up that comes
    next reads these last numbers. *)
Theorem attempt_after_leaving (st : UI.State) :
  UI.ui_active st = false ->
  (forall evs,
     UI.ui_active (fst (UI.handle_events pyfloat isdigit evs st)) = false) /\
  (forall from_click parsed,
     map fst (UI.input_values st) = UI.input_keys_ordered ->
     UIData.parsed_as pyfloat (UI.input_values st) parsed ->
     snd (UI.try_start pyfloat from_click st) = None /\
     UI.ui_active (fst (UI.try_start pyfloat from_click st)) = false /\
     UI.parsed_values (fst (UI.try_start pyfloat from_click st)) = Some parsed).
Proof.
  intros Hoff. split.
  - intros evs. apply handle_events_stay_left. exact Hoff.
  - intros from_click parsed Hkeys Hp.
    split; [apply (try_start_frame from_click st Hkeys) |].
    split; [apply try_start_stays_left; exact Hoff |].
    apply try_start_parsed; assumption.
Qed.

End InputScreen.

Section InputScreenWitnesses.

Import Ascii String.
Local Open Scope string_scope.

Lemma all_digits_plain (c : ascii) (s : string) :
  UI.is_ascii_digit c = false -> UI.all_digits s = true -> UI.contains c s = false.
Proof.
  intros Hc. induction s as [| c' s IH]; simpl; [reflexivity |].
  intros H. apply andb_true_iff in H as [Hd Hs].
  rewrite (IH Hs), orb_false_r.
  destruct (Ascii.eqb c' c) eqn:Heq; [| reflexivity].
  apply Ascii.eqb_eq in Heq. subst c'. congruence.
Qed.

Lemma ascii_isdigit_plain : UI.plain_digits UI.ascii_isdigit.
Proof.
  intros s H. unfold UI.ascii_isdigit in H.
  apply andb_true_iff in H as [_ H].
  split; apply all_digits_plain; auto.
Qed.

(** The first mass retyped as "-2.5" (the second minus sign and the second
    point are not taken), then a click on the start button. *)
Lemma input_screen_stays_consistent_witness :
  UI.consistent
    (fst (UI.handle_events UIData.default_float UI.ascii_isdigit
            [UI.MOUSEBUTTONDOWN 1 (250, 110)%Z;
             UI.KEYDOWN UI.K_BACKSPACE "" false; UI.KEYDOWN UI.K_BACKSPACE "" false;
             UI.KEYDOWN UI.K_OTHER "-" false; UI.KEYDOWN UI.K_OTHER "2" false;
             UI.KEYDOWN UI.K_OTHER "-" false; UI.KEYDOWN UI.K_OTHER "." false;
             UI.KEYDOWN UI.K_OTHER "5" false; UI.KEYDOWN UI.K_OTHER "." false;
             UI.MOUSEBUTTONDOWN 1 (400, 520)%Z]
            UI.initial)) /\
  snd (UI.handle_events UIData.default_float UI.ascii_isdigit
         [UI.MOUSEBUTTONDOWN 1 (250, 110)%Z;
          UI.KEYDOWN UI.K_BACKSPACE "" false; UI.KEYDOWN UI.K_BACKSPACE "" false;
          UI.KEYDOWN UI.K_OTHER "-" false; UI.KEYDOWN UI.K_OTHER "2" false;
          UI.KEYDOWN UI.K_OTHER "-" false; UI.KEYDOWN UI.K_OTHER "." false;
          UI.KEYDOWN UI.K_OTHER "5" false; UI.KEYDOWN UI.K_OTHER "." false;
          UI.MOUSEBUTTONDOWN 1 (400, 520)%Z]
         UI.initial) <> Some UI.KeyError.
Proof.
  apply (input_screen_stays_consistent UIData.default_float UI.ascii_isdigit
           ascii_isdigit_plain).
Defined.

(** What those events leave in the box of the first mass. *)
Example typed_text :
  UI.dict_get
    (UI.input_values
       (fst (UI.handle_events UIData.default_float UI.ascii_isdigit
               [UI.MOUSEBUTTONDOWN 1 (250, 110)%Z;
                UI.KEYDOWN UI.K_BACKSPACE "" false; UI.KEYDOWN UI.K_BACKSPACE "" false;
                UI.KEYDOWN UI.K_OTHER "-" false; UI.KEYDOWN UI.K_OTHER "2" false;
                UI.KEYDOWN UI.K_OTHER "-" false; UI.KEYDOWN UI.K_OTHER "." false;
                UI.KEYDOWN UI.K_OTHER "5" false; UI.KEYDOWN UI.K_OTHER "." false]
               UI.initial))) "mass1"
  = Some "-2.5".
Proof. vm_compute. reflexivity. Qed.

Lemma tab_round_trip_witness :
  UI.handle_events UIData.default_float UI.ascii_isdigit
    [UI.KEYDOWN UI.K_TAB "" false; UI.KEYDOWN UI.K_TAB "" true] UIData.editing_mass1
  = (UIData.editing_mass1, None) /\
  UI.handle_events UIData.default_float UI.ascii_isdigit
    [UI.KEYDOWN UI.K_TAB "" true; UI.KEYDOWN UI.K_TAB "" false] UIData.editing_mass1
  = (UIData.editing_mass1, None) /\
  UI.handle_events UIData.default_float UI.ascii_isdigit
    (repeat (UI.KEYDOWN UI.K_TAB "" false) 6) UIData.editing_mass1
  = (UIData.editing_mass1, None).
Proof.
  apply (tab_round_trip UIData.default_float UI.ascii_isdigit
           UIData.editing_mass1 "mass1" "").
  - reflexivity.
  - left. reflexivity.
Defined.

Lemma editing_mass1_consistent : UI.consistent UIData.editing_mass1.
Proof.
  destruct initial_consistent as (Hk & _ & Ht).
  split; [exact Hk |]. split; [| exact Ht].
  intros k Hk'. inversion Hk'; subst k. left. reflexivity.
Qed.

Lemma escape_needs_no_active_box_witness :
  UI.handle_event UIData.default_float UI.ascii_isdigit
    (UI.KEYDOWN UI.K_ESCAPE "" false) UI.initial
  = (UI.initial, Some UI.SystemExit) /\
  snd (UI.handle_event UIData.default_float UI.ascii_isdigit
         (UI.KEYDOWN UI.K_ESCAPE "" false) UIData.editing_mass1) = None.
Proof.
  split.
  - apply (escape_needs_no_active_box UIData.default_float UI.ascii_isdigit
             UI.initial "" false).
    reflexivity.
  - destruct (escape_needs_no_active_box UIData.default_float UI.ascii_isdigit
                UIData.editing_mass1 "" false) as [_ H].
    apply (H editing_mass1_consistent "mass1"). reflexivity.
Defined.

(** The default texts start the simulation. *)
Lemma start_attempt_witness :
  snd (UI.try_start UIData.default_float true UI.initial) = None /\
  UI.ui_active (fst (UI.try_start UIData.default_float true UI.initial)) = false.
Proof.
  destruct (start_attempt UIData.default_float true UI.initial)
    as (Hex & _ & Hiff & _); [reflexivity | reflexivity |].
  split; [exact Hex |].
  apply Hiff.
  exists [("mass1", 10); ("vel1x", 80); ("vel1y", -150);
          ("mass2", 20); ("vel2x", -60); ("vel2y", -100)], 10, 20.
  split.
  { unfold UIData.parsed_as, UI.initial. cbn [UI.input_values].
    repeat (constructor; [split; reflexivity |]). constructor. }
  split; [reflexivity |]. split; [reflexivity |].
  split; lra.
Defined.

(** After an accepted attempt the first mass is retyped as [-150]; a click
    on the start button then leaves [-150] as the first parsed mass. *)
Lemma attempt_after_leaving_witness :
  UI.parsed_values (fst (UI.try_start UIData.default_float true UIData.left_and_retyped))
  = Some [("mass1", -150); ("vel1x", 80); ("vel1y", -150);
          ("mass2", 20); ("vel2x", -60); ("vel2y", -100)].
Proof.
  destruct (attempt_after_leaving UIData.default_float UI.ascii_isdigit
              UIData.left_and_retyped) as [_ H]; [reflexivity |].
  apply (H true); [reflexivity |].
  unfold UIData.parsed_as, UIData.left_and_retyped. cbn [UI.input_values].
  repeat (constructor; [split; reflexivity |]). constructor.
Defined.

End InputScreenWitnesses.
